(** * Shallow embedding of the chfs-py file server core (cuthttp)

    Modelled modules: [app/utils.py] (filename validation, path
    normalisation), [app/models.py] ([HttpRange.resolve],
    [TokenBucket.consume], [RuleInfo]), [app/ipfilter.py] (CIDR parsing
    after Python's [ipaddress] module and [check_ip_allowed]),
    [app/rules.py] ([RuleEvaluator.evaluate]), [app/fs.py] ([safe_join],
    [save_uploaded_file]) and [app/direct_transfer.py]
    ([DirectTransferStore]). Python [str] values are modelled as Rocq
    [string]s (one 8-bit [ascii] per character, so code points below
    256); Python [int] as [Z]; Python
    [float] as [Q]. *)

From Stdlib Require Import ZArith QArith Qminmax Lqa Bool List String Ascii Lia.
From Stdlib Require Import Sorted Permutation.
Import ListNotations.

Open Scope string_scope.

(* ===================================================================== *)
(** ** Character and string helpers (Python [str] methods) *)
(* ===================================================================== *)

Module Py.

Definition code (c : ascii) : nat := nat_of_ascii c.

Definition chars (s : string) : list ascii := list_ascii_of_string s.

(** [c in s] for a one-character [c]. *)
Definition contains_char (c : ascii) (s : string) : bool :=
  existsb (Ascii.eqb c) (chars s).

(** [any(ch in set for ch in s)] *)
Definition any_char_in (set s : string) : bool :=
  existsb (fun ch => contains_char ch set) (chars s).

(** [s.startswith(p)] *)
Definition startswith (s p : string) : bool := String.prefix p s.

(** [s.endswith(p)] *)
Definition endswith (s p : string) : bool :=
  let n := String.length s in
  let m := String.length p in
  (m <=? n)%nat && String.eqb (substring (n - m) m s) p.

(** [s.replace(a, b)] for one-character [a] and [b]. *)
Fixpoint replace_char (a b : ascii) (s : string) : string :=
  match s with
  | EmptyString => EmptyString
  | String c s' =>
      String (if Ascii.eqb c a then b else c) (replace_char a b s')
  end.

(** [s.lstrip(c)] for one character [c]. *)
Fixpoint lstrip_char (c : ascii) (s : string) : string :=
  match s with
  | String c' s' => if Ascii.eqb c' c then lstrip_char c s' else s
  | EmptyString => EmptyString
  end.

(** [s.strip(chars)]: strip from both ends every character of [set]. *)
Fixpoint lstrip_set (set s : string) : string :=
  match s with
  | String c s' => if contains_char c set then lstrip_set set s' else s
  | EmptyString => EmptyString
  end.

Definition rev_string (s : string) : string :=
  string_of_list_ascii (rev (chars s)).

Definition strip_set (set s : string) : string :=
  rev_string (lstrip_set set (rev_string (lstrip_set set s))).

(** [s.split(sep)] for a one-character [sep]: always at least one
    element, empty fields kept. *)
Fixpoint split_on (sep : ascii) (s : string) : list string :=
  match s with
  | EmptyString => [EmptyString]
  | String c s' =>
      if Ascii.eqb c sep then EmptyString :: split_on sep s'
      else match split_on sep s' with
           | x :: xs => String c x :: xs
           | [] => [String c EmptyString]
           end
  end.

Definition is_ascii_digit (c : ascii) : bool :=
  ((48 <=? code c) && (code c <=? 57))%nat.

(** [s.isascii() and s.isdigit()] (false on the empty string). *)
Definition isdigit_str (s : string) : bool :=
  negb (String.eqb s "") && forallb is_ascii_digit (chars s).

Definition digit_val (c : ascii) : Z := Z.of_nat (code c) - 48.

(** [int(s, 10)] on a string of ASCII digits. *)
Definition dec_value (s : string) : Z :=
  fold_left (fun acc c => acc * 10 + digit_val c)%Z (chars s) 0%Z.

Definition hex_val (c : ascii) : option Z :=
  let n := code c in
  if ((48 <=? n) && (n <=? 57))%nat then Some (Z.of_nat n - 48)%Z
  else if ((97 <=? n) && (n <=? 102))%nat then Some (Z.of_nat n - 87)%Z
  else if ((65 <=? n) && (n <=? 70))%nat then Some (Z.of_nat n - 55)%Z
  else None.

Definition is_hex_digit (c : ascii) : bool :=
  match hex_val c with Some _ => true | None => false end.

(** [int(s, 16)] on a string of hex digits. *)
Definition hex_value (s : string) : Z :=
  fold_left (fun acc c => acc * 16 + match hex_val c with
                                      | Some v => v | None => 0 end)%Z
            (chars s) 0%Z.

Definition dquote : ascii := ascii_of_nat 34.

End Py.

(* ===================================================================== *)
(** ** [app/utils.py]: [validate_filename] *)
(* ===================================================================== *)

Module Utils.
Import Py.

(** [dangerous_chars]: the nine characters less-than, greater-than, colon,
    double quote, slash, backslash, bar, question mark and star. *)
Definition dangerous_chars : string :=
  "<>:" ++ String dquote "/\|?*".

(** [validate_filename] *)
Definition validate_filename (filename : string) : bool :=
  if String.eqb filename "" || String.eqb filename "." || String.eqb filename ".."
  then false
  else if any_char_in dangerous_chars filename then false
  else if existsb (fun ch => (code ch <? 32)%nat) (chars filename) then false
  else true.

End Utils.

(* ===================================================================== *)
(** ** [app/models.py]: [HttpRange.resolve] *)
(* ===================================================================== *)

Module Range.

Record HttpRange := {
  start : option Z;
  end_ : option Z;
  suffix_length : option Z
}.

(** [HttpRange.resolve(content_length)] *)
Definition resolve (r : HttpRange) (content_length : Z) : Z * Z :=
  match suffix_length r with
  | Some k => (Z.max 0 (content_length - k), content_length - 1)
  | None =>
      let start0 := match start r with Some s => s | None => 0 end in
      let end0 := match end_ r with Some e => e | None => content_length - 1 end in
      if content_length <=? 0 then (0, -1)
      else
        let start1 := Z.max 0 (Z.min start0 content_length) in
        let end1 := Z.max (-1) (Z.min end0 (content_length - 1)) in
        let '(start2, end2) :=
          if start1 >? content_length - 1
          then (content_length, content_length - 1)
          else (start1, end1) in
        let end3 :=
          if (end2 <? start2) && negb (end2 =? content_length - 1)
          then start2 else end2 in
        (start2, end3)
  end%Z.

End Range.

(* ===================================================================== *)
(** ** [app/models.py]: [TokenBucket.consume] *)
(* ===================================================================== *)

Module Bucket.

Record TokenBucket := {
  capacity : Q;
  tokens : Q;
  last_refill : Q;
  refill_rate : Q
}.

(** [consume(tokens)] at wall-clock time [now]: returns the boolean
    result and the updated bucket. *)
Definition consume (b : TokenBucket) (now : Q) (n : Z) : bool * TokenBucket :=
  let elapsed := now - last_refill b in
  let t := Qmin (capacity b) (tokens b + elapsed * refill_rate b) in
  let b1 := {| capacity := capacity b; tokens := t;
               last_refill := now; refill_rate := refill_rate b |} in
  if Qle_bool (inject_Z n) t
  then (true, {| capacity := capacity b; tokens := t - inject_Z n;
                 last_refill := now; refill_rate := refill_rate b |})
  else (false, b1).

End Bucket.

(* ===================================================================== *)
(** ** Python's [ipaddress] module, as used by [app/ipfilter.py]

    The parsing functions follow CPython 3.11's [ipaddress]:
    [IPv4Address._ip_int_from_string] / [_parse_octet],
    [IPv6Address._ip_int_from_string] / [_parse_hextet] /
    [_split_scope_id], [_split_optional_netmask], [_make_netmask],
    [_prefix_from_prefix_string], [_prefix_from_ip_string] and
    [_prefix_from_ip_int]. *)
(* ===================================================================== *)

Module Ip.
Import Py.

Inductive version := V4 | V6.

Definition version_eqb (a b : version) : bool :=
  match a, b with V4, V4 | V6, V6 => true | _, _ => false end.

(** An address object: its version and its integer value [_ip]. *)
Record address := { a_ver : version; a_int : Z }.

(** A network object: version, [network_address] and [prefixlen]. *)
Record network := { n_ver : version; n_addr : Z; n_prefixlen : Z }.

Definition max_prefixlen (v : version) : Z :=
  match v with V4 => 32 | V6 => 128 end.

Definition all_ones (v : version) : Z := Z.ones (max_prefixlen v).

(** [_ip_int_from_prefix]: [_ALL_ONES ^ (_ALL_ONES >> prefixlen)]. *)
Definition ip_int_from_prefix (v : version) (p : Z) : Z :=
  Z.lxor (all_ones v) (Z.shiftr (all_ones v) p).

Definition netmask (n : network) : Z := ip_int_from_prefix (n_ver n) (n_prefixlen n).

(** [address in network] ([_BaseNetwork.__contains__]). *)
Definition contains (n : network) (a : address) : bool :=
  version_eqb (n_ver n) (a_ver a) && Z.eqb (Z.land (a_int a) (netmask n)) (n_addr n).

(* --- IPv4 --------------------------------------------------------- *)

Definition first_char_is_zero (s : string) : bool :=
  match s with String c _ => Ascii.eqb c "0"%char | EmptyString => false end.

(** [IPv4Address._parse_octet] *)
Definition parse_octet (s : string) : option Z :=
  if String.eqb s "" then None
  else if negb (isdigit_str s) then None
  else if (3 <? String.length s)%nat then None
  else if negb (String.eqb s "0") && first_char_is_zero s then None
  else let v := dec_value s in
       if (255 <? v)%Z then None else Some v.

Fixpoint octets_to_int (acc : Z) (l : list string) : option Z :=
  match l with
  | [] => Some acc
  | o :: l' =>
      match parse_octet o with
      | Some v => octets_to_int (acc * 256 + v)%Z l'
      | None => None
      end
  end.

(** [IPv4Address._ip_int_from_string] *)
Definition ipv4_int_from_string (s : string) : option Z :=
  if String.eqb s "" then None
  else let octets := split_on "."%char s in
       if negb (Nat.eqb (List.length octets) 4) then None
       else octets_to_int 0 octets.

(** [IPv4Address(s)]: a string with a slash is refused. *)
Definition IPv4Address (s : string) : option Z :=
  if contains_char "/"%char s then None else ipv4_int_from_string s.

(* --- IPv6 --------------------------------------------------------- *)

(** [IPv6Address._parse_hextet]; [int('', 16)] raises. *)
Definition parse_hextet (s : string) : option Z :=
  if negb (forallb is_hex_digit (chars s)) then None
  else if (4 <? String.length s)%nat then None
  else if String.eqb s "" then None
  else Some (hex_value s).

Definition hex_digit_char (v : Z) : ascii :=
  ascii_of_nat (Z.to_nat (if (v <? 10)%Z then 48 + v else 87 + v)%Z).

(** ['%x' % v] for [0 <= v <= 0xFFFF], written zero-padded to four
    digits; [_parse_hextet] reads back the same value. *)
Definition hex4 (v : Z) : string :=
  String (hex_digit_char (Z.shiftr v 12 mod 16))
  (String (hex_digit_char (Z.shiftr v 8 mod 16))
  (String (hex_digit_char (Z.shiftr v 4 mod 16))
  (String (hex_digit_char (v mod 16)) EmptyString))).

Fixpoint hextets_to_int (acc : Z) (l : list string) : option Z :=
  match l with
  | [] => Some acc
  | h :: l' =>
      match parse_hextet h with
      | Some v => hextets_to_int (Z.lor (Z.shiftl acc 16) v) l'
      | None => None
      end
  end.

(** Indices [i] in [1 .. len(parts) - 2] with [parts[i] == '']. *)
Definition inner_empty_indices (parts : list string) : list nat :=
  filter (fun i => String.eqb (nth i parts "") "")
         (seq 1 (List.length parts - 2)).

(** [IPv6Address._ip_int_from_string] *)
Definition ipv6_int_from_string (s : string) : option Z :=
  if String.eqb s "" then None else
  let parts0 := split_on ":"%char s in
  if (List.length parts0 <? 3)%nat then None else
  let lastp := last parts0 "" in
  let parts1 :=
    if contains_char "."%char lastp
    then match IPv4Address lastp with
         | Some v4 => Some (removelast parts0 ++
                             [hex4 (Z.land (Z.shiftr v4 16) 65535);
                              hex4 (Z.land v4 65535)])%list
         | None => None
         end
    else Some parts0 in
  match parts1 with
  | None => None
  | Some parts =>
    let n := List.length parts in
    if (9 <? n)%nat then None else
    let layout :=
      match inner_empty_indices parts with
      | _ :: _ :: _ => None
      | [i] =>
          let hi := i in
          let lo := (n - i - 1)%nat in
          let first_empty := String.eqb (nth 0 parts "") "" in
          let last_empty := String.eqb (last parts "") "" in
          if first_empty && negb (Nat.eqb hi 1) then None
          else if last_empty && negb (Nat.eqb lo 1) then None
          else
            let hi' := if first_empty then (hi - 1)%nat else hi in
            let lo' := if last_empty then (lo - 1)%nat else lo in
            if (8 <? hi' + lo' + 1)%nat then None
            else Some (hi', lo', (8 - (hi' + lo'))%nat)
      | [] =>
          if negb (Nat.eqb n 8) then None
          else if String.eqb (nth 0 parts "") "" then None
          else if String.eqb (last parts "") "" then None
          else Some (n, 0%nat, 0%nat)
      end in
    match layout with
    | None => None
    | Some (hi, lo, skipped) =>
        match hextets_to_int 0 (firstn hi parts) with
        | None => None
        | Some high =>
            hextets_to_int (Z.shiftl high (16 * Z.of_nat skipped))
                           (skipn (n - lo) parts)
        end
    end
  end.

(** [str.partition('%')] *)
Fixpoint partition_pct (s : string) : string * option string :=
  match s with
  | EmptyString => (EmptyString, None)
  | String c s' =>
      if Ascii.eqb c "%"%char then (EmptyString, Some s')
      else let '(a, r) := partition_pct s' in (String c a, r)
  end.

(** [IPv6Address._split_scope_id] *)
Definition split_scope_id (s : string) : option string :=
  match partition_pct s with
  | (a, None) => Some a
  | (a, Some scope) =>
      if String.eqb scope "" || contains_char "%"%char scope then None
      else Some a
  end.

(** [IPv6Address(s)] *)
Definition IPv6Address (s : string) : option Z :=
  if contains_char "/"%char s then None
  else match split_scope_id s with
       | Some a => ipv6_int_from_string a
       | None => None
       end.

(** [ipaddress.ip_address(s)]: IPv4 first, then IPv6. *)
Definition ip_address (s : string) : option address :=
  match IPv4Address s with
  | Some v => Some {| a_ver := V4; a_int := v |}
  | None =>
      match IPv6Address s with
      | Some v => Some {| a_ver := V6; a_int := v |}
      | None => None
      end
  end.

(* --- Networks ----------------------------------------------------- *)

(** [int.bit_length] on a non-negative integer. *)
Definition bit_length (x : Z) : Z := if (x =? 0)%Z then 0 else Z.log2 x + 1.

(** [_count_righthand_zero_bits] *)
Definition count_righthand_zero_bits (number bits : Z) : Z :=
  if (number =? 0)%Z then bits
  else Z.min bits (bit_length (Z.land (Z.lnot number) (number - 1))).

(** [_prefix_from_ip_int] *)
Definition prefix_from_ip_int (v : version) (ip_int : Z) : option Z :=
  let trailing := count_righthand_zero_bits ip_int (max_prefixlen v) in
  let prefixlen := (max_prefixlen v - trailing)%Z in
  let leading_ones := Z.shiftr ip_int trailing in
  let ones := (Z.shiftl 1 prefixlen - 1)%Z in
  if (leading_ones =? ones)%Z then Some prefixlen else None.

(** [_prefix_from_prefix_string] *)
Definition prefix_from_prefix_string (v : version) (s : string) : option Z :=
  if negb (isdigit_str s) then None
  (* [int(prefixlen_str)] raises [ValueError] on more than 4300 digits
     ([sys.get_int_max_str_digits()]), reported as a bad netmask. *)
  else if (4300 <? String.length s)%nat then None
  else let p := dec_value s in
       if (0 <=? p)%Z && (p <=? max_prefixlen v)%Z then Some p else None.

(** [IPv4Network._prefix_from_ip_string]: netmask, then hostmask. *)
Definition prefix_from_ip_string (s : string) : option Z :=
  match ipv4_int_from_string s with
  | None => None
  | Some ip_int =>
      match prefix_from_ip_int V4 ip_int with
      | Some p => Some p
      | None => prefix_from_ip_int V4 (Z.lxor ip_int (all_ones V4))
      end
  end.

(** [_make_netmask] for a string argument. *)
Definition make_netmask (v : version) (s : string) : option Z :=
  match v with
  | V4 => match prefix_from_prefix_string V4 s with
          | Some p => Some p
          | None => prefix_from_ip_string s
          end
  | V6 => prefix_from_prefix_string V6 s
  end.

Definition parse_address (v : version) (s : string) : option Z :=
  match v with V4 => IPv4Address s | V6 => IPv6Address s end.

(** [IPv4Network(s, strict=False)] / [IPv6Network(s, strict=False)]. *)
Definition make_network (v : version) (s : string) : option network :=
  let parts := split_on "/"%char s in
  if (2 <? List.length parts)%nat then None else
  match parse_address v (nth 0 parts "") with
  | None => None
  | Some a =>
      let mask := match parts with
                  | [_; m] => make_netmask v m
                  | _ => Some (max_prefixlen v)
                  end in
      match mask with
      | None => None
      | Some p =>
          Some {| n_ver := v;
                  n_addr := Z.land a (ip_int_from_prefix v p);
                  n_prefixlen := p |}
      end
  end.

(** [ipaddress.ip_network(s, strict=False)] *)
Definition ip_network (s : string) : option network :=
  match make_network V4 s with
  | Some n => Some n
  | None => make_network V6 s
  end.

End Ip.

(* ===================================================================== *)
(** ** [app/ipfilter.py] *)
(* ===================================================================== *)

Module IpFilter.
Import Py Ip.

(** [parse_cidr] *)
Definition parse_cidr (cidr_str : string) : option network :=
  if String.eqb cidr_str "*" then
    Some {| n_ver := V4; n_addr := 0; n_prefixlen := 0 |}
  else if negb (contains_char "/"%char cidr_str) then
    match ip_address cidr_str with
    | Some {| a_ver := V4 |} => make_network V4 (cidr_str ++ "/32")
    | Some {| a_ver := V6 |} => make_network V6 (cidr_str ++ "/128")
    | None => None
    end
  else ip_network cidr_str.

(** [_parse_networks]: unparseable entries are dropped, order kept
    (network objects are always truthy). *)
Fixpoint parse_networks (cidr_list : list string) : list network :=
  match cidr_list with
  | [] => []
  | c :: l =>
      match parse_cidr c with
      | Some n => n :: parse_networks l
      | None => parse_networks l
      end
  end.

(** [max(matching, key=lambda net: net.prefixlen)]: the first network
    of largest prefix length. *)
Fixpoint max_by_prefixlen (cur : network) (l : list network) : network :=
  match l with
  | [] => cur
  | n :: l' =>
      max_by_prefixlen (if (n_prefixlen cur <? n_prefixlen n)%Z then n else cur) l'
  end.

(** [ip_obj in net and net.version == ip_obj.version] *)
Definition matches (ip_obj : address) (net : network) : bool :=
  contains net ip_obj && version_eqb (n_ver net) (a_ver ip_obj).

(** [_get_most_specific] *)
Definition get_most_specific (networks : list network) (ip_obj : address)
  : option network :=
  match filter (matches ip_obj) networks with
  | [] => None
  | n :: l => Some (max_by_prefixlen n l)
  end.

(** [check_ip_allowed] *)
Definition check_ip_allowed (ip_str : string) (allow_list deny_list : list string)
  : bool :=
  if String.eqb ip_str "" then false else
  match ip_address ip_str with
  | None => false
  | Some ip_obj =>
      let allow_networks := parse_networks allow_list in
      let deny_networks := parse_networks deny_list in
      match get_most_specific allow_networks ip_obj,
            get_most_specific deny_networks ip_obj with
      | Some a, None => true
      | Some a, Some d => (n_prefixlen d <=? n_prefixlen a)%Z
      | None, Some _ => false
      | None, None =>
          match allow_networks with [] => true | _ => false end
      end
  end.

End IpFilter.

(* ===================================================================== *)
(** ** [app/models.py] ([Permission], [UserInfo], [RuleInfo]) and
       [app/rules.py] ([RuleEvaluator]) *)
(* ===================================================================== *)

Module Rules.
Import Py IpFilter.

Inductive Permission := READ | WRITE | DELETE.

Definition permission_eqb (a b : Permission) : bool :=
  match a, b with
  | READ, READ | WRITE, WRITE | DELETE, DELETE => true
  | _, _ => false
  end.

Record UserInfo := { name : string; pass_hash : string; is_bcrypt : bool }.

Record RuleInfo := {
  who : string;
  allow : list Permission;
  roots : list string;
  paths : list string;
  ip_allow : list string;
  ip_deny : list string
}.

(** The dataclass constructor with the field defaults
    [ip_allow = ["*"]] and [ip_deny = []]. *)
Definition mk_rule (who0 : string) (allow0 : list Permission)
  (roots0 paths0 : list string) : RuleInfo :=
  {| who := who0; allow := allow0; roots := roots0; paths := paths0;
     ip_allow := ["*"]; ip_deny := [] |}.

Definition str_in (s : string) (l : list string) : bool :=
  existsb (String.eqb s) l.

(** [p.replace('\\', '/')] then prefix a slash when missing. *)
Definition normalize_rule_path (p : string) : string :=
  let p1 := replace_char "\"%char "/"%char p in
  if startswith p1 "/" then p1 else "/" ++ p1.

(** The body of the loop of [_check_path_allowed] for one entry;
    [rel_path] is already normalised. *)
Definition path_entry_allows (rel_path allowed_path0 : string) : bool :=
  let allowed_path := normalize_rule_path allowed_path0 in
  if String.eqb allowed_path "*" || String.eqb allowed_path "/*" then true
  else if String.eqb rel_path allowed_path then true
  else if endswith allowed_path "/" then startswith rel_path allowed_path
  else startswith rel_path (allowed_path ++ "/").

(** [_check_path_allowed] *)
Definition check_path_allowed (rel_path0 : string) (allowed_paths : list string)
  : bool :=
  let rel_path := normalize_rule_path rel_path0 in
  existsb (path_entry_allows rel_path) allowed_paths.

Inductive Reason :=
  | AuthRequired | NoRules | OpNotAllowed | RootNotAllowed
  | PathNotAllowed | IpNotAllowed | Granted | AccessDenied.

(** [_evaluate_rule] *)
Definition evaluate_rule (rule : RuleInfo) (operation : Permission)
  (root_name rel_path client_ip : string) : bool * Reason :=
  if negb (existsb (permission_eqb operation) (allow rule)) then (false, OpNotAllowed)
  else if negb (str_in root_name (roots rule)) && negb (str_in "*" (roots rule))
  then (false, RootNotAllowed)
  else if negb (check_path_allowed rel_path (paths rule)) then (false, PathNotAllowed)
  else if negb (check_ip_allowed client_ip (ip_allow rule) (ip_deny rule))
  then (false, IpNotAllowed)
  else (true, Granted).

Fixpoint first_granting (rules : list RuleInfo) (operation : Permission)
  (root_name rel_path client_ip : string) : bool * Reason :=
  match rules with
  | [] => (false, AccessDenied)
  | r :: rs =>
      let '(ok, reason) := evaluate_rule r operation root_name rel_path client_ip in
      if ok then (true, reason)
      else first_granting rs operation root_name rel_path client_ip
  end.

(** [RuleEvaluator.evaluate], reading [config.rules]. *)
Definition evaluate (config_rules : list RuleInfo) (user : option UserInfo)
  (operation : Permission) (root_name rel_path client_ip : string)
  : bool * Reason :=
  match user with
  | None => (false, AuthRequired)
  | Some u =>
      let matching_rules :=
        filter (fun r => String.eqb (who r) (name u) || String.eqb (who r) "*")
               config_rules in
      match matching_rules with
      | [] => (false, NoRules)
      | _ => first_granting matching_rules operation root_name rel_path client_ip
      end
  end.

End Rules.

(* ===================================================================== *)
(** ** [app/fs.py]: [safe_join]

    Absolute paths are lists of components ([/srv/pub] is
    [["srv"; "pub"]]). [Path.resolve(strict=False)] depends on the file
    system (symbolic links, permissions); it is a parameter [resolve] of
    the functions below, returning the resolved path or the exception it
    raises: [OSError], [RuntimeError] (CPython 3.11 raises it on a
    symbolic-link loop) or [ValueError] ([os.lstat] raises it on a path
    with an embedded NUL character). *)
(* ===================================================================== *)

Module Fs.
Import Py.

Definition path := list string.

(** The exceptions [Path.resolve] may raise. *)
Inductive py_exception := OSError | RuntimeError | ValueError.

(** [Path.resolve(strict=False)]: the resolved path, or the exception
    raised. *)
Inductive resolution :=
  | Resolved : list string -> resolution
  | Raises : py_exception -> resolution.

(** The exceptions leaving the functions below: the two of [app/fs.py],
    and an exception of [Path.resolve] that they do not catch. *)
Inductive fs_error :=
  | PathTraversalError
  | FileSystemError
  | Uncaught : py_exception -> fs_error.

Inductive result (A : Type) :=
  | Ok : A -> result A
  | Err : fs_error -> result A.
Arguments Ok {A} _.
Arguments Err {A} _.

(** Whitespace removed by [str.strip()]: the characters below 256 for
    which [str.isspace()] holds, including [\x85] and [\xa0]. *)
Definition py_whitespace : string :=
  string_of_list_ascii
    (map ascii_of_nat [32; 9; 10; 11; 12; 13; 28; 29; 30; 31; 133; 160]%nat).

(** [urllib.parse.unquote]: each [%XX] with two hex digits becomes the
    byte [0xXX]; text is handled as its bytes. *)
Fixpoint unquote_chars (l : list ascii) : list ascii :=
  match l with
  | [] => []
  | c :: t =>
      if Ascii.eqb c "%"%char then
        match t with
        | h1 :: h2 :: rest =>
            match hex_val h1, hex_val h2 with
            | Some a, Some b =>
                ascii_of_nat (Z.to_nat (a * 16 + b)) :: unquote_chars rest
            | _, _ => c :: unquote_chars t
            end
        | _ => c :: unquote_chars t
        end
      else c :: unquote_chars t
  end.

Definition unquote (s : string) : string :=
  string_of_list_ascii (unquote_chars (chars s)).

(** [utils.normalize_path]: backslashes become slashes. *)
Definition normalize_path (p : string) : string := replace_char "\"%char "/"%char p.

(** The loop over [rel_path.split('/')]: skip empty and [.] segments,
    raise on [..]. *)
Fixpoint collect_parts (segs : list string) : option (list string) :=
  match segs with
  | [] => Some []
  | s :: rest =>
      if String.eqb s "" || String.eqb s "." then collect_parts rest
      else if String.eqb s ".." then None
      else match collect_parts rest with
           | Some ps => Some (s :: ps)
           | None => None
           end
  end.

Fixpoint path_prefixb (base p : path) : bool :=
  match base, p with
  | [], _ => true
  | b :: bs, x :: xs => String.eqb b x && path_prefixb bs xs
  | _ :: _, [] => false
  end.

(** The string [rel_path] after the normalisation steps of [safe_join]. *)
Definition normalized_rel (rel_path : string) : string :=
  normalize_path (unquote (strip_set py_whitespace rel_path)).

(** The segments [safe_join] inspects. *)
Definition rel_segments (rel_path : string) : list string :=
  split_on "/"%char (lstrip_char "/"%char (normalized_rel rel_path)).

(** [safe_join(root_path, rel_path)]; [resolved_path.relative_to(base_path)]
    is the component-wise prefix test [path_prefixb]. Only the [OSError]
    of the second [resolve] is caught; every other exception of
    [Path.resolve] leaves [safe_join]. *)
Definition safe_join (resolve : path -> resolution) (root_path : path)
  (rel_path0 : string) : result path :=
  let rel_path := normalized_rel rel_path0 in
  if String.eqb rel_path "" || String.eqb rel_path "." || String.eqb rel_path "./"
  then match resolve root_path with
       | Resolved b => Ok b
       | Raises x => Err (Uncaught x)
       end
  else
    match collect_parts (rel_segments rel_path0) with
    | None => Err PathTraversalError
    | Some parts =>
        match resolve root_path with
        | Raises x => Err (Uncaught x)
        | Resolved base_path =>
            match resolve (base_path ++ parts)%list with
            | Raises OSError => Err FileSystemError
            | Raises x => Err (Uncaught x)
            | Resolved resolved_path =>
                if path_prefixb base_path resolved_path
                then Ok resolved_path
                else Err PathTraversalError
            end
        end
    end.

(* ===================================================================== *)
(** ** [app/utils.py]: [sanitize_filename] and [app/fs.py]:
       [save_uploaded_file] *)
(* ===================================================================== *)

Definition is_control (c : ascii) : bool :=
  ((code c <? 32) || (code c =? 127))%nat.

(** [name[:k]] with Python's negative-index rule. *)
Definition py_prefix (name : string) (k : Z) : string :=
  let n := Z.of_nat (String.length name) in
  let k' := if (k <? 0)%Z then Z.max 0 (n + k) else Z.min k n in
  substring 0 (Z.to_nat k') name.

(** Position of the last [.] in [s] ([str.rfind('.')], [-1] if none). *)
Definition rfind_dot (s : string) : Z :=
  fold_left (fun acc (ic : nat * ascii) =>
               if Ascii.eqb (snd ic) "."%char then Z.of_nat (fst ic) else acc)
            (combine (seq 0 (String.length s)) (chars s)) (-1)%Z.

(** [PurePath.suffix] and [PurePath.stem] of a one-component name. *)
Definition suffix_stem (name : string) : string * string :=
  let i := rfind_dot name in
  let n := Z.of_nat (String.length name) in
  if (0 <? i)%Z && (i <? n - 1)%Z
  then (substring (Z.to_nat i) (String.length name) name, substring 0 (Z.to_nat i) name)
  else ("", name).

(** [sanitize_filename] *)
Definition sanitize_filename (filename0 : string) : string :=
  let f1 := string_of_list_ascii
              (map (fun c => if contains_char c Utils.dangerous_chars then "_"%char else c)
                   (chars filename0)) in
  let f2 := string_of_list_ascii (filter (fun c => negb (is_control c)) (chars f1)) in
  let f3 := strip_set " ." f2 in
  let f4 := if String.eqb f3 "" then "unnamed" else f3 in
  if (255 <? String.length f4)%nat then
    let '(ext, stem) := suffix_stem f4 in
    let max_name_len := (255 - Z.of_nat (String.length ext))%Z in
    py_prefix stem max_name_len ++ ext
  else f4.

(** [s.rstrip('/')] *)
Definition rstrip_slash (s : string) : string :=
  rev_string (lstrip_char "/"%char (rev_string s)).

(** A file system: each absolute path is absent, a directory or a file. *)
Inductive node := Dir | File (data : list Byte.byte).

Definition FS := path -> option node.

Fixpoint path_eqb (p q : path) : bool :=
  match p, q with
  | [], [] => true
  | a :: p', b :: q' => String.eqb a b && path_eqb p' q'
  | _, _ => false
  end.

Definition fs_set (fs : FS) (p : path) (v : option node) : FS :=
  fun q => if path_eqb q p then v else fs q.

Definition fs_exists (fs : FS) (p : path) : bool :=
  match fs p with Some _ => true | None => false end.

Definition fs_is_dir (fs : FS) (p : path) : bool :=
  match fs p with Some Dir => true | _ => false end.

(** The ancestors of [p] and [p] itself, shortest first. *)
Definition prefixes (p : path) : list path :=
  map (fun k => firstn k p) (seq 1 (List.length p)).

(** The parent of [p] is a directory; the parent of a top-level path is
    [/], which always is. *)
Definition parent_is_dir (fs : FS) (p : path) : bool :=
  match removelast p with
  | [] => true
  | q => fs_is_dir fs q
  end.

(** [os.mkdir(p)]: [None] when it raises [OSError]: [p] exists
    ([FileExistsError]), its parent is missing or not a directory, or
    the operating system refuses it for a reason outside the tree
    ([mkdir_error p]: a name longer than the file system allows, no
    permission, a read-only or full file system). *)
Definition mkdir (mkdir_error : path -> bool) (fs : FS) (p : path) : option FS :=
  if fs_exists fs p || negb (parent_is_dir fs p) || mkdir_error p then None
  else Some (fs_set fs p (Some Dir)).

(** [try: mkdir(name) except OSError: if not exist_ok or not
    path.isdir(name): raise]: whether it returned normally, and the file
    system afterwards. *)
Definition makedirs_leaf (mkdir_error : path -> bool) (exist_ok : bool) (fs : FS)
  (name : path) : bool * FS :=
  match mkdir mkdir_error fs name with
  | Some fs2 => (true, fs2)
  | None => (exist_ok && fs_is_dir fs name, fs)
  end.

(** [os.makedirs(name, exist_ok)] on [name = rev rp]: [head, tail =
    path.split(name)]; when [head] is not [/] and does not exist,
    [makedirs(head)] runs first, then [mkdir(name)], whose [OSError] is
    ignored only when [exist_ok] holds and [name] is a directory. The
    result is whether the call returned normally ([false]: it raised
    [OSError]) and the file system afterwards: directories created
    before a failing [mkdir] stay. The [FileExistsError] handler around
    the recursive call never fires here ([head] does not exist when the
    call starts and only its ancestors are created before its own
    [mkdir]), and neither does the [tail == curdir] return, since a
    [Path] has no [.] component. *)
Fixpoint makedirs_rev (mkdir_error : path -> bool) (exist_ok : bool) (fs : FS)
  (rp : list string) : bool * FS :=
  match rp with
  | [] => makedirs_leaf mkdir_error exist_ok fs (rev rp)
  | _ :: rh =>
      match rh with
      | [] => makedirs_leaf mkdir_error exist_ok fs (rev rp)
      | _ :: _ =>
          if fs_exists fs (rev rh) then makedirs_leaf mkdir_error exist_ok fs (rev rp)
          else match makedirs_rev mkdir_error exist_ok fs rh with
               | (true, fs1) => makedirs_leaf mkdir_error exist_ok fs1 (rev rp)
               | (false, fs1) => (false, fs1)
               end
      end
  end.

Definition makedirs (mkdir_error : path -> bool) (exist_ok : bool) (fs : FS) (p : path)
  : bool * FS :=
  makedirs_rev mkdir_error exist_ok fs (rev p).

(** The loop [while True: chunk = await upload_file.read(8192) ...]:
    [chunks] are the successive results of [read]; an empty chunk or the
    end of the list is end of stream. *)
Fixpoint write_chunks (fs : FS) (file_path : path) (max_size : option Z)
  (bytes_written : Z) (written : list Byte.byte) (chunks : list (list Byte.byte))
  : result Z * FS :=
  match chunks with
  | [] => (Ok bytes_written, fs)
  | chunk :: rest =>
      match chunk with
      | [] => (Ok bytes_written, fs)
      | _ :: _ =>
          let bw := (bytes_written + Z.of_nat (List.length chunk))%Z in
          match max_size with
          | Some m =>
              if (m <? bw)%Z then (Err FileSystemError, fs_set fs file_path None)
              else write_chunks (fs_set fs file_path (Some (File (written ++ chunk)%list)))
                                file_path max_size bw (written ++ chunk)%list rest
          | None =>
              write_chunks (fs_set fs file_path (Some (File (written ++ chunk)%list)))
                           file_path max_size bw (written ++ chunk)%list rest
          end
      end
  end.

(** The steps of [save_uploaded_file] before the [try] block that
    streams the upload: filename checks, share lookup, both [safe_join]
    calls, parent creation and the existence check. Returns the target
    path (or the error raised) and the file system after [makedirs]. *)
Definition save_prepare (mkdir_error : path -> bool) (resolve : path -> resolution)
  (get_share_by_name : string -> option path) (fs : FS)
  (root_name rel_path filename0 : string) : result path * FS :=
  if negb (Utils.validate_filename filename0) then (Err FileSystemError, fs) else
  let filename := sanitize_filename filename0 in
  match get_share_by_name root_name with
  | None => (Err FileSystemError, fs)
  | Some share_path =>
      let join r := match safe_join resolve share_path r with
                    | Err PathTraversalError => Err FileSystemError
                    | x => x
                    end in
      match join rel_path with
      | Err e => (Err e, fs)
      | Ok dir_path =>
          match join (rstrip_slash rel_path ++ "/" ++ filename) with
          | Err e => (Err e, fs)
          | Ok file_path =>
              let '(ok, fs1) := if fs_exists fs dir_path then (true, fs)
                                else makedirs mkdir_error true fs dir_path in
              if negb ok then (Err FileSystemError, fs1)
              else if fs_exists fs1 file_path then (Err FileSystemError, fs1)
              else (Ok file_path, fs1)
          end
      end
  end.

(** [save_uploaded_file]. Opening the target with mode [wb] creates an
    empty file; it raises [OSError] (turned into [FileSystemError]) when
    the parent is not a directory. *)
Definition save_uploaded_file (mkdir_error : path -> bool) (resolve : path -> resolution)
  (get_share_by_name : string -> option path) (fs : FS)
  (root_name rel_path filename : string) (chunks : list (list Byte.byte))
  (max_size : option Z) : result Z * FS :=
  match save_prepare mkdir_error resolve get_share_by_name fs root_name rel_path filename with
  | (Err e, fs1) => (Err e, fs1)
  | (Ok file_path, fs1) =>
      if negb (fs_is_dir fs1 (removelast file_path)) then (Err FileSystemError, fs1)
      else write_chunks (fs_set fs1 file_path (Some (File []))) file_path max_size 0 [] chunks
  end.

End Fs.

(* ===================================================================== *)
(** ** [app/direct_transfer.py]: [DirectTransferStore]

    The store's state: the in-memory dict [_entries] (an association
    list in insertion order), the contents of [transfers.json]
    ([None] when the file is absent) and the names of the files present
    in [base_dir]. Times are [time.time()] values. Methods run under the
    store-wide lock, so each is one step on this state. *)
(* ===================================================================== *)

Module DirectTransfer.
Import Py.

Record DirectTransferEntry := {
  id : string;
  sender : string;
  recipient : string;
  filename : string;
  stored_filename : string;
  size : Z;
  content_type : string;
  created_at : Q;
  expires_at : option Q
}.

Record Store := {
  entries : list (string * DirectTransferEntry);
  meta : option (list DirectTransferEntry);
  files : list string
}.

(** [DirectTransferError(message, status_code=...)] *)
Inductive dt_result (A : Type) :=
  | DOk : A -> dt_result A
  | DErr : Z -> dt_result A.
Arguments DOk {A} _.
Arguments DErr {A} _.

(* --- dict operations ---------------------------------------------- *)

Fixpoint dict_get (d : list (string * DirectTransferEntry)) (k : string)
  : option DirectTransferEntry :=
  match d with
  | [] => None
  | (k', v) :: d' => if String.eqb k' k then Some v else dict_get d' k
  end.

(** [d.pop(k, None)] *)
Definition dict_pop (d : list (string * DirectTransferEntry)) (k : string)
  : list (string * DirectTransferEntry) :=
  filter (fun kv => negb (String.eqb (fst kv) k)) d.

(** [d[k] = v]: replaced in place, or appended. *)
Fixpoint dict_set (d : list (string * DirectTransferEntry)) (k : string)
  (v : DirectTransferEntry) : list (string * DirectTransferEntry) :=
  match d with
  | [] => [(k, v)]
  | (k', v') :: d' =>
      if String.eqb k' k then (k, v) :: d' else (k', v') :: dict_set d' k v
  end.

(* --- state helpers ------------------------------------------------ *)

Definition set_entries (st : Store) (e : list (string * DirectTransferEntry)) : Store :=
  {| entries := e; meta := meta st; files := files st |}.

(** [(self.base_dir / name).exists()] *)
Definition file_exists (st : Store) (name : string) : bool :=
  existsb (String.eqb name) (files st).

(** [_delete_file]: [unlink(missing_ok=True)]. *)
Definition delete_file (st : Store) (name : string) : Store :=
  {| entries := entries st; meta := meta st;
     files := filter (fun f => negb (String.eqb f name)) (files st) |}.

(** [_save_locked]: [transfers.json] is rewritten (temp file, then
    [replace]) with the entries in dict order. *)
Definition save_locked (st : Store) : Store :=
  {| entries := entries st; meta := Some (map snd (entries st)); files := files st |}.

Definition Qltb (x y : Q) : bool := negb (Qle_bool y x).

(** The condition of [_prune_locked] for one entry. *)
Definition should_remove (st : Store) (now : Q) (e : DirectTransferEntry) : bool :=
  match expires_at e with
  | Some x => if Qltb x now then true else negb (file_exists st (stored_filename e))
  | None => negb (file_exists st (stored_filename e))
  end.

Fixpoint prune_loop (now : Q) (items : list (string * DirectTransferEntry))
  (st : Store) (removed : bool) : Store * bool :=
  match items with
  | [] => (st, removed)
  | (tid, e) :: rest =>
      if should_remove st now e
      then prune_loop now rest
             (delete_file (set_entries st (dict_pop (entries st) tid)) (stored_filename e))
             true
      else prune_loop now rest st removed
  end.

(** [_prune_locked] at time [now]; iterates over a snapshot of the
    items. *)
Definition prune_locked (now : Q) (st : Store) : Store :=
  let '(st', removed) := prune_loop now (entries st) st false in
  if removed then save_locked st' else st'.

(** [prepare_download(transfer_id, username)] *)
Definition prepare_download (st : Store) (now : Q) (transfer_id username : string)
  : dt_result DirectTransferEntry * Store :=
  let st1 := prune_locked now st in
  match dict_get (entries st1) transfer_id with
  | None => (DErr 404, st1)
  | Some e =>
      if negb (String.eqb (recipient e) username) then (DErr 403, st1)
      else if negb (file_exists st1 (stored_filename e))
      then (DErr 404, save_locked (set_entries st1 (dict_pop (entries st1) transfer_id)))
      else (DOk e, save_locked (set_entries st1 (dict_pop (entries st1) transfer_id)))
  end.

(** [cleanup_after_download(entry)] *)
Definition cleanup_after_download (st : Store) (e : DirectTransferEntry) : Store :=
  delete_file st (stored_filename e).

(** [delete_transfer(transfer_id, username)] *)
Definition delete_transfer (st : Store) (now : Q) (transfer_id username : string)
  : dt_result DirectTransferEntry * Store :=
  let st1 := prune_locked now st in
  match dict_get (entries st1) transfer_id with
  | None => (DErr 404, st1)
  | Some e =>
      if negb (String.eqb username (sender e)) && negb (String.eqb username (recipient e))
      then (DErr 403, st1)
      else let st2 := save_locked (set_entries st1 (dict_pop (entries st1) transfer_id)) in
           (DOk e, delete_file st2 (stored_filename e))
  end.

(** [str.lower()] on one character below 256: [A]-[Z] and the Latin-1
    capitals [\xc0]-[\xde] other than [\xd7] gain 32. *)
Definition lower_char (c : ascii) : ascii :=
  let n := code c in
  if (((65 <=? n) && (n <=? 90)) || ((192 <=? n) && (n <=? 222) && negb (n =? 215)))%nat
  then ascii_of_nat (n + 32) else c.

(** [str.lower()] *)
Definition py_lower (s : string) : string :=
  string_of_list_ascii (map lower_char (chars s)).

(** One step of [list.sort(key=createdAt, reverse=True)]: [e] goes after
    every entry created at the same time or later, so entries created at
    the same time keep their order (the sort is stable). *)
Fixpoint insert_by_created_desc (e : DirectTransferEntry) (l : list DirectTransferEntry)
  : list DirectTransferEntry :=
  match l with
  | [] => [e]
  | x :: l' =>
      if Qltb (created_at x) (created_at e) then e :: l
      else x :: insert_by_created_desc e l'
  end.

Definition sort_by_created_desc (l : list DirectTransferEntry) : list DirectTransferEntry :=
  fold_left (fun acc e => insert_by_created_desc e acc) l [].

(** [list_transfers(username, direction)]: the selected entries (the
    source returns their public dicts), newest first; its effect on the
    store is the pruning. *)
Definition list_transfers (st : Store) (now : Q) (username direction0 : string)
  : dt_result (list DirectTransferEntry) * Store :=
  let direction := py_lower direction0 in
  if negb (String.eqb direction "incoming") && negb (String.eqb direction "outgoing")
  then (DErr 400, st)
  else
    let st1 := prune_locked now st in
    let sel e := if String.eqb direction "incoming"
                 then String.eqb (recipient e) username
                 else String.eqb (sender e) username in
    (DOk (sort_by_created_desc (filter sel (map snd (entries st1)))), st1).

(** [PurePosixPath(p).name]: the last component, [.] and empty
    components dropped ([""] when none is left). *)
Definition path_name (p : string) : string :=
  last (filter (fun c => negb (String.eqb c "" || String.eqb c ".")) (split_on "/"%char p)) "".

(** [Path(original_filename or 'transfer').suffix or '.bin'] *)
Definition transfer_suffix (original_filename : string) : string :=
  let n := if String.eqb original_filename "" then "transfer" else original_filename in
  let '(ext, _) := Fs.suffix_stem (path_name n) in
  if String.eqb ext "" then ".bin" else ext.

(** [_allocate_locked]: [candidates] are the successive values of
    [generate_short_id(12)]; at most 64 are tried. *)
Fixpoint allocate_loop (st : Store) (suffix : string) (candidates : list string)
  : option (string * string) :=
  match candidates with
  | [] => None
  | c :: rest =>
      let stored := c ++ suffix in
      match dict_get (entries st) c with
      | Some _ => allocate_loop st suffix rest
      | None => if file_exists st stored then allocate_loop st suffix rest
                else Some (c, stored)
      end
  end.

Definition allocate_locked (st : Store) (original_filename : string)
  (candidates : list string) : option (string * string) :=
  allocate_loop st (transfer_suffix original_filename) (firstn 64 candidates).

(** [create_transfer]: the payload [data] is first streamed into a
    temporary file; then, under the lock, the store is pruned, an id
    allocated, the temporary file renamed to the stored name and the
    entry saved. [_write_upload_to_path] compares the running size with
    [max_size] after each non-empty chunk; the running sizes only grow
    and the last one is the total, so it raises 413 exactly when the
    payload is non-empty and its size exceeds [max_size]. *)
Definition create_transfer (st : Store) (now : Q) (sender0 recipient0 : string)
  (upload_filename upload_content_type : string) (data : list Byte.byte)
  (expires_in max_size : option Z) (candidates : list string)
  : dt_result DirectTransferEntry * Store :=
  let sz := Z.of_nat (List.length data) in
  let too_large := match max_size with
                   | Some m => (0 <? sz)%Z && (m <? sz)%Z
                   | None => false
                   end in
  if too_large then (DErr 413, st) else
    let expires := match expires_in with
                   | Some x => if (0 <? x)%Z then Some (now + inject_Z x) else None
                   | None => None
                   end in
    let ctype := if String.eqb upload_content_type "" then "application/octet-stream"
                 else upload_content_type in
    let st1 := prune_locked now st in
    let orig := if String.eqb upload_filename "" then "transfer" else upload_filename in
    match allocate_locked st1 orig candidates with
    | None => (DErr 500, st1)
    | Some (transfer_id, stored) =>
        let e := {| id := transfer_id; sender := sender0; recipient := recipient0;
                    filename := if String.eqb upload_filename "" then stored
                                else upload_filename;
                    stored_filename := stored; size := sz; content_type := ctype;
                    created_at := now; expires_at := expires |} in
        let st2 := {| entries := dict_set (entries st1) transfer_id e;
                      meta := meta st1; files := files st1 ++ [stored] |} in
        (DOk e, save_locked st2)
    end.

(** [_load] on a fresh store: the entries of [transfers.json] whose
    payload file exists; a zero [expires_at] reads back as [None]. *)
Definition load_entry (e : DirectTransferEntry) : DirectTransferEntry :=
  {| id := id e; sender := sender e; recipient := recipient e;
     filename := filename e; stored_filename := stored_filename e;
     size := size e; content_type := content_type e; created_at := created_at e;
     expires_at := match expires_at e with
                   | Some x => if Qeq_bool x 0 then None else Some x
                   | None => None
                   end |}.

Definition load (m : option (list DirectTransferEntry)) (fls : list string) : Store :=
  let st0 := {| entries := []; meta := m; files := fls |} in
  match m with
  | None => st0
  | Some items =>
      set_entries st0
        (fold_left (fun acc e =>
                      if existsb (String.eqb (stored_filename e)) fls
                      then dict_set acc (id e) (load_entry e) else acc)
                   items [])
  end.

(** The operations that touch the store, in any order. *)
Inductive op :=
  | OpPrepareDownload (now : Q) (transfer_id username : string)
  | OpCleanup (e : DirectTransferEntry)
  | OpDelete (now : Q) (transfer_id username : string)
  | OpList (now : Q) (username direction : string)
  | OpCreate (now : Q) (sender0 recipient0 upload_filename upload_content_type : string)
             (data : list Byte.byte) (expires_in max_size : option Z)
             (candidates : list string)
  | OpRestart.

Definition step (st : Store) (o : op) : Store :=
  match o with
  | OpPrepareDownload now tid u => snd (prepare_download st now tid u)
  | OpCleanup e => cleanup_after_download st e
  | OpDelete now tid u => snd (delete_transfer st now tid u)
  | OpList now u d => snd (list_transfers st now u d)
  | OpCreate now s r fn ct data ei ms cands =>
      snd (create_transfer st now s r fn ct data ei ms cands)
  | OpRestart => load (meta st) (files st)
  end.

Definition run (st : Store) (trace : list op) : Store := fold_left step trace st.

(** The ids a [create_transfer] call may allocate. *)
Definition may_allocate (o : op) (tid : string) : Prop :=
  match o with
  | OpCreate _ _ _ _ _ _ _ _ cands => In tid (firstn 64 cands)
  | _ => False
  end.

End DirectTransfer.

(* ===================================================================== *)
(** ** Python's [int(str)] and [str(int)] on Latin-1 text *)
(* ===================================================================== *)

Module PyInt.
Import Py.

(** The white space of [str.strip()] and [int()] among the Latin-1
    characters: tab to carriage return, the four separators 0x1C-0x1F,
    space, NEL (0x85) and no-break space (0xA0). *)
Definition latin1_whitespace : string :=
  string_of_list_ascii (map ascii_of_nat [9; 10; 11; 12; 13; 28; 29; 30; 31; 32; 133; 160]%nat).

(** [sys.get_int_max_str_digits()]: CPython's default limit on the
    number of decimal digits [int()] and [str()] convert. *)
Definition max_str_digits : nat := 4300.

(** The digits of a base-10 literal: single underscores are allowed
    between two digits only. *)
Fixpoint strip_underscores (l : list ascii) : option (list ascii) :=
  match l with
  | [] => Some []
  | c :: rest =>
      if is_ascii_digit c then
        match strip_underscores rest with
        | Some ds => Some (c :: ds)
        | None => None
        end
      else if Ascii.eqb c "_"%char then
        match rest with
        | d :: _ => if is_ascii_digit d then strip_underscores rest else None
        | [] => None
        end
      else None
  end.

(** [int(s)]: [None] where Python raises [ValueError]. Leading and
    trailing white space is skipped; an optional sign; then digits and
    underscores; more than [max_str_digits] digits raise. *)
Definition py_int (s : string) : option Z :=
  let t := chars (strip_set latin1_whitespace s) in
  let '(sign, body) :=
    match t with
    | c :: r => if Ascii.eqb c "-"%char then ((-1)%Z, r)
                else if Ascii.eqb c "+"%char then (1%Z, r) else (1%Z, t)
    | [] => (1%Z, t)
    end in
  match body with
  | c :: _ =>
      if is_ascii_digit c then
        match strip_underscores body with
        | Some ds =>
            if (max_str_digits <? List.length ds)%nat then None
            else Some (sign * dec_value (string_of_list_ascii ds))%Z
        | None => None
        end
      else None
  | [] => None
  end.

Definition digit_char (d : Z) : ascii := ascii_of_nat (48 + Z.to_nat d).

(** The decimal digits of [n >= 0], most significant first; [fuel]
    bounds the number of digits ([decimal_digits] gives enough). *)
Fixpoint nat_digits (fuel : nat) (n : Z) : list ascii :=
  match fuel with
  | O => []
  | S f =>
      if (n <? 10)%Z then [digit_char n]
      else (nat_digits f (n / 10) ++ [digit_char (n mod 10)])%list
  end.

Definition decimal_digits (n : Z) : list ascii :=
  nat_digits (S (Z.to_nat (Z.log2 n))) n.

(** [str(n)] (and [f"{n}"]): [None] where Python raises [ValueError]
    (more than [max_str_digits] digits). *)
Definition py_str_int (n : Z) : option string :=
  let ds := decimal_digits (Z.abs n) in
  if (max_str_digits <? List.length ds)%nat then None
  else Some ((if (n <? 0)%Z then "-" else "") ++ string_of_list_ascii ds).

End PyInt.

(* ===================================================================== *)
(** ** [app/utils.py]: HTTP header helpers and [truncate_string] *)
(* ===================================================================== *)

Module Headers.
Import Py PyInt Range.

(** A call that returns a value or raises [ValueError]. *)
Inductive py_result (A : Type) :=
  | PyOk : A -> py_result A
  | PyValueError : py_result A.
Arguments PyOk {A} _.
Arguments PyValueError {A}.

(** [s.split(sep, 1)] when [sep] occurs in [s]. *)
Fixpoint split_once (sep : ascii) (s : string) : string * string :=
  match s with
  | EmptyString => (EmptyString, EmptyString)
  | String c s' =>
      if Ascii.eqb c sep then (EmptyString, s')
      else let '(a, b) := split_once sep s' in (String c a, b)
  end.

(** [s[k:]] for [0 <= k]. *)
Definition drop (k : nat) (s : string) : string := substring k (String.length s - k) s.

(** [s[:-1]] *)
Definition drop_last (s : string) : string := substring 0 (String.length s - 1) s.

(** [parse_http_range(range_header)] *)
Definition parse_http_range (range_header : string) : option HttpRange :=
  if String.eqb range_header "" then None
  else if negb (startswith range_header "bytes=") then None
  else
    let spec0 := drop 6 range_header in
    let range_spec :=
      if contains_char ","%char spec0
      then strip_set latin1_whitespace (hd "" (split_on ","%char spec0))
      else spec0 in
    if startswith range_spec "-" then
      match py_int (drop 1 range_spec) with
      | Some k => Some {| start := None; end_ := None; suffix_length := Some k |}
      | None => None
      end
    else if endswith range_spec "-" then
      match py_int (drop_last range_spec) with
      | Some s => Some {| start := Some s; end_ := None; suffix_length := None |}
      | None => None
      end
    else if contains_char "-"%char range_spec then
      let '(start_str, end_str) := split_once "-"%char range_spec in
      match py_int start_str, py_int end_str with
      | Some s, Some e => Some {| start := Some s; end_ := Some e; suffix_length := None |}
      | _, _ => None
      end
    else None.

(** The longest prefix of decimal digits: [\d+] is greedy and the only
    Latin-1 characters of category Nd are [0]-[9]. *)
Fixpoint span_digits (l : list ascii) : list ascii * list ascii :=
  match l with
  | c :: r =>
      if is_ascii_digit c then let '(d, rest) := span_digits r in (c :: d, rest)
      else ([], l)
  | [] => ([], [])
  end.

(** [int(group)] on a run of digits. *)
Definition int_digits (ds : list ascii) : py_result Z :=
  if (max_str_digits <? List.length ds)%nat then PyValueError
  else PyOk (dec_value (string_of_list_ascii ds)).

Definition bind3 (a b c : py_result Z) (k : Z -> Z -> Z -> py_result (option (Z * Z * Z)))
  : py_result (option (Z * Z * Z)) :=
  match a with
  | PyValueError => PyValueError
  | PyOk x => match b with
              | PyValueError => PyValueError
              | PyOk y => match c with
                          | PyValueError => PyValueError
                          | PyOk z => k x y z
                          end
              end
  end.

(** [parse_content_range(content_range)]: [re.match] of the pattern
    [bytes (\d+)-(\d+)/(\d+|STAR)] at the start of the string, where
    STAR is an escaped asterisk. *)
Definition parse_content_range (content_range : string) : py_result (option (Z * Z * Z)) :=
  if String.eqb content_range "" then PyOk None
  else if negb (startswith content_range "bytes ") then PyOk None
  else
    let '(d1, r1) := span_digits (skipn 6 (chars content_range)) in
    match d1, r1 with
    | _ :: _, c1 :: r1' =>
        if negb (Ascii.eqb c1 "-"%char) then PyOk None else
        let '(d2, r2) := span_digits r1' in
        match d2, r2 with
        | _ :: _, c2 :: r2' =>
            if negb (Ascii.eqb c2 "/"%char) then PyOk None else
            let '(d3, _) := span_digits r2' in
            match d3 with
            | _ :: _ =>
                bind3 (int_digits d1) (int_digits d2) (int_digits d3)
                      (fun s e t => PyOk (Some (s, e, t)))
            | [] =>
                match r2' with
                | c3 :: _ =>
                    if Ascii.eqb c3 "*"%char
                    then bind3 (int_digits d1) (int_digits d2) (PyOk (-1)%Z)
                               (fun s e t => PyOk (Some (s, e, t)))
                    else PyOk None
                | [] => PyOk None
                end
            end
        | _, _ => PyOk None
        end
    | _, _ => PyOk None
    end.

(** [create_content_range_header(start, end, total)]: [None] where an
    [f]-string conversion raises. *)
Definition create_content_range_header (start end_ total : Z) : option string :=
  match py_str_int start, py_str_int end_, py_str_int total with
  | Some a, Some b, Some c => Some ("bytes " ++ a ++ "-" ++ b ++ "/" ++ c)
  | _, _, _ => None
  end.

(** [truncate_string(text, max_length, suffix)] *)
Definition truncate_string (text : string) (max_length : Z) (suffix : string) : string :=
  if (Z.of_nat (String.length text) <=? max_length)%Z then text
  else Fs.py_prefix text (max_length - Z.of_nat (String.length suffix)) ++ suffix.

End Headers.

(* ===================================================================== *)
(** ** [app/fs.py]: [open_file_for_download] *)
(* ===================================================================== *)

Module Download.
Import Py Range Fs.

(** The range computation and the [Invalid range] check. *)
Definition open_range (http_range : option HttpRange) (total_size : Z) : option (Z * Z) :=
  let '(start, end_) :=
    match http_range with
    | Some r => resolve r total_size
    | None => (0, total_size - 1)%Z
    end in
  if ((start <? 0) || (total_size <=? end_) || (end_ <? start))%Z then None
  else Some (start, end_).

(** The loop of [file_generator] after [f.seek(start)]: [rest] is what
    [f.read] still has to return. [fuel] bounds the iterations; each
    iteration reads at least one byte, so [remaining + 1] suffices. *)
Fixpoint gen_loop (fuel : nat) (rest : list Byte.byte) (remaining : Z) : list (list Byte.byte) :=
  match fuel with
  | O => []
  | S f =>
      if (0 <? remaining)%Z then
        let chunk := firstn (Z.to_nat (Z.min 8192 remaining)) rest in
        match chunk with
        | [] => []
        | _ :: _ =>
            chunk :: gen_loop f (skipn (List.length chunk) rest)
                              (remaining - Z.of_nat (List.length chunk))
        end
      else []
  end.

(** The chunks [file_generator()] yields on a file holding [data]. *)
Definition file_generator (data : list Byte.byte) (start end_ : Z) : list (list Byte.byte) :=
  gen_loop (S (Z.to_nat (end_ - start + 1))) (skipn (Z.to_nat start) data) (end_ - start + 1).

(** [open_file_for_download(root_name, rel_path, http_range)]: the
    chunks the generator yields (the file unchanged meanwhile), [start],
    [end] and [total_size]. *)
Definition open_file_for_download (resolve : path -> resolution)
  (get_share_by_name : string -> option path) (fs : FS)
  (root_name rel_path : string) (http_range : option HttpRange)
  : result (list (list Byte.byte) * Z * Z * Z) :=
  match get_share_by_name root_name with
  | None => Err FileSystemError
  | Some share_path =>
      match safe_join resolve share_path rel_path with
      | Err PathTraversalError => Err FileSystemError
      | Err e => Err e
      | Ok file_path =>
          match fs file_path with
          | None => Err FileSystemError
          | Some Dir => Err FileSystemError
          | Some (File data) =>
              let total_size := Z.of_nat (List.length data) in
              match open_range http_range total_size with
              | None => Err FileSystemError
              | Some (start, end_) =>
                  Ok (file_generator data start end_, start, end_, total_size)
              end
          end
      end
  end.

End Download.

(* ===================================================================== *)
(** ** [app/api.py]: [download_file] after the permission check *)
(* ===================================================================== *)

Module DownloadApi.
Import Py Range Fs Headers Download.

(** The response: a stream with its status code and [Content-Range]
    header, or an error status ([404] for [FileSystemError], [500] for an
    exception the handler does not catch). The other headers are not
    modelled. *)
Inductive download_response :=
  | Streaming (status_code : Z) (content_range : option string)
              (body : list (list Byte.byte))
  | HttpError (status_code : Z).

(** [download_file] once [check_api_access] has allowed the request;
    [range_header] is [request.headers.get("Range")]. *)
Definition download_file (resolve : path -> resolution)
  (get_share_by_name : string -> option path) (fs : FS)
  (root path : string) (range_header : option string) : download_response :=
  let http_range :=
    match range_header with
    | Some h => if String.eqb h "" then None else parse_http_range h
    | None => None
    end in
  match open_file_for_download resolve get_share_by_name fs root path http_range with
  | Err FileSystemError => HttpError 404
  | Err _ => HttpError 500
  | Ok (file_generator, start, end_, total_size) =>
      match http_range with
      | Some _ =>
          match create_content_range_header start end_ total_size with
          | Some content_range => Streaming 206 (Some content_range) file_generator
          | None => HttpError 500
          end
      | None => Streaming 200 None file_generator
      end
  end.

End DownloadApi.

(* ===================================================================== *)
(** ** [app/middleware.py]: [RateLimitMiddleware] *)
(* ===================================================================== *)

Module RateLimit.
Import Bucket.

(** [TokenBucket(capacity=burst, tokens=float(burst), last_refill=now,
    refill_rate=float(rps))]; [__post_init__] sets [tokens] to
    [float(capacity)] and [last_refill] to [time.time()], here [now]. *)
Definition new_bucket (rps burst : Z) (now : Q) : TokenBucket :=
  {| capacity := inject_Z burst; tokens := inject_Z burst;
     last_refill := now; refill_rate := inject_Z rps |}.

(** [RateLimitMiddleware.dispatch] for a request arriving at [now]:
    [true] when the request is passed to [call_next], [false] for the
    429 response. The middleware holds one bucket for all clients. *)
Definition dispatch (b : TokenBucket) (now : Q) : bool * TokenBucket :=
  consume b now 1.

(** A sequence of requests at the times [times], in order. *)
Fixpoint dispatch_all (b : TokenBucket) (times : list Q) : list bool * TokenBucket :=
  match times with
  | [] => ([], b)
  | t :: ts =>
      let '(ok, b1) := dispatch b t in
      let '(oks, b2) := dispatch_all b1 ts in
      (ok :: oks, b2)
  end.

(** [update_limits(rps, burst)]: the bucket's tokens are left as they
    are. *)
Definition update_limits (b : TokenBucket) (rps burst : Z) : TokenBucket :=
  {| capacity := inject_Z burst; tokens := tokens b;
     last_refill := last_refill b; refill_rate := inject_Z rps |}.

End RateLimit.

(* ===================================================================== *)
(** ** [app/ipfilter.py]: [validate_cidr_list], [IpFilter], the presets
       and [get_client_ip]; [app/middleware.py]: [IpFilterMiddleware]

    Request headers are the list of [(name, value)] pairs the ASGI
    server delivers, names in lower case; [request.headers.get(k)]
    returns the value of the first pair named [k.lower()]. The peer
    address [request.client] is [None] or [Some host]. Header values are
    Latin-1 decoded, so [str.strip()] removes [latin1_whitespace]. *)
(* ===================================================================== *)

Module ClientIp.
Import Py PyInt IpFilter.

(** [validate_cidr_list] *)
Definition validate_cidr_list (cidr_list : list string) : list string :=
  filter (fun cidr => match parse_cidr cidr with Some _ => true | None => false end)
         cidr_list.

Record IpFilterObj := { allow_list : list string; deny_list : list string }.

(** [IpFilter(allow_list, deny_list)]; [None] is the default argument,
    and [x or []] maps it to the empty list. *)
Definition new_IpFilter (allow_list0 deny_list0 : option (list string)) : IpFilterObj :=
  {| allow_list := validate_cidr_list (match allow_list0 with Some l => l | None => [] end);
     deny_list := validate_cidr_list (match deny_list0 with Some l => l | None => [] end) |}.

(** [IpFilter.is_allowed] *)
Definition is_allowed (f : IpFilterObj) (ip_str : string) : bool :=
  check_ip_allowed ip_str (allow_list f) (deny_list f).

(** [IpFilter.update_rules] *)
Definition update_rules (f : IpFilterObj) (allow_list0 deny_list0 : option (list string))
  : IpFilterObj :=
  {| allow_list := match allow_list0 with Some l => validate_cidr_list l | None => allow_list f end;
     deny_list := match deny_list0 with Some l => validate_cidr_list l | None => deny_list f end |}.

Definition LOCALHOST_ONLY : IpFilterObj :=
  new_IpFilter (Some ["127.0.0.1/32"; "::1/128"]) None.

Definition PRIVATE_NETWORKS : IpFilterObj :=
  new_IpFilter (Some ["127.0.0.1/32"; "10.0.0.0/8"; "172.16.0.0/12"; "192.168.0.0/16";
                      "::1/128"]) None.

Definition ALLOW_ALL : IpFilterObj := new_IpFilter (Some ["*"]) None.

Definition DENY_ALL : IpFilterObj := new_IpFilter None (Some ["0.0.0.0/0"; "::/0"]).

(** [request.headers.get(k)], [k] in lower case. *)
Fixpoint header_get (headers : list (string * string)) (k : string) : option string :=
  match headers with
  | [] => None
  | (k', v) :: hs => if String.eqb k' k then Some v else header_get hs k
  end.

(** A header value is truthy when present and non-empty. *)
Definition truthy (v : option string) : option string :=
  match v with
  | Some s => if String.eqb s "" then None else Some s
  | None => None
  end.

(** [get_client_ip] *)
Definition get_client_ip (headers : list (string * string)) (client : option string)
  : string :=
  match truthy (header_get headers "x-forwarded-for") with
  | Some forwarded_for => strip_set latin1_whitespace (hd "" (split_on ","%char forwarded_for))
  | None =>
      match truthy (header_get headers "x-real-ip") with
      | Some real_ip => strip_set latin1_whitespace real_ip
      | None =>
          match truthy (header_get headers "cf-connecting-ip") with
          | Some cf_ip => strip_set latin1_whitespace cf_ip
          | None =>
              match client with
              | Some host => host
              | None => "unknown"
              end
          end
      end
  end.

(** The [whitelist] of [IpFilterMiddleware._is_whitelisted_endpoint]. *)
Definition whitelist : list (string * string) :=
  [("GET", "/healthz"); ("GET", "/metrics"); ("GET", "/"); ("GET", "/t/")].

(** [IpFilterMiddleware._is_whitelisted_endpoint] *)
Definition is_whitelisted_endpoint (method path : string) : bool :=
  existsb (fun wl =>
             let '(wl_method, wl_path) := wl in
             String.eqb method wl_method &&
             ((endswith wl_path "/" && startswith path wl_path) || String.eqb path wl_path))
          whitelist.

(** [IpFilterMiddleware.dispatch]: [true] when the request is passed to
    [call_next], [false] for the 403 response. *)
Definition ip_filter_dispatch (allow_list0 deny_list0 : list string)
  (headers : list (string * string)) (client : option string) (method path : string)
  : bool :=
  let client_ip := get_client_ip headers client in
  if is_whitelisted_endpoint method path then true
  else check_ip_allowed client_ip allow_list0 deny_list0.

End ClientIp.

(* ===================================================================== *)
(** ** [app/rules.py]: [RuleEvaluator.get_accessible_roots]

    [share_names] is [[share.name for share in config.shares]]. The
    result [list(accessible_roots.intersection(configured_roots))] has
    the elements of a Python set, in an order the language leaves
    unspecified; the model lists them once each, in the order the loop
    met them, and the properties below are about membership only. *)
(* ===================================================================== *)

Module RulesMore.
Import Py IpFilter Rules.

(** The loop over [config.rules]: [None] is the early
    [return [share.name for share in config.shares]], [Some acc] the
    roots collected when the loop ends. *)
Fixpoint accessible_loop (config_rules : list RuleInfo) (u : UserInfo)
  (client_ip : string) (acc : list string) : option (list string) :=
  match config_rules with
  | [] => Some acc
  | rule :: rs =>
      if String.eqb (who rule) (name u) || String.eqb (who rule) "*" then
        if check_ip_allowed client_ip (ip_allow rule) (ip_deny rule) then
          if str_in "*" (roots rule) then None
          else accessible_loop rs u client_ip (acc ++ roots rule)%list
        else accessible_loop rs u client_ip acc
      else accessible_loop rs u client_ip acc
  end.

(** [get_accessible_roots(user, client_ip)] *)
Definition get_accessible_roots (config_rules : list RuleInfo) (share_names : list string)
  (user : option UserInfo) (client_ip : string) : list string :=
  match user with
  | None => []
  | Some u =>
      match accessible_loop config_rules u client_ip [] with
      | None => share_names
      | Some acc => nodup string_dec (filter (fun r => str_in r share_names) acc)
      end
  end.

End RulesMore.

(* ===================================================================== *)
(** ** [app/fs.py]: [create_directory] and [delete_file_or_directory]

    The file system is the same [FS] as for uploads, a tree: an existing
    path's parent is an existing directory. On a tree, [os.rmdir] of an
    empty directory and [shutil.rmtree] of a non-empty one both remove
    the directory and everything below it, [remove_tree]. *)
(* ===================================================================== *)

Module FsOps.
Import Py Fs.

(** [p] and every path below it are removed. *)
Definition remove_tree (fs : FS) (p : path) : FS :=
  fun q => if path_prefixb p q then None else fs q.

(** [safe_join] inside [try ... except PathTraversalError as e: raise
    FileSystemError(str(e))]. *)
Definition join_in_share (resolve : path -> resolution) (share_path : path)
  (rel_path : string) : result path :=
  match safe_join resolve share_path rel_path with
  | Err PathTraversalError => Err FileSystemError
  | x => x
  end.

(** [create_directory(root_name, rel_path)]: the [OSError] of
    [os.makedirs(dir_path, exist_ok=False)] becomes [FileSystemError];
    the directories it created before failing stay. *)
Definition create_directory (mkdir_error : path -> bool) (resolve : path -> resolution)
  (get_share_by_name : string -> option path) (fs : FS)
  (root_name rel_path : string) : result unit * FS :=
  match get_share_by_name root_name with
  | None => (Err FileSystemError, fs)
  | Some share_path =>
      match join_in_share resolve share_path rel_path with
      | Err e => (Err e, fs)
      | Ok dir_path =>
          if fs_exists fs dir_path then (Err FileSystemError, fs)
          else match makedirs mkdir_error false fs dir_path with
               | (true, fs1) => (Ok tt, fs1)
               | (false, fs1) => (Err FileSystemError, fs1)
               end
      end
  end.

(** [delete_file_or_directory(root_name, rel_path)] *)
Definition delete_file_or_directory (resolve : path -> resolution)
  (get_share_by_name : string -> option path) (fs : FS)
  (root_name rel_path : string) : result unit * FS :=
  match get_share_by_name root_name with
  | None => (Err FileSystemError, fs)
  | Some share_path =>
      match join_in_share resolve share_path rel_path with
      | Err e => (Err e, fs)
      | Ok target_path =>
          if negb (fs_exists fs target_path) then (Err FileSystemError, fs)
          else if fs_is_dir fs target_path then (Ok tt, remove_tree fs target_path)
          else (Ok tt, fs_set fs target_path None)
      end
  end.

End FsOps.

(* ##################################################################### *)
(** * Properties *)
(* ##################################################################### *)

(* ===================================================================== *)
(** ** Filename validation *)
(* ===================================================================== *)

Module UtilsFacts.
Import Py Utils.

Lemma existsb_false_forall {A} (f : A -> bool) (l : list A) :
  existsb f l = false <-> (forall x, In x l -> f x = false).
Proof.
  split.
  - intros H x Hx. destruct (f x) eqn:Ef; [|reflexivity].
    assert (existsb f l = true) by (apply existsb_exists; eauto). congruence.
  - intros H. destruct (existsb f l) eqn:E; [|reflexivity].
    apply existsb_exists in E as (x & Hx & Fx). rewrite (H x Hx) in Fx. discriminate.
Qed.








End UtilsFacts.

(* ===================================================================== *)
(** ** Byte ranges *)
(* ===================================================================== *)

Module RangeFacts.
Import Range.
Open Scope Z_scope.

(** C6 (counterexample): [HttpRange(start=5, end=2)] over 10 bytes (what
    [parse_http_range] returns for [bytes=5-2]) resolves to [(5, 5)], not
    to the clamped pair [(5, 2)]. *)
Lemma resolve_5_2_over_10 :
  resolve {| start := Some 5; end_ := Some 2; suffix_length := None |} 10 = (5, 5)
  /\ (5, 5) <> (5, 2).
Proof. split; [reflexivity | intros H; inversion H]. Qed.

(** C6 (amended): a suffix range [k] resolves to [(max(0, N-k), N-1)] for
    every [N]; otherwise, with [s] (default 0) and [e] (default [N-1]),
    the result is [(0, -1)] when [N <= 0]; for [N >= 1], with
    [s' = clamp(s, 0, N)] and [e' = clamp(e, -1, N-1)], it is [(N, N-1)]
    when [s' > N-1], [(s', s')] when [s' <= N-1] and [e' < s'], and
    [(s', e')] otherwise. *)
Theorem resolve_spec (r : HttpRange) (N : Z) :
  (forall k, suffix_length r = Some k -> resolve r N = (Z.max 0 (N - k), N - 1)) /\
  (suffix_length r = None ->
   let s := match start r with Some x => x | None => 0 end in
   let e := match end_ r with Some x => x | None => N - 1 end in
   let s' := Z.max 0 (Z.min s N) in
   let e' := Z.max (-1) (Z.min e (N - 1)) in
   (N <= 0 -> resolve r N = (0, -1)) /\
   (1 <= N -> N - 1 < s' -> resolve r N = (N, N - 1)) /\
   (1 <= N -> s' <= N - 1 -> e' < s' -> resolve r N = (s', s')) /\
   (1 <= N -> s' <= N - 1 -> s' <= e' -> resolve r N = (s', e'))).
Proof.
  destruct r as [st en sf]; unfold resolve; simpl. split.
  - intros k Hk. subst sf. reflexivity.
  - intros Hs. subst sf. simpl.
    set (s := match st with Some x => x | None => 0 end).
    set (e := match en with Some x => x | None => N - 1 end).
    repeat split; intros.
    + assert (Hb : (N <=? 0) = true) by (apply Z.leb_le; lia). rewrite Hb. reflexivity.
    + assert (Hb : (N <=? 0) = false) by (apply Z.leb_gt; lia). rewrite Hb.
      assert (Hg : (Z.max 0 (Z.min s N) >? N - 1) = true) by (apply Z.gtb_lt; lia).
      rewrite Hg.
      assert (Hl : (N - 1 <? N) = true) by (apply Z.ltb_lt; lia). rewrite Hl.
      rewrite Z.eqb_refl. reflexivity.
    + assert (Hb : (N <=? 0) = false) by (apply Z.leb_gt; lia). rewrite Hb.
      assert (Hg : (Z.max 0 (Z.min s N) >? N - 1) = false)
        by (rewrite Z.gtb_ltb; apply Z.ltb_ge; lia).
      rewrite Hg.
      assert (Hl : (Z.max (-1) (Z.min e (N - 1)) <? Z.max 0 (Z.min s N)) = true)
        by (apply Z.ltb_lt; lia). rewrite Hl.
      assert (He : (Z.max (-1) (Z.min e (N - 1)) =? N - 1) = false)
        by (apply Z.eqb_neq; lia). rewrite He. reflexivity.
    + assert (Hb : (N <=? 0) = false) by (apply Z.leb_gt; lia). rewrite Hb.
      assert (Hg : (Z.max 0 (Z.min s N) >? N - 1) = false)
        by (rewrite Z.gtb_ltb; apply Z.ltb_ge; lia).
      rewrite Hg.
      assert (Hl : (Z.max (-1) (Z.min e (N - 1)) <? Z.max 0 (Z.min s N)) = false)
        by (apply Z.ltb_ge; lia). rewrite Hl. reflexivity.
Qed.

Lemma resolve_spec_witness :
  resolve {| start := Some 0; end_ := Some 3; suffix_length := None |} 5 = (0, 3).
Proof.
  apply (proj2 (resolve_spec {| start := Some 0; end_ := Some 3; suffix_length := None |} 5)
           eq_refl); simpl; lia.
Defined.

End RangeFacts.

(* ===================================================================== *)
(** ** Token bucket *)
(* ===================================================================== *)

Module BucketFacts.
Import Bucket.
Open Scope Q_scope.

(** C8 (counterexample): with capacity 1, one token, no elapsed time and
    [consume(-1)], the call returns [True] and leaves 2 tokens, above
    the capacity. *)
Lemma consume_negative_overfills :
  let b := {| capacity := 1; tokens := 1; last_refill := 0; refill_rate := 1 |} in
  fst (consume b 0 (-1)) = true /\ capacity b < tokens (snd (consume b 0 (-1))).
Proof. vm_compute. split; [reflexivity | reflexivity]. Qed.

(** C8 (amended): [consume(n)] refills to
    [t = min(capacity, tokens + (now - last_refill) * rate)], returns
    [True] iff [t >= n], leaves [t - n] tokens when it does and [t] when
    it does not, and sets [last_refill] to [now]. For [n >= 0], a rate
    [>= 0] and [now >= last_refill], tokens in [[0, capacity]] stay in
    [[0, capacity]]. *)
Theorem consume_spec (b : TokenBucket) (now : Q) (n : Z) :
  let t := Qmin (capacity b) (tokens b + (now - last_refill b) * refill_rate b) in
  let '(ok, b') := consume b now n in
  (ok = true <-> inject_Z n <= t) /\
  (ok = true -> tokens b' == t - inject_Z n) /\
  (ok = false -> tokens b' == t) /\
  capacity b' = capacity b /\ last_refill b' = now /\ refill_rate b' = refill_rate b /\
  ((0 <= n)%Z -> 0 <= refill_rate b -> last_refill b <= now ->
   0 <= tokens b <= capacity b -> 0 <= tokens b' <= capacity b').
Proof.
  intros t. unfold consume. fold t.
  assert (Ht1 : t <= capacity b) by apply Q.le_min_l.
  assert (Ht2 : t <= tokens b + (now - last_refill b) * refill_rate b) by apply Q.le_min_r.
  assert (Ht3 : t == capacity b \/ t == tokens b + (now - last_refill b) * refill_rate b).
  { unfold t. destruct (Q.min_spec (capacity b) (tokens b + (now - last_refill b) * refill_rate b))
      as [[_ E]|[_ E]]; rewrite E; [left|right]; reflexivity. }
  destruct (Qle_bool (inject_Z n) t) eqn:Eb; simpl.
  - apply Qle_bool_iff in Eb.
    split; [split; [intros _; exact Eb | reflexivity]|].
    split; [intros _; reflexivity|]. split; [discriminate|].
    split; [reflexivity|]. split; [reflexivity|]. split; [reflexivity|].
    intros Hn Hr Hl [Hz Hc]. simpl. split.
    + lra.
    + assert (0 <= inject_Z n) by (change 0 with (inject_Z 0); rewrite <- Zle_Qle; exact Hn).
      lra.
  - split; [split; [discriminate | intros H; apply Qle_bool_iff in H; congruence]|].
    split; [discriminate|]. split; [intros _; reflexivity|].
    split; [reflexivity|]. split; [reflexivity|]. split; [reflexivity|].
    intros Hn Hr Hl [Hz Hc]. simpl. split.
    + assert (0 <= (now - last_refill b) * refill_rate b)
        by (apply Qmult_le_0_compat; lra).
      destruct Ht3 as [E|E]; lra.
    + exact Ht1.
Qed.

Lemma consume_spec_witness :
  let b := {| capacity := 100; tokens := 100; last_refill := 0; refill_rate := 50 |} in
  fst (consume b 1 1) = true /\ 0 <= tokens (snd (consume b 1 1)) <= 100.
Proof.
  intros b.
  pose proof (consume_spec b 1 1) as H. simpl in H.
  destruct H as (Hok & _ & _ & _ & _ & _ & Hb).
  split; [vm_compute; reflexivity|].
  apply Hb; vm_compute; try discriminate; split; discriminate.
Defined.

End BucketFacts.

(* ===================================================================== *)
(** ** IP filter *)
(* ===================================================================== *)

Module IpFilterFacts.
Import Ip IpFilter.
Open Scope Z_scope.

(** [L] has a network of the address's family containing it, and [p]
    is the largest prefix length among those. *)
Definition best_match (L : list network) (a : address) (p : Z) : Prop :=
  (exists n, In n L /\ matches a n = true /\ n_prefixlen n = p) /\
  (forall n, In n L -> matches a n = true -> n_prefixlen n <= p).

(** No network of [L] of the address's family contains it. *)
Definition no_match (L : list network) (a : address) : Prop :=
  forall n, In n L -> matches a n = false.

Lemma max_by_prefixlen_spec (cur : network) (l : list network) :
  (max_by_prefixlen cur l = cur \/ In (max_by_prefixlen cur l) l) /\
  n_prefixlen cur <= n_prefixlen (max_by_prefixlen cur l) /\
  (forall x, In x l -> n_prefixlen x <= n_prefixlen (max_by_prefixlen cur l)).
Proof.
  revert cur. induction l as [|n l IH]; intros cur; simpl.
  - split; [left; reflexivity|]. split; [lia | intros x []].
  - destruct (n_prefixlen cur <? n_prefixlen n) eqn:E.
    + apply Z.ltb_lt in E. destruct (IH n) as (H1 & H2 & H3).
      split; [destruct H1 as [H1|H1]; [right; left; congruence | right; right; exact H1]|].
      split; [lia|]. intros x [<-|Hx]; [lia | apply H3, Hx].
    + apply Z.ltb_ge in E. destruct (IH cur) as (H1 & H2 & H3).
      split; [destruct H1 as [H1|H1]; [left; exact H1 | right; right; exact H1]|].
      split; [lia|]. intros x [<-|Hx]; [lia | apply H3, Hx].
Qed.

Lemma get_most_specific_some (L : list network) (a : address) (n : network) :
  get_most_specific L a = Some n ->
  In n L /\ matches a n = true /\
  (forall m, In m L -> matches a m = true -> n_prefixlen m <= n_prefixlen n).
Proof.
  unfold get_most_specific.
  destruct (filter (matches a) L) as [|n0 l] eqn:EF; [discriminate|].
  intros H; injection H as <-.
  destruct (max_by_prefixlen_spec n0 l) as (H1 & H2 & H3).
  assert (Hin : In (max_by_prefixlen n0 l) (filter (matches a) L)).
  { rewrite EF. destruct H1 as [H1|H1]; [left; congruence | right; exact H1]. }
  apply filter_In in Hin as [Hin Hm].
  split; [exact Hin|]. split; [exact Hm|].
  intros m Hm1 Hm2.
  assert (Hf : In m (filter (matches a) L)) by (apply filter_In; auto).
  rewrite EF in Hf. destruct Hf as [<-|Hf]; [exact H2 | apply H3, Hf].
Qed.

Lemma get_most_specific_none (L : list network) (a : address) :
  get_most_specific L a = None <-> no_match L a.
Proof.
  unfold get_most_specific, no_match.
  destruct (filter (matches a) L) as [|n0 l] eqn:EF.
  - split; [intros _ | reflexivity].
    intros n Hn. destruct (matches a n) eqn:Em; [|reflexivity].
    assert (Hf : In n (filter (matches a) L)) by (apply filter_In; auto).
    rewrite EF in Hf. destruct Hf.
  - split; [discriminate|]. intros H.
    assert (Hf : In n0 (filter (matches a) L)) by (rewrite EF; left; reflexivity).
    apply filter_In in Hf as [Hf Hm]. rewrite (H n0 Hf) in Hm. discriminate.
Qed.

Lemma get_most_specific_best (L : list network) (a : address) (p : Z) :
  best_match L a p ->
  exists n, get_most_specific L a = Some n /\ n_prefixlen n = p.
Proof.
  intros [(n0 & Hin & Hm & Hp) Hmax].
  destruct (get_most_specific L a) as [n|] eqn:E.
  - exists n. split; [reflexivity|].
    destruct (get_most_specific_some L a n E) as (H1 & H2 & H3).
    specialize (Hmax n H1 H2). specialize (H3 n0 Hin Hm). lia.
  - apply get_most_specific_none in E. rewrite (E n0 Hin) in Hm. discriminate.
Qed.

Lemma ip_address_empty : ip_address "" = None.
Proof. reflexivity. Qed.

Lemma check_ip_allowed_unfold (ip : string) (a : address) (al dl : list string) :
  ip_address ip = Some a ->
  check_ip_allowed ip al dl =
  match get_most_specific (parse_networks al) a,
        get_most_specific (parse_networks dl) a with
  | Some na, None => true
  | Some na, Some nd => n_prefixlen nd <=? n_prefixlen na
  | None, Some _ => false
  | None, None => match parse_networks al with [] => true | _ => false end
  end.
Proof.
  intros H. unfold check_ip_allowed.
  destruct (String.eqb ip "") eqn:E.
  - apply String.eqb_eq in E. subst. rewrite ip_address_empty in H. discriminate.
  - rewrite H. reflexivity.
Qed.

(** An allow entry that does not parse: used by the counterexample. *)
Definition garbage_entry : string := "garbage".

(** C3 (counterexample): with the allow list [["garbage"]] (non-empty, no
    entry parses), an empty deny list and the client [1.2.3.4], nothing
    matches yet the client is allowed. *)
Lemma check_ip_unparseable_allow_list_allows :
  [garbage_entry] <> [] /\ parse_cidr garbage_entry = None /\
  check_ip_allowed "1.2.3.4" [garbage_entry] [] = true.
Proof. split; [discriminate | split; vm_compute; reflexivity]. Qed.

(** C3 (amended): [check_ip_allowed] takes, in each list, the most
    specific (largest prefix length) matching network of the address's
    family among the entries that parse ([A] and [D]) and decides: an
    allow match only allows; both match allows iff the allow match's
    prefix length is at least the deny match's (a tie goes to allow); a
    deny match only denies; no match with an allow list that has no
    parseable entry (in particular an empty one) allows; no match with
    an allow list that has a parseable entry denies; an address that does
    not parse is denied. *)
Theorem check_ip_allowed_table (ip : string) (al dl : list string) :
  (ip_address ip = None -> check_ip_allowed ip al dl = false) /\
  (forall a, ip_address ip = Some a ->
   let A := parse_networks al in
   let D := parse_networks dl in
   (forall pa, best_match A a pa -> no_match D a -> check_ip_allowed ip al dl = true) /\
   (forall pa pd, best_match A a pa -> best_match D a pd ->
      check_ip_allowed ip al dl = (pd <=? pa)) /\
   (forall pd, no_match A a -> best_match D a pd -> check_ip_allowed ip al dl = false) /\
   (no_match A a -> no_match D a -> (check_ip_allowed ip al dl = true <-> A = []))).
Proof.
  split.
  - intros H. unfold check_ip_allowed. destruct (String.eqb ip ""); [reflexivity|].
    rewrite H. reflexivity.
  - intros a Ha A D. rewrite (check_ip_allowed_unfold ip a al dl Ha). fold A D.
    split; [|split; [|split]].
    + intros pa HA HD.
      destruct (get_most_specific_best A a pa HA) as (na & -> & _).
      apply get_most_specific_none in HD. rewrite HD. reflexivity.
    + intros pa pd HA HD.
      destruct (get_most_specific_best A a pa HA) as (na & -> & <-).
      destruct (get_most_specific_best D a pd HD) as (nd & -> & <-).
      reflexivity.
    + intros pd HA HD.
      apply get_most_specific_none in HA. rewrite HA.
      destruct (get_most_specific_best D a pd HD) as (nd & -> & _). reflexivity.
    + intros HA HD.
      apply get_most_specific_none in HA. apply get_most_specific_none in HD.
      rewrite HA, HD. destruct A; split; congruence.
Qed.

Lemma check_ip_allowed_table_witness :
  check_ip_allowed "192.168.1.7" ["192.168.0.0/16"] ["192.168.1.0/24"] = false.
Proof.
  destruct (check_ip_allowed_table "192.168.1.7" ["192.168.0.0/16"] ["192.168.1.0/24"])
    as [_ H].
  specialize (H {| a_ver := V4; a_int := 3232235783 |} ltac:(vm_compute; reflexivity)).
  destruct H as (_ & H & _).
  rewrite (H 16 24).
  - vm_compute. reflexivity.
  - split.
    + exists {| n_ver := V4; n_addr := 3232235520; n_prefixlen := 16 |}.
      vm_compute. split; [left; reflexivity | split; reflexivity].
    + intros n Hn _. vm_compute in Hn. destruct Hn as [<-|[]]. simpl. lia.
  - split.
    + exists {| n_ver := V4; n_addr := 3232235776; n_prefixlen := 24 |}.
      vm_compute. split; [left; reflexivity | split; reflexivity].
    + intros n Hn _. vm_compute in Hn. destruct Hn as [<-|[]]. simpl. lia.
Defined.

(** C9: an IPv6 client is denied by the allow list [["*"]] and an empty
    deny list: [*] parses as the IPv4 network [0.0.0.0/0], which is not of
    the client's family; [["*"]] and [[]] are the defaults of
    [RuleInfo.ip_allow] and [RuleInfo.ip_deny]. *)
Theorem ipv6_denied_by_wildcard (ip : string) (a : address) :
  ip_address ip = Some a -> a_ver a = V6 ->
  check_ip_allowed ip ["*"] [] = false /\
  parse_cidr "*" = Some {| n_ver := V4; n_addr := 0; n_prefixlen := 0 |} /\
  (forall w al rs ps,
     Rules.ip_allow (Rules.mk_rule w al rs ps) = ["*"] /\
     Rules.ip_deny (Rules.mk_rule w al rs ps) = []).
Proof.
  intros Ha Hv. split; [|split; [reflexivity | intros; split; reflexivity]].
  rewrite (check_ip_allowed_unfold ip a ["*"] [] Ha). simpl.
  unfold get_most_specific. simpl.
  unfold matches, contains. simpl. rewrite Hv. simpl. reflexivity.
Qed.

Lemma ipv6_denied_by_wildcard_witness :
  check_ip_allowed "2001:db8::1" ["*"] [] = false.
Proof.
  apply (ipv6_denied_by_wildcard "2001:db8::1"
           {| a_ver := V6; a_int := 42540766411282592856903984951653826561 |});
    vm_compute; reflexivity.
Defined.

Lemma parse_networks_app (l1 l2 : list string) :
  parse_networks (l1 ++ l2) = (parse_networks l1 ++ parse_networks l2)%list.
Proof.
  induction l1 as [|c l1 IH]; simpl; [reflexivity|].
  destruct (parse_cidr c); rewrite IH; reflexivity.
Qed.

Lemma parse_networks_insert_unparseable (l : list string) (s : string) (i : nat) :
  parse_cidr s = None ->
  parse_networks (firstn i l ++ s :: skipn i l)%list = parse_networks l.
Proof.
  intros H. rewrite parse_networks_app. simpl. rewrite H.
  rewrite <- parse_networks_app, firstn_skipn. reflexivity.
Qed.

Lemma check_ip_allowed_parsed (ip : string) (al al' dl dl' : list string) :
  parse_networks al = parse_networks al' -> parse_networks dl = parse_networks dl' ->
  check_ip_allowed ip al dl = check_ip_allowed ip al' dl'.
Proof. intros H1 H2. unfold check_ip_allowed. rewrite H1, H2. reflexivity. Qed.

(** C10: inserting an entry that does not parse, at any position of the
    allow list or of the deny list, leaves the decision unchanged; more
    generally the decision depends on the lists only through their
    parsed networks. *)
Theorem check_ip_allowed_ignores_unparseable (ip s : string) (al dl : list string)
  (i j : nat) :
  parse_cidr s = None ->
  check_ip_allowed ip (firstn i al ++ s :: skipn i al)%list dl = check_ip_allowed ip al dl /\
  check_ip_allowed ip al (firstn j dl ++ s :: skipn j dl)%list = check_ip_allowed ip al dl /\
  (forall al' dl', parse_networks al' = parse_networks al ->
     parse_networks dl' = parse_networks dl ->
     check_ip_allowed ip al' dl' = check_ip_allowed ip al dl).
Proof.
  intros H. split; [|split].
  - apply check_ip_allowed_parsed; [apply parse_networks_insert_unparseable, H | reflexivity].
  - apply check_ip_allowed_parsed; [reflexivity | apply parse_networks_insert_unparseable, H].
  - intros al' dl' H1 H2. apply check_ip_allowed_parsed; assumption.
Qed.

Lemma check_ip_allowed_ignores_unparseable_witness :
  check_ip_allowed "10.1.2.3" ["10.0.0.0/8"; "10.1.2.0/33"] [] =
  check_ip_allowed "10.1.2.3" ["10.0.0.0/8"] [].
Proof.
  destruct (check_ip_allowed_ignores_unparseable "10.1.2.3" "10.1.2.0/33"
              ["10.0.0.0/8"] [] 1 0 ltac:(vm_compute; reflexivity)) as [H _].
  exact H.
Defined.

End IpFilterFacts.

(* ===================================================================== *)
(** ** Rule evaluation *)
(* ===================================================================== *)

Module RulesFacts.
Import Py IpFilter Rules.

(** The path-glob semantics of the specification: [p] matches [e] if
    [e] is [*] or [/*], or [p = e], or [e] ends in a slash and is a
    prefix of [p], or [p] starts with [e] followed by a slash. Both
    sides are compared after [normalize_rule_path]. *)
Definition spec_glob_match (p e : string) : bool :=
  String.eqb e "*" || String.eqb e "/*" || String.eqb p e ||
  (endswith e "/" && startswith p e) || startswith p (e ++ "/").

Lemma prefix_app_l (e x p : string) :
  String.prefix (e ++ x) p = true -> String.prefix e p = true.
Proof.
  revert p. induction e as [|a e IH]; intros p H; [destruct p; reflexivity|].
  destruct p as [|b p]; simpl in *; [discriminate|].
  destruct (ascii_dec a b); [apply IH, H | discriminate].
Qed.

Lemma path_entry_allows_glob (p e : string) :
  path_entry_allows p e = spec_glob_match p (normalize_rule_path e).
Proof.
  unfold path_entry_allows, spec_glob_match.
  set (a := normalize_rule_path e).
  destruct (String.eqb a "*"); [reflexivity|].
  destruct (String.eqb a "/*"); [reflexivity|].
  destruct (String.eqb p a); [reflexivity|]. simpl.
  destruct (endswith a "/"); simpl; [|reflexivity].
  destruct (startswith p a) eqn:E; simpl; [reflexivity|].
  destruct (startswith p (a ++ "/")) eqn:E2; [|reflexivity].
  unfold startswith in *. apply prefix_app_l in E2. congruence.
Qed.

Lemma check_path_allowed_glob (p : string) (es : list string) :
  check_path_allowed p es = true <->
  exists e, In e es /\ spec_glob_match (normalize_rule_path p) (normalize_rule_path e) = true.
Proof.
  unfold check_path_allowed. rewrite existsb_exists.
  split; intros (e & H1 & H2); exists e; split; try exact H1;
    rewrite path_entry_allows_glob in *; exact H2.
Qed.

Lemma permission_eqb_eq (a b : Permission) : permission_eqb a b = true <-> a = b.
Proof. destruct a, b; simpl; split; congruence. Qed.

Lemma str_in_In (s : string) (l : list string) : str_in s l = true <-> In s l.
Proof.
  unfold str_in. rewrite existsb_exists. split.
  - intros (x & Hx & E). apply String.eqb_eq in E. subst. exact Hx.
  - intros H. exists s. split; [exact H | apply String.eqb_refl].
Qed.

Lemma evaluate_rule_true (r : RuleInfo) (op : Permission) (root p ip : string) :
  fst (evaluate_rule r op root p ip) = true <->
  In op (allow r) /\ (In root (roots r) \/ In "*" (roots r)) /\
  check_path_allowed p (paths r) = true /\
  check_ip_allowed ip (ip_allow r) (ip_deny r) = true.
Proof.
  unfold evaluate_rule.
  destruct (existsb (permission_eqb op) (allow r)) eqn:E1; simpl.
  2: { split; [discriminate|]. intros (H & _).
       assert (existsb (permission_eqb op) (allow r) = true)
         by (apply existsb_exists; exists op; split; [exact H | apply permission_eqb_eq; reflexivity]).
       congruence. }
  assert (H1 : In op (allow r)).
  { apply existsb_exists in E1 as (x & Hx & Ex). apply permission_eqb_eq in Ex. subst. exact Hx. }
  destruct (str_in root (roots r)) eqn:E2; destruct (str_in "*" (roots r)) eqn:E3; simpl;
  try (split; [discriminate|]; intros (_ & [H|H] & _);
       [apply str_in_In in H; congruence | apply str_in_In in H; congruence]);
  (destruct (check_path_allowed p (paths r)) eqn:E4; simpl;
   [| split; [discriminate | intros (_ & _ & H & _); discriminate]]);
  (destruct (check_ip_allowed ip (ip_allow r) (ip_deny r)) eqn:E5; simpl;
   [| split; [discriminate | intros (_ & _ & _ & H); discriminate]]);
  (split; [intros _ | reflexivity]);
  (split; [exact H1|]; split; [|split; reflexivity]);
  first [left; apply str_in_In; exact E2 | right; apply str_in_In; exact E3].
Qed.

Lemma first_granting_true (l : list RuleInfo) (op : Permission) (root p ip : string) :
  fst (first_granting l op root p ip) = true <->
  exists r, In r l /\ fst (evaluate_rule r op root p ip) = true.
Proof.
  induction l as [|r l IH]; simpl.
  - split; [discriminate | intros (r & [] & _)].
  - destruct (evaluate_rule r op root p ip) as [ok reason] eqn:E.
    destruct ok; simpl.
    + split; [intros _; exists r; split; [left; reflexivity | rewrite E; reflexivity] | reflexivity].
    + rewrite IH. split.
      * intros (r' & H1 & H2). exists r'. split; [right; exact H1 | exact H2].
      * intros (r' & [<-|H1] & H2); [rewrite E in H2; discriminate|].
        exists r'. split; assumption.
Qed.

(** C2: [evaluate] allows iff the user is present and some configured
    rule has [who] equal to the user's name or [*], the operation in
    [allow], the share name or [*] in [roots], a [paths] entry
    glob-matching the normalised path, and a rule-local IP filter that
    accepts the client; a missing user is denied with
    [Authentication required]. *)
Theorem evaluate_spec (config_rules : list RuleInfo) (user : option UserInfo)
  (op : Permission) (root p ip : string) :
  (fst (evaluate config_rules user op root p ip) = true <->
   exists u, user = Some u /\
   exists r, In r config_rules /\ (who r = name u \/ who r = "*") /\
     In op (allow r) /\ (In root (roots r) \/ In "*" (roots r)) /\
     (exists e, In e (paths r) /\
        spec_glob_match (normalize_rule_path p) (normalize_rule_path e) = true) /\
     check_ip_allowed ip (ip_allow r) (ip_deny r) = true) /\
  evaluate config_rules None op root p ip = (false, AuthRequired).
Proof.
  split; [|reflexivity].
  destruct user as [u|]; simpl.
  2: { split; [discriminate | intros (u & H & _); discriminate]. }
  set (ms := filter (fun r => String.eqb (who r) (name u) || String.eqb (who r) "*")
                    config_rules).
  assert (Hfst : fst (match ms with [] => (false, NoRules)
                      | _ => first_granting ms op root p ip end)
                 = fst (first_granting ms op root p ip))
    by (destruct ms; reflexivity).
  rewrite Hfst, first_granting_true. split.
  - intros (r & Hr & He). apply filter_In in Hr as [Hr Hw].
    apply evaluate_rule_true in He as (H1 & H2 & H3 & H4).
    exists u. split; [reflexivity|]. exists r. split; [exact Hr|].
    split; [apply orb_true_iff in Hw as [Hw|Hw]; apply String.eqb_eq in Hw; auto|].
    split; [exact H1|]. split; [exact H2|]. split; [|exact H4].
    apply check_path_allowed_glob, H3.
  - intros (u' & Hu & r & Hr & Hw & H1 & H2 & H3 & H4). injection Hu as <-.
    exists r. split.
    + apply filter_In. split; [exact Hr|].
      destruct Hw as [Hw|Hw]; rewrite Hw, String.eqb_refl; [reflexivity | apply orb_true_r].
    + apply evaluate_rule_true. repeat split; try assumption.
      apply check_path_allowed_glob, H3.
Qed.

End RulesFacts.

(* ===================================================================== *)
(** ** [safe_join] and [save_uploaded_file] *)
(* ===================================================================== *)

Module FsFacts.
Import Py Fs.

(** [Path.resolve(strict=False)] on a tree without symbolic links
    (CPython 3.11): [os.path.realpath] calls [os.lstat] on every
    component, which raises [ValueError] on a NUL character; otherwise
    [.] and empty components are dropped and [..] removes the last
    component. *)
Definition lexical_step (acc : list string) (s : string) : list string :=
  if String.eqb s ".." then tl acc
  else if String.eqb s "" || String.eqb s "." then acc else s :: acc.

Definition has_nul (p : path) : bool := existsb (contains_char (ascii_of_nat 0)) p.

Definition lexical_resolve (p : path) : resolution :=
  if has_nul p then Raises ValueError else Resolved (rev (fold_left lexical_step p [])).



Lemma path_prefixb_app (b p : path) :
  path_prefixb b p = true -> exists sfx, p = (b ++ sfx)%list.
Proof.
  revert p; induction b as [|x b IH]; intros p H; [exists p; reflexivity|].
  destruct p as [|y p]; simpl in H; [discriminate|].
  apply andb_true_iff in H as [H1 H2]. apply String.eqb_eq in H1; subst.
  destruct (IH p H2) as [sfx ->]. exists sfx; reflexivity.
Qed.


Section SafeJoin.

Variable resolve : path -> resolution.

(** [Path.resolve] returns a canonical path: it has no [..] component. *)
Hypothesis resolve_canonical : forall p q, resolve p = Resolved q -> ~ In ".." q.


End SafeJoin.



(** The bytes of an upload stream: the chunks returned by successive
    [read] calls, up to the first empty one. *)
Fixpoint stream_data (chunks : list (list Byte.byte)) : list Byte.byte :=
  match chunks with
  | [] => []
  | [] :: _ => []
  | c :: rest => (c ++ stream_data rest)%list
  end.

Lemma path_eqb_eq (p q : path) : path_eqb p q = true <-> p = q.
Proof.
  revert q; induction p as [|a p IH]; intros [|b q]; simpl;
    try (split; intros; congruence).
  rewrite andb_true_iff, String.eqb_eq, IH.
  split; [intros [-> ->]; reflexivity | intros [= -> ->]; split; reflexivity].
Qed.

Lemma fs_set_same (fs : FS) (p : path) (v : option node) : fs_set fs p v p = v.
Proof. unfold fs_set. rewrite (proj2 (path_eqb_eq p p) eq_refl). reflexivity. Qed.

Lemma fs_set_shadow (fs : FS) (p : path) (v w : option node) (q : path) :
  fs_set (fs_set fs p v) p w q = fs_set fs p w q.
Proof. unfold fs_set. destruct (path_eqb q p); reflexivity. Qed.

Lemma write_chunks_end (fs : FS) (fp : path) (written : list Byte.byte) (q : path) :
  fs fp = Some (File written) -> fs q = fs_set fs fp (Some (File (written ++ []))) q.
Proof.
  intros Hfp. rewrite app_nil_r. unfold fs_set.
  destruct (path_eqb q fp) eqn:E; [apply path_eqb_eq in E; subst; exact Hfp | reflexivity].
Qed.

Lemma write_chunks_capped (m : Z) (fp : path) (chunks : list (list Byte.byte)) :
  forall fs bw written,
  fs fp = Some (File written) -> (bw <= m)%Z ->
  ((bw + Z.of_nat (List.length (stream_data chunks)) <= m)%Z ->
     fst (write_chunks fs fp (Some m) bw written chunks)
       = Ok (bw + Z.of_nat (List.length (stream_data chunks)))%Z /\
     forall q, snd (write_chunks fs fp (Some m) bw written chunks) q
               = fs_set fs fp (Some (File (written ++ stream_data chunks)%list)) q) /\
  ((m < bw + Z.of_nat (List.length (stream_data chunks)))%Z ->
     fst (write_chunks fs fp (Some m) bw written chunks) = Err FileSystemError /\
     snd (write_chunks fs fp (Some m) bw written chunks) fp = None).
Proof.
  induction chunks as [|c rest IH]; intros fs bw written Hfp Hbw.
  - cbn [write_chunks stream_data List.length fst snd]. rewrite Z.add_0_r. split.
    + intros _. split; [reflexivity|]. intros q. apply write_chunks_end, Hfp.
    + intros H; lia.
  - destruct c as [|b c'].
    + cbn [write_chunks stream_data List.length fst snd]. rewrite Z.add_0_r. split.
      * intros _. split; [reflexivity|]. intros q. apply write_chunks_end, Hfp.
      * intros H; lia.
    + cbn [write_chunks stream_data].
      destruct (m <? bw + Z.of_nat (List.length (b :: c')))%Z eqn:Ecmp.
      * apply Z.ltb_lt in Ecmp. rewrite length_app, Nat2Z.inj_add. split.
        -- intros H. lia.
        -- intros _. split; [reflexivity | apply fs_set_same].
      * apply Z.ltb_ge in Ecmp.
        destruct (IH (fs_set fs fp (Some (File (written ++ b :: c')%list)))
                     (bw + Z.of_nat (List.length (b :: c')))%Z (written ++ b :: c')%list
                     (fs_set_same _ _ _) Ecmp) as [IH1 IH2].
        rewrite length_app, Nat2Z.inj_add. split.
        -- intros H. destruct (IH1 ltac:(lia)) as [H1 H2].
           split; [rewrite H1; f_equal; lia|].
           intros q. rewrite H2, fs_set_shadow, <- app_assoc. reflexivity.
        -- intros H. apply IH2. lia.
Qed.

Section Upload.

Variable mkdir_error : path -> bool.
Variable resolve : path -> resolution.
Variable get_share_by_name : string -> option path.

(** C5: once the target [fp] has been prepared (checks passed, parent
    directory present), an upload whose total length [total] is at most
    [max_size] ([0 <= max_size]) returns [total] and leaves exactly the
    uploaded bytes at [fp]; a total above [max_size] (the running total
    then exceeds it at some chunk) raises [FileSystemError] and leaves no
    file at [fp]. *)
Theorem save_uploaded_file_size_cap (fs : FS) (root_name rel_path filename : string)
  (fp : path) (chunks : list (list Byte.byte)) (m : Z)
  (Hprep : fst (save_prepare mkdir_error resolve get_share_by_name fs root_name rel_path filename) = Ok fp)
  (Hdir : fs_is_dir (snd (save_prepare mkdir_error resolve get_share_by_name fs root_name rel_path filename))
                    (removelast fp) = true)
  (Hm : (0 <= m)%Z) :
  let fs1 := snd (save_prepare mkdir_error resolve get_share_by_name fs root_name rel_path filename) in
  let r := save_uploaded_file mkdir_error resolve get_share_by_name fs root_name rel_path filename
             chunks (Some m) in
  let total := Z.of_nat (List.length (stream_data chunks)) in
  ((total <= m)%Z -> fst r = Ok total /\
     forall q, snd r q = fs_set fs1 fp (Some (File (stream_data chunks))) q) /\
  ((m < total)%Z -> fst r = Err FileSystemError /\ snd r fp = None).
Proof.
  cbv zeta. unfold save_uploaded_file.
  destruct (save_prepare mkdir_error resolve get_share_by_name fs root_name rel_path filename)
    as [res fs1] eqn:E.
  cbn [fst snd] in Hprep, Hdir |- *. subst res. rewrite Hdir. cbn [negb].
  destruct (write_chunks_capped m fp chunks (fs_set fs1 fp (Some (File []))) 0 []
              (fs_set_same _ _ _) Hm) as [H1 H2].
  split.
  - intros Ht. destruct (H1 Ht) as [A B]. split; [exact A|].
    intros q. rewrite B, fs_set_shadow. reflexivity.
  - exact H2.
Qed.

End Upload.

(** No [mkdir] is refused by the operating system. *)
Definition no_mkdir_error (p : path) : bool := false.

Definition demo_share (n : string) : option path :=
  if String.eqb n "pub" then Some ["srv"; "pub"] else None.

Definition demo_fs : FS :=
  fun p => if path_eqb p ["srv"] || path_eqb p ["srv"; "pub"] then Some Dir else None.

Definition demo_chunks : list (list Byte.byte) := [[Byte.x61; Byte.x62]; [Byte.x63]].

Lemma save_uploaded_file_size_cap_witness :
  fst (save_uploaded_file no_mkdir_error lexical_resolve demo_share demo_fs "pub" "" "a.txt"
         demo_chunks (Some 2%Z)) = Err FileSystemError /\
  snd (save_uploaded_file no_mkdir_error lexical_resolve demo_share demo_fs "pub" "" "a.txt"
         demo_chunks (Some 2%Z)) ["srv"; "pub"; "a.txt"] = None.
Proof.
  exact (proj2 (save_uploaded_file_size_cap no_mkdir_error lexical_resolve demo_share demo_fs
                  "pub" "" "a.txt" ["srv"; "pub"; "a.txt"] demo_chunks 2%Z
                  ltac:(vm_compute; reflexivity) ltac:(vm_compute; reflexivity)
                  ltac:(vm_compute; discriminate))
               ltac:(vm_compute; reflexivity)).
Defined.

End FsFacts.

(* ===================================================================== *)
(** ** Direct transfers: at-most-once delivery *)
(* ===================================================================== *)

Module DirectTransferFacts.
Import Py DirectTransfer.

(** [st'] keeps a subset of the entries of [st], and its metadata file
    is unchanged or was rewritten from its own entries. *)
Definition shrinks (st st' : Store) : Prop :=
  incl (entries st') (entries st) /\
  (meta st' = meta st \/ meta st' = Some (map snd (entries st'))).

(** A property [P] of every [(key, entry)] pair of the dict, and a
    property [R] of every entry in memory or in [transfers.json]. *)
Definition inv (P : string -> DirectTransferEntry -> Prop)
  (R : DirectTransferEntry -> Prop) (st : Store) : Prop :=
  (forall k e, In (k, e) (entries st) -> P k e /\ R e) /\
  (forall items e, meta st = Some items -> In e items -> R e).

(** The dict is keyed by the entries' ids. *)
Definition keyed_by_id (st : Store) : Prop :=
  inv (fun k e => k = id e) (fun _ => True) st.

(** No key and no entry (in memory or on disk) carries [tid]. *)
Definition id_gone (tid : string) (st : Store) : Prop :=
  inv (fun k _ => k <> tid) (fun e => id e <> tid) st.

Lemma dict_get_None (d : list (string * DirectTransferEntry)) (k : string) :
  (forall k' v, In (k', v) d -> k' <> k) -> dict_get d k = None.
Proof.
  induction d as [|[k' v] d IH]; intros H; simpl; [reflexivity|].
  destruct (String.eqb k' k) eqn:E.
  - apply String.eqb_eq in E. exfalso. apply (H k' v); [left; reflexivity | exact E].
  - apply IH. intros k'' v' Hin. apply (H k'' v'). right; exact Hin.
Qed.

Lemma dict_pop_In (d : list (string * DirectTransferEntry)) (k : string) kv :
  In kv (dict_pop d k) <-> In kv d /\ fst kv <> k.
Proof.
  unfold dict_pop. rewrite filter_In, negb_true_iff, String.eqb_neq. reflexivity.
Qed.

Lemma dict_pop_incl (d : list (string * DirectTransferEntry)) (k : string) :
  incl (dict_pop d k) d.
Proof. intros kv H. apply dict_pop_In in H. tauto. Qed.

Lemma dict_set_In (d : list (string * DirectTransferEntry)) (c : string)
  (e : DirectTransferEntry) k v :
  In (k, v) (dict_set d c e) -> In (k, v) d \/ (k = c /\ v = e).
Proof.
  induction d as [|[k' v'] d IH]; simpl.
  - intros [[= -> ->]|[]]. right; split; reflexivity.
  - destruct (String.eqb k' c).
    + intros [[= -> ->]|H]; [right; split; reflexivity | left; right; exact H].
    + intros [H|H]; [left; left; exact H|].
      destruct (IH H) as [H'|H']; [left; right; exact H' | right; exact H'].
Qed.

Lemma shrinks_refl (st : Store) : shrinks st st.
Proof. split; [apply incl_refl | left; reflexivity]. Qed.

Lemma shrinks_save (st st1 : Store) (E : list (string * DirectTransferEntry)) :
  shrinks st st1 -> incl E (entries st1) -> shrinks st (save_locked (set_entries st1 E)).
Proof.
  intros [H1 _] H2. split; [|right; reflexivity].
  intros kv Hkv. apply H1, H2, Hkv.
Qed.

Lemma shrinks_delete_file (st st1 : Store) (name : string) :
  shrinks st st1 -> shrinks st (delete_file st1 name).
Proof. intros H. exact H. Qed.

Lemma prune_loop_shrinks (now : Q) (items : list (string * DirectTransferEntry)) :
  forall st removed,
  incl (entries (fst (prune_loop now items st removed))) (entries st) /\
  meta (fst (prune_loop now items st removed)) = meta st.
Proof.
  induction items as [|[k e] items IH]; intros st removed; cbn [prune_loop].
  - split; [apply incl_refl | reflexivity].
  - destruct (should_remove st now e).
    + destruct (IH (delete_file (set_entries st (dict_pop (entries st) k)) (stored_filename e))
                   true) as [H1 H2].
      split; [|exact H2].
      intros kv Hkv. apply H1 in Hkv. apply (dict_pop_incl _ _ _ Hkv).
    + apply IH.
Qed.

Lemma prune_locked_shrinks (now : Q) (st : Store) : shrinks st (prune_locked now st).
Proof.
  unfold prune_locked.
  pose proof (prune_loop_shrinks now (entries st) st false) as [H1 H2].
  destruct (prune_loop now (entries st) st false) as [st' removed].
  cbn [fst] in H1, H2. destruct removed.
  - split; [exact H1 | right; reflexivity].
  - split; [exact H1 | left; exact H2].
Qed.

Ltac shrinks_branches :=
  repeat match goal with
         | |- context [if ?b then _ else _] => destruct b
         | |- context [match dict_get ?d ?k with _ => _ end] => destruct (dict_get d k)
         end;
  cbn [snd];
  first [ apply shrinks_delete_file, shrinks_save;
            [apply prune_locked_shrinks | apply dict_pop_incl]
        | apply shrinks_save; [apply prune_locked_shrinks | apply dict_pop_incl]
        | apply prune_locked_shrinks
        | apply shrinks_refl ].

Lemma prepare_download_shrinks (st : Store) (now : Q) (tid u : string) :
  shrinks st (snd (prepare_download st now tid u)).
Proof. unfold prepare_download. cbv zeta. shrinks_branches. Qed.

Lemma delete_transfer_shrinks (st : Store) (now : Q) (tid u : string) :
  shrinks st (snd (delete_transfer st now tid u)).
Proof. unfold delete_transfer. cbv zeta. shrinks_branches. Qed.

Lemma list_transfers_shrinks (st : Store) (now : Q) (u d : string) :
  shrinks st (snd (list_transfers st now u d)).
Proof. unfold list_transfers. cbv zeta. shrinks_branches. Qed.

Section Invariant.

Variable P : string -> DirectTransferEntry -> Prop.
Variable R : DirectTransferEntry -> Prop.

(** Entries read back from [transfers.json] keep the invariant. *)
Hypothesis load_ok : forall e, R e -> P (id e) (load_entry e) /\ R (load_entry e).

Lemma inv_shrinks (st st' : Store) : inv P R st -> shrinks st st' -> inv P R st'.
Proof.
  intros [H1 H2] [S1 [S2|S2]]; split.
  - intros k e H. apply H1, S1, H.
  - intros items e Hm He. rewrite S2 in Hm. exact (H2 items e Hm He).
  - intros k e H. apply H1, S1, H.
  - intros items e Hm He. rewrite S2 in Hm. injection Hm as <-.
    apply in_map_iff in He as ([k e'] & <- & Hin).
    exact (proj2 (H1 k e' (S1 _ Hin))).
Qed.

Lemma allocate_loop_In (st : Store) (suf : string) (cs : list string) (c stored : string) :
  allocate_loop st suf cs = Some (c, stored) -> In c cs.
Proof.
  induction cs as [|c0 cs IH]; cbn [allocate_loop]; [discriminate|].
  destruct (dict_get (entries st) c0); [intros H; right; exact (IH H)|].
  destruct (file_exists st (c0 ++ suf)); [intros H; right; exact (IH H)|].
  intros [= -> _]. left; reflexivity.
Qed.

Lemma create_transfer_inv (st : Store) (now : Q) (s r fn ct : string)
  (data : list Byte.byte) (ei ms : option Z) (cands : list string) :
  inv P R st ->
  (forall c e', id e' = c -> In c (firstn 64 cands) -> P c e' /\ R e') ->
  inv P R (snd (create_transfer st now s r fn ct data ei ms cands)).
Proof.
  intros Hinv Hc. unfold create_transfer. cbv zeta.
  match goal with |- inv _ _ (snd (if ?b then _ else _)) => destruct b end;
    [exact Hinv|].
  pose proof (inv_shrinks _ _ Hinv (prune_locked_shrinks now st)) as Hinv1.
  match goal with |- context [allocate_locked ?a ?b ?cs] =>
    destruct (allocate_locked a b cs) as [[c stored]|] eqn:Ea end;
    [|exact Hinv1].
  unfold allocate_locked in Ea. apply allocate_loop_In in Ea.
  split.
  - intros k v H. cbn [save_locked entries] in H.
    apply dict_set_In in H as [H|[-> ->]]; [exact (proj1 Hinv1 k v H)|].
    apply Hc; [reflexivity | exact Ea].
  - intros items v Hm Hv. cbn [save_locked meta] in Hm. injection Hm as <-.
    apply in_map_iff in Hv as ([k v'] & <- & Hin). cbn [entries] in Hin.
    apply dict_set_In in Hin as [Hin|[-> ->]]; [exact (proj2 (proj1 Hinv1 k v' Hin))|].
    cbn [snd]. refine (proj2 (Hc c _ _ Ea)). reflexivity.
Qed.

Lemma load_fold_In (fls : list string) (items : list DirectTransferEntry) :
  forall acc k v,
  In (k, v) (fold_left (fun acc e =>
                          if existsb (String.eqb (stored_filename e)) fls
                          then dict_set acc (id e) (load_entry e) else acc) items acc) ->
  In (k, v) acc \/ exists e, In e items /\ k = id e /\ v = load_entry e.
Proof.
  induction items as [|e items IH]; intros acc k v H; cbn [fold_left] in H; [left; exact H|].
  destruct (IH _ k v H) as [H'|(e' & He' & Hk & Hv)].
  - destruct (existsb (String.eqb (stored_filename e)) fls); [|left; exact H'].
    apply dict_set_In in H' as [H'|[-> ->]]; [left; exact H'|].
    right. exists e. split; [left; reflexivity | split; reflexivity].
  - right. exists e'. split; [right; exact He' | split; assumption].
Qed.

Lemma load_inv (m : option (list DirectTransferEntry)) (fls : list string) :
  (forall items e, m = Some items -> In e items -> R e) -> inv P R (load m fls).
Proof.
  intros Hm. unfold load. destruct m as [items|].
  - split; cbn [set_entries entries meta].
    + intros k v H. apply load_fold_In in H as [[]|(e & He & -> & ->)].
      apply load_ok, (Hm items e eq_refl He).
    + intros its e Heq He. injection Heq as <-. exact (Hm items e eq_refl He).
  - split; cbn [entries meta]; [intros k e []| intros items e H; discriminate H].
Qed.

Lemma step_inv (st : Store) (o : op) :
  inv P R st ->
  (forall c e', id e' = c -> may_allocate o c -> P c e' /\ R e') ->
  inv P R (step st o).
Proof.
  intros Hinv Hc. destruct o; cbn [step].
  - exact (inv_shrinks _ _ Hinv (prepare_download_shrinks _ _ _ _)).
  - exact (inv_shrinks _ _ Hinv (shrinks_delete_file _ _ _ (shrinks_refl st))).
  - exact (inv_shrinks _ _ Hinv (delete_transfer_shrinks _ _ _ _)).
  - exact (inv_shrinks _ _ Hinv (list_transfers_shrinks _ _ _ _)).
  - apply create_transfer_inv; [exact Hinv|]. exact Hc.
  - apply load_inv. exact (proj2 Hinv).
Qed.

Lemma run_inv (trace : list op) :
  forall st, inv P R st ->
  Forall (fun o => forall c e', id e' = c -> may_allocate o c -> P c e' /\ R e') trace ->
  inv P R (run st trace).
Proof.
  unfold run. induction trace as [|o trace IH]; intros st Hinv Hall; cbn [fold_left];
    [exact Hinv|].
  inversion Hall as [|o' tr' Ho Hrest]; subst.
  apply IH; [apply step_inv; assumption | exact Hrest].
Qed.

End Invariant.

(** Every store reachable from a start-up is keyed by the ids. *)
Lemma keyed_by_id_run (m : option (list DirectTransferEntry)) (fls : list string)
  (trace : list op) : keyed_by_id (run (load m fls) trace).
Proof.
  unfold keyed_by_id. apply run_inv.
  - intros e _. split; reflexivity.
  - apply load_inv; [intros e _; split; reflexivity | intros; exact I].
  - apply Forall_forall. intros o _ c e' <- _. split; [reflexivity | exact I].
Qed.

Lemma id_gone_run (tid : string) (trace : list op) (st : Store) :
  id_gone tid st -> Forall (fun o => ~ may_allocate o tid) trace ->
  id_gone tid (run st trace).
Proof.
  intros Hst Hall. unfold id_gone. apply run_inv; [| exact Hst |].
  - intros e He. split; exact He.
  - eapply Forall_impl; [|exact Hall]. cbn beta.
    intros o Ho c e' <- Hm. split; intros Heq; apply Ho; rewrite <- Heq; exact Hm.
Qed.

Lemma prepare_download_gone (tid : string) (st : Store) (now : Q) (u : string) :
  id_gone tid st -> fst (prepare_download st now tid u) = DErr 404.
Proof.
  intros Hst. unfold prepare_download. cbv zeta.
  pose proof (inv_shrinks _ _ _ _ Hst (prune_locked_shrinks now st))
    as [H1 _].
  rewrite (dict_get_None _ _ (fun k v H => proj1 (H1 k v H))). reflexivity.
Qed.

(** C4: a successful [prepare_download] of [tid] (on a store keyed by
    ids, as every reachable store is, see [keyed_by_id_run]) leaves no
    entry for [tid] in memory and has rewritten [transfers.json] from the
    remaining entries, none of which has id [tid]; from then on, through
    any sequence of operations (downloads, cleanups, deletions, listings,
    uploads that do not draw [tid] as a fresh id, restarts), every
    [prepare_download] of [tid] by any user fails with 404. *)
Theorem prepare_download_at_most_once (st : Store) (now : Q) (tid u : string)
  (e : DirectTransferEntry) (st' : Store)
  (Hwf : keyed_by_id st)
  (Hok : prepare_download st now tid u = (DOk e, st')) :
  dict_get (entries st') tid = None /\
  meta st' = Some (map snd (entries st')) /\
  (forall e', In e' (map snd (entries st')) -> id e' <> tid) /\
  (forall trace now' u', Forall (fun o => ~ may_allocate o tid) trace ->
     fst (prepare_download (run st' trace) now' tid u') = DErr 404).
Proof.
  unfold prepare_download in Hok. cbv zeta in Hok.
  pose proof (inv_shrinks _ _ _ _ Hwf
                (prune_locked_shrinks now st)) as [Hwf1 _].
  destruct (dict_get (entries (prune_locked now st)) tid) as [e0|]; [|discriminate Hok].
  destruct (negb (String.eqb (recipient e0) u)); [discriminate Hok|].
  destruct (negb (file_exists (prune_locked now st) (stored_filename e0))); [discriminate Hok|].
  injection Hok as <- <-.
  assert (Hgone : id_gone tid (save_locked (set_entries (prune_locked now st)
                    (dict_pop (entries (prune_locked now st)) tid)))).
  { assert (Hent : forall k v, In (k, v) (dict_pop (entries (prune_locked now st)) tid) ->
                   k <> tid /\ id v <> tid).
    { intros k v H. apply dict_pop_In in H as [H Hk]. cbn [fst] in Hk.
      split; [exact Hk|]. rewrite <- (proj1 (Hwf1 k v H)). exact Hk. }
    split; [exact Hent|].
    intros items v Hm Hv. cbn [save_locked meta] in Hm. injection Hm as <-.
    apply in_map_iff in Hv as ([k v'] & <- & Hin). exact (proj2 (Hent k v' Hin)). }
  split; [exact (dict_get_None _ _ (fun k v H => proj1 (proj1 Hgone k v H)))|].
  split; [reflexivity|].
  split.
  - intros e' He'. apply in_map_iff in He' as ([k v] & <- & Hin).
    exact (proj2 (proj1 Hgone k v Hin)).
  - intros trace now' u' Hall. apply prepare_download_gone, id_gone_run; assumption.
Qed.

Definition demo_trace : list op :=
  [OpCreate 0%Q "alice" "bob" "a.txt" "" [Byte.x61] None None ["abc123"]].

Definition demo_entry : DirectTransferEntry :=
  {| id := "abc123"; sender := "alice"; recipient := "bob"; filename := "a.txt";
     stored_filename := "abc123.txt"; size := 1%Z;
     content_type := "application/octet-stream"; created_at := 0%Q; expires_at := None |}.

Lemma prepare_download_at_most_once_witness :
  prepare_download (run (load None []) demo_trace) 1%Q "abc123" "bob"
    = (DOk demo_entry,
       snd (prepare_download (run (load None []) demo_trace) 1%Q "abc123" "bob")) /\
  fst (prepare_download
         (run (snd (prepare_download (run (load None []) demo_trace) 1%Q "abc123" "bob"))
              [OpRestart]) 2%Q "abc123" "carol") = DErr 404.
Proof.
  assert (Hok : prepare_download (run (load None []) demo_trace) 1%Q "abc123" "bob"
                = (DOk demo_entry,
                   snd (prepare_download (run (load None []) demo_trace) 1%Q "abc123" "bob")))
    by (vm_compute; reflexivity).
  split; [exact Hok|].
  exact (proj2 (proj2 (proj2 (prepare_download_at_most_once
           (run (load None []) demo_trace) 1%Q "abc123" "bob" demo_entry
           (snd (prepare_download (run (load None []) demo_trace) 1%Q "abc123" "bob"))
           (keyed_by_id_run None [] demo_trace) Hok)))
           [OpRestart] 2%Q "carol" ltac:(constructor; [cbn; intros H; exact H | constructor])).
Defined.

End DirectTransferFacts.

(* ===================================================================== *)
(** ** Strings as lists of characters *)
(* ===================================================================== *)

Module StrFacts.
Import Py.

Lemma chars_app (s t : string) : chars (s ++ t) = (chars s ++ chars t)%list.
Proof. induction s as [|c s IH]; cbn; [reflexivity|]. unfold chars in IH. now rewrite IH. Qed.

Lemma chars_of (l : list ascii) : chars (string_of_list_ascii l) = l.
Proof. apply list_ascii_of_string_of_list_ascii. Qed.

Lemma of_chars (s : string) : string_of_list_ascii (chars s) = s.
Proof. apply string_of_list_ascii_of_string. Qed.

Lemma chars_inj (s t : string) : chars s = chars t -> s = t.
Proof. intros H. rewrite <- (of_chars s), <- (of_chars t), H. reflexivity. Qed.

Lemma length_chars (s : string) : String.length s = List.length (chars s).
Proof. induction s as [|c s IH]; cbn; [reflexivity|]. unfold chars in IH. now rewrite IH. Qed.

Lemma chars_substring (n m : nat) (s : string) :
  chars (substring n m s) = firstn m (skipn n (chars s)).
Proof.
  revert n m. induction s as [|c s IH]; intros n m.
  - destruct n, m; reflexivity.
  - destruct n as [|n].
    + destruct m as [|m]; [reflexivity|]. cbn. f_equal.
      specialize (IH 0%nat m). cbn in IH. exact IH.
    + cbn. apply IH.
Qed.

Lemma startswith_app (p s : string) : startswith (p ++ s) p = true.
Proof.
  unfold startswith. induction p as [|c p IH]; cbn.
  - destruct s; reflexivity.
  - destruct (ascii_dec c c) as [_|n]; [exact IH|congruence].
Qed.

Lemma startswith_char_false (c d : ascii) (s : string) :
  c <> d -> startswith (String c s) (String d EmptyString) = false.
Proof.
  intros H. unfold startswith. cbn.
  destruct (ascii_dec d c) as [E|_]; [congruence|reflexivity].
Qed.

Lemma endswith_char (s : string) (c : ascii) :
  endswith s (String c EmptyString) =
  match rev (chars s) with d :: _ => Ascii.eqb d c | [] => false end.
Proof.
  unfold endswith. cbn [String.length].
  rewrite length_chars.
  destruct (rev (chars s)) as [|d r] eqn:E.
  - apply (f_equal (@rev ascii)) in E. rewrite rev_involutive in E. cbn in E.
    rewrite E. reflexivity.
  - assert (Hs : chars s = (rev r ++ [d])%list).
    { rewrite <- (rev_involutive (chars s)), E. reflexivity. }
    rewrite Hs, length_app. cbn [List.length].
    replace (List.length (rev r) + 1)%nat with (S (List.length (rev r))) by lia.
    cbn [Nat.leb]. rewrite Nat.sub_succ, Nat.sub_0_r, Bool.andb_true_l.
    assert (Hsub : substring (List.length (rev r)) 1 s = String d EmptyString).
    { apply chars_inj. rewrite chars_substring, Hs.
      rewrite skipn_app, skipn_all, Nat.sub_diag. reflexivity. }
    rewrite Hsub. destruct (Ascii.eqb d c) eqn:Ed.
    + apply Ascii.eqb_eq in Ed. subst. apply String.eqb_eq. reflexivity.
    + apply String.eqb_neq. intros Heq. inversion Heq. subst.
      now rewrite Ascii.eqb_refl in Ed.
Qed.

Lemma contains_char_app (c : ascii) (s t : string) :
  contains_char c (s ++ t) = contains_char c s || contains_char c t.
Proof. unfold contains_char. rewrite chars_app. apply existsb_app. Qed.

End StrFacts.

(* ===================================================================== *)
(** ** [int()] and [str()] on decimal numerals *)
(* ===================================================================== *)

Module PyIntFacts.
Import Py PyInt StrFacts.

(** The value of a list of decimal digits. *)
Definition dv (l : list ascii) : Z :=
  fold_left (fun acc c => acc * 10 + digit_val c)%Z l 0%Z.

Definition all_digits (l : list ascii) : Prop := Forall (fun c => is_ascii_digit c = true) l.

Lemma dec_value_dv (l : list ascii) : dec_value (string_of_list_ascii l) = dv l.
Proof. unfold dec_value. now rewrite chars_of. Qed.

Lemma dv_snoc (l : list ascii) (c : ascii) : dv (l ++ [c])%list = (dv l * 10 + digit_val c)%Z.
Proof. unfold dv. now rewrite fold_left_app. Qed.

Lemma digit_char_code (d : Z) : (0 <= d < 10)%Z -> code (digit_char d) = (48 + Z.to_nat d)%nat.
Proof. intros H. unfold code, digit_char. apply nat_ascii_embedding. lia. Qed.

Lemma digit_char_ok (d : Z) :
  (0 <= d < 10)%Z -> digit_val (digit_char d) = d /\ is_ascii_digit (digit_char d) = true.
Proof.
  intros H. unfold digit_val, is_ascii_digit. rewrite digit_char_code by exact H.
  split; [lia|]. apply andb_true_intro; split; apply Nat.leb_le; lia.
Qed.

Lemma nat_digits_ok (f : nat) (n : Z) :
  (0 <= n < 10 ^ Z.of_nat f)%Z ->
  dv (nat_digits f n) = n /\ all_digits (nat_digits f n).
Proof.
  revert n. induction f as [|f IH]; intros n Hn.
  - cbn in Hn. cbn. split; [lia|constructor].
  - cbn [nat_digits]. destruct (n <? 10)%Z eqn:E.
    + apply Z.ltb_lt in E. destruct (digit_char_ok n) as [H1 H2]; [lia|].
      split; [change (0 * 10 + digit_val (digit_char n) = n)%Z; lia|].
      repeat constructor; exact H2.
    + apply Z.ltb_ge in E.
      assert (Hq : (0 <= n / 10 < 10 ^ Z.of_nat f)%Z).
      { split; [apply Z.div_pos; lia|].
        apply Z.div_lt_upper_bound; [lia|].
        rewrite Nat2Z.inj_succ, Z.pow_succ_r in Hn by lia. lia. }
      destruct (IH _ Hq) as [H1 H2].
      destruct (digit_char_ok (n mod 10)) as [H3 H4]; [apply Z.mod_pos_bound; lia|].
      split.
      * rewrite dv_snoc, H1, H3. pose proof (Z.div_mod n 10). lia.
      * apply Forall_app; split; [exact H2|]. repeat constructor; exact H4.
Qed.

Lemma nat_digits_nonempty (f : nat) (n : Z) : nat_digits (S f) n <> [].
Proof.
  cbn. destruct (n <? 10)%Z; [discriminate|].
  intros H. apply app_eq_nil in H. destruct H as [_ H]. discriminate.
Qed.

Lemma decimal_digits_ok (n : Z) :
  (0 <= n)%Z ->
  dv (decimal_digits n) = n /\ all_digits (decimal_digits n) /\ decimal_digits n <> [].
Proof.
  intros Hn. unfold decimal_digits.
  split; [|split; [|apply nat_digits_nonempty]]; apply nat_digits_ok.
  - split; [exact Hn|].
    rewrite Nat2Z.inj_succ, Z2Nat.id by apply Z.log2_nonneg.
    destruct (Z.eq_dec n 0) as [->|Hne]; [reflexivity|].
    destruct (Z.log2_spec n) as [_ H]; [lia|].
    eapply Z.lt_le_trans; [exact H|]. apply Z.pow_le_mono_l.
    split; lia.
  - split; [exact Hn|].
    rewrite Nat2Z.inj_succ, Z2Nat.id by apply Z.log2_nonneg.
    destruct (Z.eq_dec n 0) as [->|Hne]; [reflexivity|].
    destruct (Z.log2_spec n) as [_ H]; [lia|].
    eapply Z.lt_le_trans; [exact H|]. apply Z.pow_le_mono_l.
    split; lia.
Qed.

Lemma strip_underscores_digits (l : list ascii) :
  all_digits l -> strip_underscores l = Some l.
Proof.
  induction 1 as [|c l Hc _ IH]; [reflexivity|]. cbn. now rewrite Hc, IH.
Qed.

Lemma digit_eqb_false (c x : ascii) :
  is_ascii_digit c = true -> (code x < 48 \/ 57 < code x)%nat -> Ascii.eqb c x = false.
Proof.
  intros Hc Hx. unfold is_ascii_digit in Hc. apply andb_prop in Hc.
  destruct Hc as [H1 H2]. apply Nat.leb_le in H1, H2.
  destruct (Ascii.eqb c x) eqn:E; [|reflexivity].
  apply Ascii.eqb_eq in E. subst. lia.
Qed.

Lemma code_ascii_of_nat (k : nat) : (k < 256)%nat -> code (ascii_of_nat k) = k.
Proof. apply nat_ascii_embedding. Qed.

Lemma not_whitespace (c : ascii) :
  (code c < 9 \/ 13 < code c < 28 \/ 32 < code c < 133 \/ 133 < code c < 160 \/ 160 < code c)%nat ->
  contains_char c latin1_whitespace = false.
Proof.
  intros H. unfold contains_char, latin1_whitespace. rewrite chars_of.
  destruct (existsb _ _) eqn:E; [|reflexivity].
  apply existsb_exists in E. destruct E as [x [Hx Heq]].
  apply Ascii.eqb_eq in Heq. subst x.
  apply in_map_iff in Hx. destruct Hx as [k [Hk Hin]].
  assert (Hk' : code c = k) by (subst c; apply code_ascii_of_nat; cbn in Hin; lia).
  cbn in Hin. lia.
Qed.

Lemma digit_not_whitespace (c : ascii) :
  is_ascii_digit c = true -> contains_char c latin1_whitespace = false.
Proof.
  intros Hc. apply not_whitespace. unfold is_ascii_digit in Hc.
  apply andb_prop in Hc. destruct Hc as [H1 H2]. apply Nat.leb_le in H1, H2. lia.
Qed.

Lemma chars_rev_string (s : string) : chars (rev_string s) = rev (chars s).
Proof. unfold rev_string. apply chars_of. Qed.

Lemma rev_string_involutive (s : string) : rev_string (rev_string s) = s.
Proof. apply chars_inj. now rewrite !chars_rev_string, rev_involutive. Qed.

Lemma lstrip_set_id (set s : string) :
  match chars s with c :: _ => contains_char c set = false | [] => True end ->
  lstrip_set set s = s.
Proof. destruct s as [|c s]; [reflexivity|]. cbn. intros H. now rewrite H. Qed.

Lemma strip_set_id (set s : string) :
  match chars s with c :: _ => contains_char c set = false | [] => True end ->
  match rev (chars s) with c :: _ => contains_char c set = false | [] => True end ->
  strip_set set s = s.
Proof.
  intros H1 H2. unfold strip_set. rewrite (lstrip_set_id set s H1).
  rewrite (lstrip_set_id set (rev_string s)) by (now rewrite chars_rev_string).
  apply rev_string_involutive.
Qed.

(** [int()] reads back a run of at most 4300 digits, with an optional
    leading minus. *)
Lemma py_int_digits (sign : string) (ds : list ascii) :
  (sign = "" \/ sign = "-") -> ds <> [] -> all_digits ds ->
  (List.length ds <= max_str_digits)%nat ->
  py_int (sign ++ string_of_list_ascii ds) =
  Some ((if String.eqb sign "" then 1 else -1) * dv ds)%Z.
Proof.
  intros Hsign Hne Hd Hlen. unfold py_int.
  assert (Hlast : match rev ds with c :: _ => is_ascii_digit c = true | [] => False end).
  { destruct (rev ds) as [|c r] eqn:E.
    - apply (f_equal (@rev ascii)) in E. rewrite rev_involutive in E. contradiction.
    - assert (In c (rev ds)) as Hin by (rewrite E; left; reflexivity).
      apply in_rev in Hin. exact (proj1 (Forall_forall _ _) Hd c Hin). }
  rewrite strip_set_id.
  2:{ rewrite chars_app, chars_of.
      destruct Hsign as [->| ->]; cbn.
      - destruct ds as [|c r]; [contradiction|]. inversion Hd; subst.
        now apply digit_not_whitespace.
      - first [reflexivity | apply not_whitespace; cbn; lia]. }
  2:{ rewrite chars_app, chars_of, rev_app_distr.
      destruct (rev ds) as [|c r]; [contradiction|]. cbn.
      now apply digit_not_whitespace. }
  rewrite chars_app, chars_of.
  destruct ds as [|c r]; [contradiction|].
  assert (Hc : is_ascii_digit c = true) by (inversion Hd; assumption).
  destruct Hsign as [->| ->]; cbn [chars list_ascii_of_string app].
  - rewrite (digit_eqb_false c "-"%char Hc) by (cbn; lia).
    rewrite (digit_eqb_false c "+"%char Hc) by (cbn; lia).
    rewrite Hc, strip_underscores_digits by exact Hd.
    apply Nat.ltb_ge in Hlen. rewrite Hlen, dec_value_dv. reflexivity.
  - cbn [Ascii.eqb Bool.eqb]. rewrite Hc, strip_underscores_digits by exact Hd.
    apply Nat.ltb_ge in Hlen. rewrite Hlen, dec_value_dv. reflexivity.
Qed.

(** What [str()] prints for an integer. *)
Lemma py_str_int_Some (n : Z) (s : string) :
  py_str_int n = Some s ->
  exists ds, s = ((if (n <? 0)%Z then "-" else "") ++ string_of_list_ascii ds) /\
             ds <> [] /\ all_digits ds /\ (List.length ds <= max_str_digits)%nat /\
             dv ds = Z.abs n.
Proof.
  unfold py_str_int. destruct (_ <? _)%nat eqn:E; [discriminate|].
  intros H. injection H as <-. apply Nat.ltb_ge in E.
  destruct (decimal_digits_ok (Z.abs n)) as (H1 & H2 & H3); [lia|].
  exists (decimal_digits (Z.abs n)). repeat split; assumption.
Qed.

End PyIntFacts.

(* ===================================================================== *)
(** ** [app/utils.py]: Range and Content-Range headers *)
(* ===================================================================== *)

Module HeadersFacts.
Import Py PyInt Range Headers StrFacts PyIntFacts.

Lemma chars_drop (k : nat) (s : string) : chars (drop k s) = skipn k (chars s).
Proof.
  unfold drop. rewrite chars_substring, length_chars. apply firstn_all2.
  rewrite length_skipn. lia.
Qed.

Lemma chars_drop_last (s : string) : chars (drop_last s) = firstn (List.length (chars s) - 1) (chars s).
Proof. unfold drop_last. now rewrite chars_substring, length_chars. Qed.

Lemma span_digits_app (ds r : list ascii) :
  all_digits ds -> span_digits (ds ++ r)%list = let '(a, b) := span_digits r in ((ds ++ a)%list, b).
Proof.
  induction 1 as [|c l Hc _ IH]; cbn.
  - destruct (span_digits r); reflexivity.
  - rewrite Hc, IH. destruct (span_digits r); reflexivity.
Qed.

Lemma span_digits_stop (c : ascii) (r : list ascii) :
  is_ascii_digit c = false -> span_digits (c :: r) = ([], c :: r).
Proof. intros H. cbn. now rewrite H. Qed.

Lemma int_digits_ok (ds : list ascii) :
  (List.length ds <= max_str_digits)%nat -> int_digits ds = PyOk (dv ds).
Proof.
  intros H. unfold int_digits. apply Nat.ltb_ge in H. now rewrite H, dec_value_dv.
Qed.

Lemma existsb_digits_false (x : ascii) (ds : list ascii) :
  (code x < 48 \/ 57 < code x)%nat -> all_digits ds -> existsb (Ascii.eqb x) ds = false.
Proof.
  intros Hx. induction 1 as [|c l Hc _ IH]; [reflexivity|]. cbn.
  rewrite Ascii.eqb_sym, (digit_eqb_false c x Hc Hx). exact IH.
Qed.

Lemma split_once_digits (ds : list ascii) (rest : string) :
  all_digits ds ->
  split_once "-"%char (string_of_list_ascii ds ++ String "-"%char rest) = (string_of_list_ascii ds, rest).
Proof.
  induction 1 as [|c l Hc _ IH]; [reflexivity|]. cbn.
  rewrite (digit_eqb_false c "-"%char Hc) by (cbn; lia). cbn in IH. now rewrite IH.
Qed.

Lemma py_int_plain (ds : list ascii) :
  ds <> [] -> all_digits ds -> (List.length ds <= max_str_digits)%nat ->
  py_int (string_of_list_ascii ds) = Some (dv ds).
Proof.
  intros H1 H2 H3. rewrite <- (Z.mul_1_l (dv ds)).
  exact (py_int_digits "" ds (or_introl eq_refl) H1 H2 H3).
Qed.

Lemma digits_head (ds : list ascii) :
  ds <> [] -> all_digits ds -> exists c r, ds = c :: r /\ is_ascii_digit c = true.
Proof.
  intros H1 H2. destruct ds as [|c r]; [contradiction|]. inversion H2; subst. eauto.
Qed.

Lemma digits_last (ds : list ascii) :
  ds <> [] -> all_digits ds -> exists c r, rev ds = c :: r /\ is_ascii_digit c = true.
Proof.
  intros H1 H2. destruct (rev ds) as [|c r] eqn:E.
  - apply (f_equal (@rev ascii)) in E. rewrite rev_involutive in E. contradiction.
  - exists c, r. split; [reflexivity|].
    assert (In c (rev ds)) as Hin by (rewrite E; left; reflexivity).
    apply in_rev in Hin. exact (proj1 (Forall_forall _ _) H2 c Hin).
Qed.

Lemma skipn_bytes (r : string) : skipn 6 (chars ("bytes " ++ r)) = chars r.
Proof. rewrite chars_app. reflexivity. Qed.

Lemma skipn_bytes_eq (r : string) : drop 6 ("bytes=" ++ r) = r.
Proof. apply chars_inj. rewrite chars_drop, chars_app. reflexivity. Qed.

Ltac fold_bytes_space :=
  match goal with
  | |- context [String "b"%char (String "y"%char (String "t"%char (String "e"%char
                 (String "s"%char (String " "%char ?X)))))] =>
      lazymatch X with EmptyString => fail | _ => idtac end;
      change (String "b"%char (String "y"%char (String "t"%char (String "e"%char
                 (String "s"%char (String " "%char X)))))) with ("bytes " ++ X)
  end.

Ltac fold_bytes_eq :=
  match goal with
  | |- context [String "b"%char (String "y"%char (String "t"%char (String "e"%char
                 (String "s"%char (String "="%char ?X)))))] =>
      lazymatch X with EmptyString => fail | _ => idtac end;
      change (String "b"%char (String "y"%char (String "t"%char (String "e"%char
                 (String "s"%char (String "="%char X)))))) with ("bytes=" ++ X)
  end.

Lemma string_eqb_bytes (s : string) : String.eqb ("bytes " ++ s) "" = false.
Proof. reflexivity. Qed.

Lemma string_eqb_bytes_eq (s : string) : String.eqb ("bytes=" ++ s) "" = false.
Proof. reflexivity. Qed.

Lemma chars_cons (c : ascii) (s : string) : chars (String c s) = c :: chars s.
Proof. reflexivity. Qed.

Lemma chars_sign (b : bool) : chars (if b then "-" else "") = if b then ["-"%char] else [].
Proof. now destruct b. Qed.

Lemma parse_create_content_range (s e t : Z) (h : string) :
  create_content_range_header s e t = Some h ->
  parse_content_range h =
  PyOk (if (0 <=? s)%Z && (0 <=? e)%Z && (0 <=? t)%Z then Some (s, e, t) else None).
Proof.
  unfold create_content_range_header.
  destruct (py_str_int s) as [ss|] eqn:Es; [|discriminate].
  destruct (py_str_int e) as [se|] eqn:Ee; [|discriminate].
  destruct (py_str_int t) as [st|] eqn:Et; [|discriminate].
  intros H. injection H as <-.
  apply py_str_int_Some in Es as (d1 & -> & Hn1 & Hd1 & Hl1 & Hv1).
  apply py_str_int_Some in Ee as (d2 & -> & Hn2 & Hd2 & Hl2 & Hv2).
  apply py_str_int_Some in Et as (d3 & -> & Hn3 & Hd3 & Hl3 & Hv3).
  unfold parse_content_range. fold_bytes_space.
  rewrite string_eqb_bytes, startswith_app, skipn_bytes. cbn [negb].
  repeat rewrite ?chars_app, ?chars_cons, ?chars_sign, ?chars_of.
  destruct (digits_head d1 Hn1 Hd1) as (c1 & r1 & E1 & _).
  destruct (digits_head d2 Hn2 Hd2) as (c2 & r2 & E2 & _).
  destruct (digits_head d3 Hn3 Hd3) as (c3 & r3 & E3 & _).
  destruct (s <? 0)%Z eqn:Ls.
  { cbn [app]. rewrite span_digits_stop by reflexivity. apply Z.ltb_lt in Ls.
    replace (0 <=? s)%Z with false by lia. reflexivity. }
  apply Z.ltb_ge in Ls. replace (0 <=? s)%Z with true by lia. cbn [app andb].
  rewrite span_digits_app, span_digits_stop by (reflexivity || exact Hd1).
  rewrite app_nil_r. rewrite E1 at 1. cbn [Ascii.eqb Bool.eqb negb].
  destruct (e <? 0)%Z eqn:Le.
  { cbn [app]. rewrite span_digits_stop by reflexivity. apply Z.ltb_lt in Le.
    replace (0 <=? e)%Z with false by lia. reflexivity. }
  apply Z.ltb_ge in Le. replace (0 <=? e)%Z with true by lia. cbn [app andb].
  rewrite span_digits_app, span_digits_stop by (reflexivity || exact Hd2).
  rewrite app_nil_r. rewrite E2 at 1. cbn [Ascii.eqb Bool.eqb negb].
  destruct (t <? 0)%Z eqn:Lt.
  { cbn [app]. rewrite span_digits_stop by reflexivity. apply Z.ltb_lt in Lt.
    replace (0 <=? t)%Z with false by lia. reflexivity. }
  apply Z.ltb_ge in Lt. replace (0 <=? t)%Z with true by lia. cbn [app].
  rewrite <- (app_nil_r d3), span_digits_app by exact Hd3. cbn [span_digits].
  rewrite app_nil_r. rewrite E3 at 1.
  unfold bind3. rewrite !int_digits_ok by assumption.
  rewrite Hv1, Hv2, Hv3, !Z.abs_eq by lia. reflexivity.
Qed.

(** Content-Range round trip: the header [create_content_range_header]
    writes is read back by [parse_content_range] exactly when the three
    numbers are non-negative; a negative one (such as the total [-1] that
    [parse_content_range] returns for an asterisk) makes the header
    unparseable. *)
Theorem content_range_roundtrip (s e t : Z) (h : string) :
  create_content_range_header s e t = Some h ->
  parse_content_range h =
  PyOk (if (0 <=? s)%Z && (0 <=? e)%Z && (0 <=? t)%Z then Some (s, e, t) else None).
Proof. apply parse_create_content_range. Qed.

Lemma content_range_roundtrip_witness :
  create_content_range_header 0 499 1234 = Some "bytes 0-499/1234" /\
  parse_content_range "bytes 0-499/1234" = PyOk (Some (0%Z, 499%Z, 1234%Z)).
Proof.
  split; [vm_compute; reflexivity|].
  exact (content_range_roundtrip 0 499 1234 "bytes 0-499/1234" ltac:(vm_compute; reflexivity)).
Defined.

Lemma contains_digits (x : ascii) (ds : list ascii) :
  (code x < 48 \/ 57 < code x)%nat -> all_digits ds ->
  contains_char x (string_of_list_ascii ds) = false.
Proof. intros H1 H2. unfold contains_char. rewrite chars_of. now apply existsb_digits_false. Qed.

Lemma startswith_digits (ds : list ascii) (x : string) :
  ds <> [] -> all_digits ds -> startswith (string_of_list_ascii ds ++ x) "-" = false.
Proof.
  intros H1 H2. destruct (digits_head ds H1 H2) as (c & r & -> & Hc).
  apply startswith_char_false. intros E. subst c. discriminate Hc.
Qed.

Lemma endswith_dash_false (s : string) (c : ascii) (r : list ascii) :
  rev (chars s) = c :: r -> is_ascii_digit c = true -> endswith s "-" = false.
Proof.
  intros E Hc. rewrite endswith_char, E. apply (digit_eqb_false c "-"%char Hc). cbn. lia.
Qed.

Lemma endswith_dash_true (s : string) : endswith (s ++ "-") "-" = true.
Proof. rewrite endswith_char, chars_app, rev_app_distr. reflexivity. Qed.

Lemma drop_last_dash (s : string) : drop_last (s ++ "-") = s.
Proof.
  apply chars_inj. rewrite chars_drop_last, chars_app, length_app. cbn [chars list_ascii_of_string List.length].
  replace (List.length (chars s) + 1 - 1)%nat with (List.length (chars s)) by lia.
  rewrite firstn_app, Nat.sub_diag, firstn_all. apply app_nil_r.
Qed.

Lemma drop_one_dash (s : string) : drop 1 ("-" ++ s) = s.
Proof. apply chars_inj. now rewrite chars_drop. Qed.

Lemma nonneg_digits (n : Z) (s : string) :
  (0 <= n)%Z -> py_str_int n = Some s ->
  exists ds, s = string_of_list_ascii ds /\ ds <> [] /\ all_digits ds /\
             (List.length ds <= max_str_digits)%nat /\ dv ds = n.
Proof.
  intros Hn H. apply py_str_int_Some in H as (ds & -> & H1 & H2 & H3 & H4).
  replace (n <? 0)%Z with false by lia. exists ds. repeat split; try assumption. lia.
Qed.

Lemma parse_http_range_forms (a b : Z) (sa sb : string) :
  (0 <= a)%Z -> (0 <= b)%Z -> py_str_int a = Some sa -> py_str_int b = Some sb ->
  parse_http_range ("bytes=" ++ sa ++ "-" ++ sb) =
    Some {| start := Some a; end_ := Some b; suffix_length := None |} /\
  parse_http_range ("bytes=" ++ sa ++ "-") =
    Some {| start := Some a; end_ := None; suffix_length := None |} /\
  parse_http_range ("bytes=" ++ "-" ++ sb) =
    Some {| start := None; end_ := None; suffix_length := Some b |}.
Proof.
  intros Ha Hb Ea Eb.
  destruct (nonneg_digits a sa Ha Ea) as (d1 & -> & Hn1 & Hd1 & Hl1 & Hv1).
  destruct (nonneg_digits b sb Hb Eb) as (d2 & -> & Hn2 & Hd2 & Hl2 & Hv2).
  assert (Hc1 : contains_char ","%char (string_of_list_ascii d1) = false)
    by (apply contains_digits; [cbn; lia | exact Hd1]).
  assert (Hc2 : contains_char ","%char (string_of_list_ascii d2) = false)
    by (apply contains_digits; [cbn; lia | exact Hd2]).
  assert (Hcd : contains_char ","%char "-" = false) by reflexivity.
  assert (Hdd : contains_char "-"%char "-" = true) by reflexivity.
  split; [|split]; unfold parse_http_range;
    rewrite string_eqb_bytes_eq, startswith_app, skipn_bytes_eq; cbn [negb];
    rewrite ?contains_char_app, ?Hc1, ?Hc2, ?Hcd; cbn [orb].
  - rewrite startswith_digits by assumption.
    destruct (digits_last d2 Hn2 Hd2) as (c & r & Er & Hc).
    rewrite (endswith_dash_false _ c ((r ++ ["-"%char]) ++ rev d1)%list).
    2:{ rewrite !chars_app, !chars_of, !rev_app_distr, Er. reflexivity. }
    2:{ exact Hc. }
    rewrite !contains_char_app, Hdd, !orb_true_r.
    change ("-" ++ string_of_list_ascii d2) with (String "-"%char (string_of_list_ascii d2)).
    rewrite split_once_digits by exact Hd1.
    rewrite (py_int_plain d1), (py_int_plain d2) by assumption.
    now rewrite Hv1, Hv2.
  - rewrite startswith_digits by assumption.
    rewrite endswith_dash_true, drop_last_dash, (py_int_plain d1) by assumption.
    now rewrite Hv1.
  - rewrite startswith_app, drop_one_dash, (py_int_plain d2) by assumption.
    now rewrite Hv2.
Qed.

(** Range round trip: the three forms the docstring lists,
    [bytes=a-b], [bytes=a-] and [bytes=-k], with [a], [b] and [k] written
    in decimal with at most 4300 digits (the bound of [str] and [int] on
    Python integers, see [py_str_int]), parse to the range they denote. *)
Theorem parse_http_range_roundtrip (a b : Z) (sa sb : string) :
  (0 <= a)%Z -> (0 <= b)%Z -> py_str_int a = Some sa -> py_str_int b = Some sb ->
  parse_http_range ("bytes=" ++ sa ++ "-" ++ sb) =
    Some {| start := Some a; end_ := Some b; suffix_length := None |} /\
  parse_http_range ("bytes=" ++ sa ++ "-") =
    Some {| start := Some a; end_ := None; suffix_length := None |} /\
  parse_http_range ("bytes=" ++ "-" ++ sb) =
    Some {| start := None; end_ := None; suffix_length := Some b |}.
Proof. apply parse_http_range_forms. Qed.

Lemma parse_http_range_roundtrip_witness :
  parse_http_range ("bytes=" ++ "10" ++ "-" ++ "20") =
    Some {| start := Some 10%Z; end_ := Some 20%Z; suffix_length := None |} /\
  parse_http_range ("bytes=" ++ "10" ++ "-") =
    Some {| start := Some 10%Z; end_ := None; suffix_length := None |} /\
  parse_http_range ("bytes=" ++ "-" ++ "20") =
    Some {| start := None; end_ := None; suffix_length := Some 20%Z |}.
Proof.
  exact (parse_http_range_roundtrip 10 20 "10" "20" ltac:(lia) ltac:(lia)
           ltac:(vm_compute; reflexivity) ltac:(vm_compute; reflexivity)).
Defined.

Lemma split_on_cons (sep : ascii) (s : string) : exists x xs, split_on sep s = x :: xs.
Proof.
  destruct s as [|c s]; cbn; [eauto|].
  destruct (Ascii.eqb c sep); [eauto|]. destruct (split_on sep s); eauto.
Qed.

Lemma split_on_first (sep : ascii) (r rest : string) :
  contains_char sep r = false -> hd "" (split_on sep (r ++ String sep rest)) = r.
Proof.
  induction r as [|c r IH]; intros H; cbn.
  - now rewrite Ascii.eqb_refl.
  - unfold contains_char in H. cbn in H. apply orb_false_elim in H as [H1 H2].
    rewrite Ascii.eqb_sym, H1.
    destruct (split_on_cons sep (r ++ String sep rest)) as (x & xs & E).
    rewrite E. cbn. f_equal. specialize (IH H2). rewrite E in IH. exact IH.
Qed.

Lemma contains_char_lstrip (c : ascii) (set s : string) :
  contains_char c s = false -> contains_char c (lstrip_set set s) = false.
Proof.
  induction s as [|d s IH]; intros H; cbn; [reflexivity|].
  destruct (contains_char d set); [|exact H].
  apply IH. unfold contains_char in H |- *. cbn in H. apply orb_false_elim in H. apply H.
Qed.

Lemma contains_char_rev (c : ascii) (s : string) :
  contains_char c (rev_string s) = contains_char c s.
Proof.
  unfold contains_char. rewrite chars_rev_string.
  destruct (existsb (Ascii.eqb c) (chars s)) eqn:E.
  - apply existsb_exists in E as (x & Hx & Hc). apply existsb_exists.
    exists x. split; [apply in_rev; rewrite rev_involutive; exact Hx | exact Hc].
  - apply Bool.not_true_iff_false. intros H. apply existsb_exists in H as (x & Hx & Hc).
    apply in_rev in Hx. rewrite (proj2 (existsb_exists _ _) (ex_intro _ x (conj Hx Hc))) in E.
    discriminate.
Qed.

Lemma contains_char_strip (c : ascii) (set s : string) :
  contains_char c s = false -> contains_char c (strip_set set s) = false.
Proof.
  intros H. unfold strip_set. rewrite contains_char_rev.
  apply contains_char_lstrip. rewrite contains_char_rev. now apply contains_char_lstrip.
Qed.

(** Several ranges: [parse_http_range] parses the first comma-separated
    range, trimmed of white space, and ignores the others, whatever they
    contain. *)
Theorem parse_http_range_first_range (r rest : string) :
  contains_char ","%char r = false ->
  parse_http_range ("bytes=" ++ r ++ "," ++ rest) =
  parse_http_range ("bytes=" ++ strip_set latin1_whitespace r).
Proof.
  intros Hr. unfold parse_http_range.
  rewrite !string_eqb_bytes_eq, !startswith_app, !skipn_bytes_eq. cbn [negb].
  rewrite contains_char_app, (contains_char_strip _ _ _ Hr).
  replace (contains_char ","%char ("," ++ rest)) with true by reflexivity.
  rewrite orb_true_r.
  change ("," ++ rest) with (String ","%char rest). rewrite split_on_first by exact Hr.
  reflexivity.
Qed.

Lemma parse_http_range_first_range_witness :
  contains_char ","%char "0-99" = false /\
  parse_http_range ("bytes=" ++ "0-99" ++ "," ++ "x") =
  Some {| start := Some 0%Z; end_ := Some 99%Z; suffix_length := None |}.
Proof.
  split; [reflexivity|].
  rewrite (parse_http_range_first_range "0-99" "x" eq_refl).
  vm_compute. reflexivity.
Defined.

Lemma length_py_prefix (s : string) (k : Z) :
  (0 <= k)%Z -> Z.of_nat (String.length (Fs.py_prefix s k)) = Z.min k (Z.of_nat (String.length s)).
Proof.
  intros Hk. unfold Fs.py_prefix. replace (k <? 0)%Z with false by lia.
  rewrite length_chars, chars_substring, length_firstn. cbn [skipn].
  rewrite <- length_chars. lia.
Qed.

Lemma prefix_substring_0 (n : nat) (s : string) : String.prefix (substring 0 n s) s = true.
Proof.
  revert s. induction n as [|n IH]; intros s; [destruct s; reflexivity|].
  destruct s as [|c s]; [reflexivity|]. cbn.
  destruct (ascii_dec c c) as [_|Hc]; [apply IH | contradiction Hc; reflexivity].
Qed.

(** [truncate_string] with a suffix no longer than [max_length] returns
    a string of length [min(len(text), max_length)]: the text itself
    when it fits, and otherwise a prefix of the text of length
    [max_length - len(suffix)] followed by the suffix. *)
Theorem truncate_string_length (text : string) (max_length : Z) (suffix : string) :
  (Z.of_nat (String.length suffix) <= max_length)%Z ->
  Z.of_nat (String.length (truncate_string text max_length suffix)) =
    Z.min (Z.of_nat (String.length text)) max_length /\
  ((Z.of_nat (String.length text) <= max_length)%Z ->
   truncate_string text max_length suffix = text) /\
  ((max_length < Z.of_nat (String.length text))%Z ->
   exists p, String.prefix p text = true /\
     Z.of_nat (String.length p) = (max_length - Z.of_nat (String.length suffix))%Z /\
     truncate_string text max_length suffix = p ++ suffix).
Proof.
  intros H. unfold truncate_string.
  destruct (Z.of_nat (String.length text) <=? max_length)%Z eqn:E.
  - apply Z.leb_le in E. split; [lia|]. split; [reflexivity|]. intros. lia.
  - apply Z.leb_gt in E. split; [|split; [intros; lia|]].
    + rewrite length_chars, chars_app, length_app, Nat2Z.inj_add, <- !length_chars.
      rewrite length_py_prefix by lia. lia.
    + intros _. exists (Fs.py_prefix text (max_length - Z.of_nat (String.length suffix))).
      split; [unfold Fs.py_prefix; apply prefix_substring_0|].
      split; [|reflexivity].
      rewrite length_py_prefix by lia. lia.
Qed.

Lemma truncate_string_length_witness :
  (Z.of_nat (String.length "...") <= 8)%Z /\
  Z.of_nat (String.length (truncate_string "hello world" 8 "...")) = 8%Z.
Proof.
  split; [vm_compute; discriminate|].
  exact (eq_trans (proj1 (truncate_string_length "hello world" 8 "..." ltac:(vm_compute; discriminate)))
                  ltac:(vm_compute; reflexivity)).
Defined.

End HeadersFacts.

(* ===================================================================== *)
(** ** [app/fs.py]: [open_file_for_download] *)
(* ===================================================================== *)

Module DownloadFacts.
Import Py Range Fs Download.

Ltac split_cmp :=
  repeat match goal with
  | |- context [(?a >? ?b)%Z] => rewrite (Z.gtb_ltb a b)
  | |- context [(?a <=? ?b)%Z] => destruct (Z.leb_spec a b)
  | |- context [(?a <? ?b)%Z] => destruct (Z.ltb_spec a b)
  | |- context [(?a =? ?b)%Z] => destruct (Z.eqb_spec a b)
  end; cbn [andb orb negb] in *.

Lemma open_range_bounds (r : option HttpRange) (N s e : Z) :
  open_range r N = Some (s, e) -> (0 <= s <= e /\ e < N)%Z.
Proof.
  unfold open_range.
  destruct (match r with Some r0 => resolve r0 N | None => (0, N - 1)%Z end) as [s0 e0].
  split_cmp; cbn; intros Hx; try discriminate. injection Hx as <- <-. lia.
Qed.

Lemma open_range_nonpos (r : option HttpRange) (N : Z) :
  (N <= 0)%Z -> open_range r N = None.
Proof.
  intros HN. destruct r as [[st en [k|]]|]; unfold open_range, resolve; cbn;
    split_cmp; cbn; try reflexivity; lia.
Qed.

(** Which ranges [open_file_for_download] serves. Every accepted range
    lies within the file. An empty file is refused whatever the range,
    also without one. On a non-empty file of [N] bytes, a request without
    range, a suffix range of at least one byte, and a start-end range
    whose start (0 by default) is below [N] are served; all other ranges
    raise [Invalid range]. *)
Theorem open_range_spec (r : option HttpRange) (N : Z) :
  (forall s e, open_range r N = Some (s, e) -> (0 <= s <= e /\ e < N)%Z) /\
  ((N <= 0)%Z -> open_range r N = None) /\
  ((1 <= N)%Z ->
   (open_range r N <> None <->
    match r with
    | None => True
    | Some rg =>
        match suffix_length rg with
        | Some k => (1 <= k)%Z
        | None => (match start rg with Some s => s | None => 0 end < N)%Z
        end
    end)).
Proof.
  split; [|split].
  - apply open_range_bounds.
  - apply open_range_nonpos.
  - intros HN. destruct r as [[st en [k|]]|]; unfold open_range, resolve; cbn.
    + split_cmp; cbn; split; intros; try congruence; lia.
    + destruct st as [s|], en as [e|]; split_cmp; cbn; split; intros; try congruence; lia.
    + split_cmp; cbn; split; intros; try congruence; lia.
Qed.

Lemma open_range_spec_witness :
  open_range (Some {| start := Some 3%Z; end_ := None; suffix_length := None |}) 10%Z <> None.
Proof.
  apply (proj2 (proj2 (proj2 (open_range_spec _ 10)) ltac:(lia))). cbn. lia.
Defined.

Lemma firstn_split {A} (k n : nat) (l : list A) :
  (k <= n)%nat -> firstn n l = (firstn k l ++ firstn (n - k) (skipn k l))%list.
Proof.
  intros H. rewrite <- (firstn_skipn k (firstn n l)) at 1.
  rewrite firstn_firstn, skipn_firstn_comm. f_equal. f_equal. lia.
Qed.

Definition chunk_ok (c : list Byte.byte) : Prop :=
  (1 <= Z.of_nat (List.length c) <= 8192)%Z.

Lemma gen_loop_spec (fuel : nat) (rest : list Byte.byte) (remaining : Z) :
  (Z.to_nat remaining < fuel)%nat ->
  List.concat (gen_loop fuel rest remaining) = firstn (Z.to_nat remaining) rest /\
  Forall chunk_ok (gen_loop fuel rest remaining).
Proof.
  revert rest remaining. induction fuel as [|f IH]; intros rest rem Hf; [lia|].
  cbn [gen_loop]. destruct (Z.ltb_spec 0 rem) as [Hr|Hr].
  2:{ replace (Z.to_nat rem) with 0%nat by lia. split; [reflexivity|constructor]. }
  set (k := Z.to_nat (Z.min 8192 rem)).
  assert (Hk1 : (1 <= k)%nat) by (unfold k; lia).
  assert (Hk2 : (Z.of_nat k <= 8192)%Z) by (unfold k; lia).
  assert (Hk3 : (k <= Z.to_nat rem)%nat) by (unfold k; lia).
  destruct (firstn k rest) as [|c cs] eqn:Ec.
  - destruct rest as [|b rest']; [|destruct k; [lia|discriminate]].
    rewrite firstn_nil. split; [reflexivity|constructor].
  - set (m := List.length (c :: cs)).
    assert (Hm : m = Nat.min k (List.length rest)) by (unfold m; rewrite <- Ec; apply length_firstn).
    assert (Hm1 : (1 <= m)%nat) by (unfold m; cbn; lia).
    destruct (IH (skipn m rest) (rem - Z.of_nat m)%Z) as [H1 H2]; [lia|].
    split.
    + cbn [List.concat]. rewrite H1.
      destruct (Nat.eq_dec m k) as [Emk|Emk].
      * rewrite (firstn_split m (Z.to_nat rem) rest) by lia.
        rewrite Emk, Ec. f_equal. f_equal. lia.
      * assert (Hl : m = List.length rest) by lia.
        rewrite firstn_all2 in Ec by lia. rewrite <- Ec.
        rewrite Hl, skipn_all, firstn_nil, app_nil_r.
        symmetry. apply firstn_all2. lia.
    + constructor; [|exact H2]. unfold chunk_ok. fold m. lia.
Qed.

(** [file_generator] yields exactly the [end - start + 1] bytes of the
    file from offset [start] on (fewer where the file ends first), in
    chunks of one to 8192 bytes. *)
Lemma file_generator_spec (data : list Byte.byte) (start end_ : Z) :
  List.concat (file_generator data start end_) =
    firstn (Z.to_nat (end_ - start + 1)) (skipn (Z.to_nat start) data) /\
  Forall chunk_ok (file_generator data start end_).
Proof. apply gen_loop_spec. lia. Qed.

(** A successful download streams the requested bytes of the file the
    path resolves to: the file has [total_size] bytes, the range
    satisfies [0 <= start <= end < total_size] (so an empty file is never
    served), and the chunks, of 1 to 8192 bytes each, concatenate to the
    [end - start + 1] bytes from offset [start], which is the
    Content-Length the caller announces. *)
Theorem open_file_for_download_spec (resolve : path -> resolution)
  (get_share_by_name : string -> option path) (fs : FS)
  (root_name rel_path : string) (http_range : option HttpRange)
  (chunks : list (list Byte.byte)) (start end_ total_size : Z) :
  open_file_for_download resolve get_share_by_name fs root_name rel_path http_range =
    Ok (chunks, start, end_, total_size) ->
  exists share_path file_path data,
    get_share_by_name root_name = Some share_path /\
    safe_join resolve share_path rel_path = Ok file_path /\
    fs file_path = Some (File data) /\
    total_size = Z.of_nat (List.length data) /\
    (0 <= start <= end_ /\ end_ < total_size)%Z /\
    List.concat chunks = firstn (Z.to_nat (end_ - start + 1)) (skipn (Z.to_nat start) data) /\
    Z.of_nat (List.length (List.concat chunks)) = (end_ - start + 1)%Z /\
    Forall chunk_ok chunks.
Proof.
  unfold open_file_for_download.
  destruct (get_share_by_name root_name) as [share|]; [|discriminate].
  destruct (safe_join resolve share rel_path) as [p|[| |]] eqn:Ej; try discriminate.
  destruct (fs p) as [[|data]|] eqn:Ef; try discriminate.
  destruct (open_range http_range (Z.of_nat (List.length data))) as [[s e]|] eqn:Er;
    [|discriminate].
  intros H. injection H as <- <- <- <-.
  destruct (open_range_bounds http_range _ s e Er) as [Hse He].
  destruct (file_generator_spec data s e) as [H1 H2].
  exists share, p, data. repeat split; try assumption; try reflexivity; try lia.
  rewrite H1, length_firstn, length_skipn. lia.
Qed.

Definition demo_get_share (n : string) : option path :=
  if String.eqb n "pub" then Some ["srv"; "pub"] else None.

Definition demo_download_fs : FS :=
  fun p => if path_eqb p ["srv"; "pub"; "a.txt"] then Some (File [Byte.x61; Byte.x62; Byte.x63])
           else if path_eqb p ["srv"] || path_eqb p ["srv"; "pub"] then Some Dir else None.

Lemma open_file_for_download_spec_witness :
  exists share_path file_path data,
    demo_get_share "pub" = Some share_path /\
    safe_join FsFacts.lexical_resolve share_path "a.txt" = Ok file_path /\
    demo_download_fs file_path = Some (File data) /\
    3%Z = Z.of_nat (List.length data) /\
    (0 <= 1 <= 2 /\ 2 < 3)%Z /\
    List.concat [[Byte.x62; Byte.x63]] = firstn (Z.to_nat (2 - 1 + 1)) (skipn (Z.to_nat 1) data) /\
    Z.of_nat (List.length (List.concat [[Byte.x62; Byte.x63]])) = (2 - 1 + 1)%Z /\
    Forall chunk_ok [[Byte.x62; Byte.x63]].
Proof.
  exact (open_file_for_download_spec FsFacts.lexical_resolve demo_get_share demo_download_fs
           "pub" "a.txt" (Some {| start := Some 1%Z; end_ := None; suffix_length := None |})
           [[Byte.x62; Byte.x63]] 1 2 3 ltac:(vm_compute; reflexivity)).
Defined.

End DownloadFacts.

(* ===================================================================== *)
(** ** [app/api.py]: [download_file] *)
(* ===================================================================== *)

Module DownloadApiFacts.
Import Py PyInt Range Fs Headers Download DownloadApi PyIntFacts HeadersFacts DownloadFacts.





Ltac open_file_rewrite Hs Hj Hf :=
  unfold open_file_for_download; rewrite Hs, Hj, Hf.





(** An empty file cannot be downloaded: whatever the Range header, the
    range check fails and the response is [404]. *)
Theorem download_file_empty (resolve : path -> resolution)
  (get_share_by_name : string -> option path) (fs : FS)
  (root rel_path : string) (share_path file_path : path) (range_header : option string) :
  get_share_by_name root = Some share_path ->
  safe_join resolve share_path rel_path = Ok file_path ->
  fs file_path = Some (File []) ->
  download_file resolve get_share_by_name fs root rel_path range_header = HttpError 404.
Proof.
  intros Hs Hj Hf. unfold download_file. open_file_rewrite Hs Hj Hf.
  rewrite open_range_nonpos by (cbn; lia). reflexivity.
Qed.

Definition demo_empty_fs : FS :=
  fun p => if path_eqb p ["srv"; "pub"; "e.txt"] then Some (File [])
           else if path_eqb p ["srv"] || path_eqb p ["srv"; "pub"] then Some Dir else None.

Lemma download_file_empty_witness :
  download_file FsFacts.lexical_resolve demo_get_share demo_empty_fs "pub" "e.txt" None =
    HttpError 404.
Proof.
  exact (download_file_empty FsFacts.lexical_resolve demo_get_share demo_empty_fs
           "pub" "e.txt" ["srv"; "pub"] ["srv"; "pub"; "e.txt"] None
           eq_refl ltac:(vm_compute; reflexivity) eq_refl).
Defined.

End DownloadApiFacts.

(* ===================================================================== *)
(** ** Rate limiting *)
(* ===================================================================== *)

Module RateLimitFacts.
Import Bucket RateLimit.
Open Scope Q_scope.

(** The times are non-decreasing from [t]. *)
Fixpoint chrono (t : Q) (l : list Q) : Prop :=
  match l with
  | [] => True
  | x :: l' => t <= x /\ chrono x l'
  end.

(** The number of requests let through. *)
Definition admitted (oks : list bool) : nat := List.length (filter (fun ok => ok) oks).

Lemma last_default (l : list Q) (d d' : Q) : l <> [] -> last l d = last l d'.
Proof.
  induction l as [|x l IH]; intros Hl; [congruence|].
  destruct l as [|y l]; [reflexivity|].
  change (last (y :: l) d = last (y :: l) d'). apply IH. discriminate.
Qed.

Lemma last_cons_default (ts : list Q) (t d : Q) : last (t :: ts) d = last ts t.
Proof.
  destruct ts as [|x ts]; [reflexivity|].
  change (last (x :: ts) d = last (x :: ts) t). apply last_default. discriminate.
Qed.

Lemma inject_Z_succ (n : nat) :
  inject_Z (Z.of_nat (S n)) == inject_Z (Z.of_nat n) + 1.
Proof. rewrite Nat2Z.inj_succ, <- Z.add_1_r, inject_Z_plus. reflexivity. Qed.

Lemma dispatch_all_budget (times : list Q) :
  forall b, 0 <= capacity b -> 0 <= tokens b -> 0 <= refill_rate b ->
  chrono (last_refill b) times ->
  inject_Z (Z.of_nat (admitted (fst (dispatch_all b times)))) + tokens (snd (dispatch_all b times))
    <= tokens b + refill_rate b * (last times (last_refill b) - last_refill b) /\
  0 <= tokens (snd (dispatch_all b times)).
Proof.
  induction times as [|t ts IH]; intros b Hc Htok Hr Hch.
  - cbn [dispatch_all fst snd last]. unfold admitted. cbn [filter List.length].
    change (inject_Z (Z.of_nat 0)) with 0. split; [|exact Htok].
    assert (E : refill_rate b * (last_refill b - last_refill b) == 0) by ring.
    rewrite E. lra.
  - destruct Hch as [Ht Hch].
    rewrite last_cons_default.
    cbn [dispatch_all]. unfold dispatch, consume.
    set (T := Qmin (capacity b) (tokens b + (t - last_refill b) * refill_rate b)).
    assert (HT1 : T <= tokens b + (t - last_refill b) * refill_rate b) by apply Q.le_min_r.
    assert (HE : 0 <= (t - last_refill b) * refill_rate b)
      by (apply Qmult_le_0_compat; lra).
    assert (HT0 : 0 <= T) by (apply Q.min_glb; lra).
    assert (Hsplit : refill_rate b * (last ts t - last_refill b)
                     == refill_rate b * (last ts t - t) + (t - last_refill b) * refill_rate b)
      by ring.
    destruct (Qle_bool (inject_Z 1) T) eqn:Eb.
    + apply Qle_bool_iff in Eb.
      match goal with |- context [dispatch_all ?b1 ts] =>
        destruct (IH b1) as [H1 H2]; cbn [capacity tokens refill_rate last_refill];
          [exact Hc | change (inject_Z 1) with 1 in *; lra | exact Hr | exact Hch |];
        destruct (dispatch_all b1 ts) as [oks b2] eqn:Ed end.
      cbn [fst snd admitted filter List.length] in *. unfold admitted in *.
      cbn [filter List.length]. rewrite inject_Z_succ.
      cbn [tokens refill_rate last_refill] in H1.
      change (inject_Z 1) with 1 in *. split; [|exact H2].
      rewrite Hsplit. lra.
    + match goal with |- context [dispatch_all ?b1 ts] =>
        destruct (IH b1) as [H1 H2]; cbn [capacity tokens refill_rate last_refill];
          [exact Hc | exact HT0 | exact Hr | exact Hch |];
        destruct (dispatch_all b1 ts) as [oks b2] eqn:Ed end.
      cbn [fst snd] in *. unfold admitted in *. cbn [filter].
      cbn [tokens refill_rate last_refill] in H1.
      split; [|exact H2].
      rewrite Hsplit. lra.
Qed.

Lemma dispatch_all_same_instant (n : nat) :
  forall b (z : Z), tokens b == inject_Z z -> inject_Z z <= capacity b ->
  fst (dispatch_all b (repeat (last_refill b) n))
    = (repeat true (Nat.min n (Z.to_nat z)) ++ repeat false (n - Z.to_nat z))%list.
Proof.
  induction n as [|n IH]; intros b z Ht Hc; [reflexivity|].
  cbn [repeat dispatch_all]. unfold dispatch, consume.
  set (T := Qmin (capacity b) (tokens b + (last_refill b - last_refill b) * refill_rate b)).
  assert (HT : T == inject_Z z).
  { assert (E : tokens b + (last_refill b - last_refill b) * refill_rate b == inject_Z z)
      by (rewrite Ht; ring).
    unfold T. destruct (Q.min_spec (capacity b)
                          (tokens b + (last_refill b - last_refill b) * refill_rate b))
      as [[L M]|[L M]]; rewrite M; lra. }
  destruct (Qle_bool (inject_Z 1) T) eqn:Eb.
  - apply Qle_bool_iff in Eb. rewrite HT in Eb. rewrite <- Zle_Qle in Eb.
    match goal with |- context [dispatch_all ?b1 (repeat _ n)] =>
      pose proof (IH b1 (z - 1)%Z) as IH1; cbn [tokens capacity last_refill] in IH1;
      destruct (dispatch_all b1 (repeat (last_refill b) n)) as [oks b2] end.
    cbn [fst] in *. rewrite IH1.
    + replace (Z.to_nat z) with (S (Z.to_nat (z - 1))) by lia. reflexivity.
    + rewrite HT. unfold Z.sub. rewrite inject_Z_plus, inject_Z_opp. reflexivity.
    + unfold Z.sub. rewrite inject_Z_plus, inject_Z_opp. change (inject_Z 1) with 1. lra.
  - assert (Hz : (z < 1)%Z).
    { apply Z.nle_gt. intros Hz. rewrite Zle_Qle, <- HT, <- Qle_bool_iff in Hz. congruence. }
    match goal with |- context [dispatch_all ?b1 (repeat _ n)] =>
      pose proof (IH b1 z) as IH1; cbn [tokens capacity last_refill] in IH1;
      destruct (dispatch_all b1 (repeat (last_refill b) n)) as [oks b2] end.
    cbn [fst] in *. rewrite IH1; [| exact HT | exact Hc].
    replace (Z.to_nat z) with 0%nat by lia.
    rewrite !Nat.min_0_r, !Nat.sub_0_r. reflexivity.
Qed.

(** Rate bound of [RateLimitMiddleware]: from the creation of the
    middleware at [t0], over any sequence of requests at non-decreasing
    times (from all clients together, since there is one bucket), the
    number of requests let through is at most
    [burst + rps * (time of the last request - t0)], for [rps >= 0] and
    [burst >= 0]. *)
Theorem rate_limit_admitted_bound (rps burst : Z) (t0 : Q) (times : list Q)
  (Hrps : (0 <= rps)%Z) (Hburst : (0 <= burst)%Z) (Hch : chrono t0 times) :
  inject_Z (Z.of_nat (admitted (fst (dispatch_all (new_bucket rps burst t0) times))))
    <= inject_Z burst + inject_Z rps * (last times t0 - t0).
Proof.
  assert (Hb : 0 <= inject_Z burst)
    by (change 0 with (inject_Z 0); rewrite <- Zle_Qle; exact Hburst).
  assert (Hr : 0 <= inject_Z rps)
    by (change 0 with (inject_Z 0); rewrite <- Zle_Qle; exact Hrps).
  destruct (dispatch_all_budget times (new_bucket rps burst t0) Hb Hb Hr Hch) as [H1 H2].
  cbn [tokens refill_rate last_refill new_bucket] in H1. lra.
Qed.

Lemma rate_limit_admitted_bound_witness :
  chrono 0 [0; 0; 1; 1; 1] /\
  inject_Z (Z.of_nat (admitted (fst (dispatch_all (new_bucket 1 2 0) [0; 0; 1; 1; 1]))))
    <= inject_Z 2 + inject_Z 1 * (last [0; 0; 1; 1; 1] 0 - 0).
Proof.
  split; [vm_compute; repeat split; discriminate|].
  apply (rate_limit_admitted_bound 1 2 0 [0; 0; 1; 1; 1]);
    [discriminate | discriminate | vm_compute; repeat split; discriminate].
Defined.

(** Burst behaviour: [n] requests arriving at the very instant the
    middleware was created get, in order, [min(n, burst)] passes and
    then 429 responses, whatever [rps] is; a [burst <= 0] refuses them
    all. *)
Theorem rate_limit_burst (rps burst : Z) (t0 : Q) (n : nat) :
  fst (dispatch_all (new_bucket rps burst t0) (repeat t0 n))
    = (repeat true (Nat.min n (Z.to_nat burst)) ++ repeat false (n - Z.to_nat burst))%list.
Proof.
  exact (dispatch_all_same_instant n (new_bucket rps burst t0) burst
           (Qeq_refl _) (Qle_refl _)).
Qed.

End RateLimitFacts.

(* ===================================================================== *)
(** ** The [IpFilter] class, its presets and the IP filter middleware *)
(* ===================================================================== *)

Module ClientIpFacts.
Import Py PyInt Ip IpFilter ClientIp IpFilterFacts.

Lemma parse_networks_validate (l : list string) :
  parse_networks (validate_cidr_list l) = parse_networks l.
Proof.
  induction l as [|c l IH]; [reflexivity|].
  unfold validate_cidr_list in *. cbn [filter parse_networks].
  destruct (parse_cidr c) eqn:E; cbn [parse_networks]; rewrite ?E, IH; reflexivity.
Qed.

(** Validation in [IpFilter] never changes a decision: [is_allowed] of
    a filter built by [IpFilter(allow, deny)], or after
    [update_rules(allow, deny)], decides as [check_ip_allowed] on the
    lists as given (a missing list being empty, or kept by
    [update_rules]); dropping the entries that do not parse only
    shortens the lists. *)
Theorem ip_filter_validation_transparent (allow0 deny0 : option (list string))
  (f : IpFilterObj) (ip : string) :
  is_allowed (new_IpFilter allow0 deny0) ip =
    check_ip_allowed ip (match allow0 with Some l => l | None => [] end)
                        (match deny0 with Some l => l | None => [] end) /\
  is_allowed (update_rules f allow0 deny0) ip =
    check_ip_allowed ip (match allow0 with Some l => l | None => allow_list f end)
                        (match deny0 with Some l => l | None => deny_list f end).
Proof.
  split; unfold is_allowed; apply check_ip_allowed_parsed; cbn [allow_list deny_list
    new_IpFilter update_rules];
    destruct allow0, deny0; rewrite ?parse_networks_validate; reflexivity.
Qed.

Lemma land_zero_netmask (v : version) (x : Z) :
  Z.land x (netmask {| n_ver := v; n_addr := 0; n_prefixlen := 0 |}) = 0%Z.
Proof.
  unfold netmask, ip_int_from_prefix. cbn [n_ver n_prefixlen].
  rewrite Z.shiftr_0_r, Z.lxor_nilpotent. apply Z.land_0_r.
Qed.

(** The [DENY_ALL] preset refuses every client, IPv4 or IPv6, and
    every string that is not an address. *)
Theorem DENY_ALL_denies (ip : string) : is_allowed DENY_ALL ip = false.
Proof.
  unfold is_allowed, check_ip_allowed.
  destruct (String.eqb ip ""); [reflexivity|].
  destruct (ip_address ip) as [[[|] x]|]; [| |reflexivity];
    vm_compute parse_networks; cbv [get_most_specific filter matches contains];
    cbn [n_ver a_ver version_eqb andb]; rewrite land_zero_netmask; reflexivity.
Qed.

(** The [ALLOW_ALL] preset ([allow_list=["*"]]) lets through exactly the
    IPv4 clients: [*] stands for [0.0.0.0/0], so every IPv6 client is
    refused, as is every string that is not an address. *)
Theorem ALLOW_ALL_ipv4_only (ip : string) :
  is_allowed ALLOW_ALL ip = true <-> exists x, ip_address ip = Some {| a_ver := V4; a_int := x |}.
Proof.
  unfold is_allowed, check_ip_allowed.
  destruct (String.eqb ip "") eqn:E.
  - apply String.eqb_eq in E. subst ip. rewrite ip_address_empty.
    split; [discriminate | intros (x & H); discriminate H].
  - destruct (ip_address ip) as [[[|] x]|].
    + vm_compute parse_networks; cbv [get_most_specific filter matches contains];
        cbn [n_ver a_ver version_eqb andb]; rewrite land_zero_netmask.
      split; [intros _; exists x; reflexivity | reflexivity].
    + vm_compute parse_networks; cbv [get_most_specific filter matches contains];
        cbn [n_ver a_ver version_eqb andb].
      split; [discriminate | intros (y & H); discriminate H].
    + split; [discriminate | intros (y & H); discriminate H].
Qed.

Lemma ALLOW_ALL_ipv4_only_witness :
  is_allowed ALLOW_ALL "10.1.2.3" = true.
Proof.
  apply (proj2 (ALLOW_ALL_ipv4_only "10.1.2.3")).
  exists 167838211%Z. vm_compute. reflexivity.
Defined.

(** No [GET] request is ever refused by [IpFilterMiddleware], whatever
    its allow and deny lists and whatever the client address: the
    whitelist entry [("GET", "/")] ends with a slash and is matched as a
    prefix, which every request path (it starts with [/]) has. *)
Theorem ip_filter_never_blocks_get (allow0 deny0 : list string)
  (headers : list (string * string)) (client : option string) (path : string) :
  startswith path "/" = true ->
  ip_filter_dispatch allow0 deny0 headers client "GET" path = true.
Proof.
  intros H. unfold ip_filter_dispatch.
  replace (is_whitelisted_endpoint "GET" path) with true; [reflexivity|].
  symmetry. unfold is_whitelisted_endpoint. apply existsb_exists.
  exists ("GET", "/"). split; [cbn; tauto|].
  cbn [String.eqb Ascii.eqb Bool.eqb andb]. rewrite H. reflexivity.
Qed.

Lemma ip_filter_never_blocks_get_witness :
  startswith "/api/files" "/" = true /\
  ip_filter_dispatch [] ["0.0.0.0/0"; "::/0"] [] (Some "203.0.113.9") "GET" "/api/files"
    = true.
Proof.
  split; [reflexivity|].
  apply (ip_filter_never_blocks_get [] ["0.0.0.0/0"; "::/0"] [] (Some "203.0.113.9")
           "/api/files").
  reflexivity.
Defined.

Lemma split_on_no_sep (sep : ascii) (s : string) :
  contains_char sep s = false -> split_on sep s = [s].
Proof.
  induction s as [|c s IH]; intros H; [reflexivity|].
  unfold contains_char in H. cbn in H. apply orb_false_elim in H as [H1 H2].
  cbn. rewrite Ascii.eqb_sym, H1. rewrite IH; [reflexivity | exact H2].
Qed.

(** The address [IpFilterMiddleware] checks is chosen by the client:
    a request whose first [X-Forwarded-For] header is a non-empty,
    comma-free, already stripped [x] is decided on [x] alone (or let
    through by the whitelist), whatever its other headers and its
    actual peer address. *)
Theorem ip_filter_uses_forwarded_for (allow0 deny0 : list string) (x : string)
  (headers : list (string * string)) (client : option string) (method path : string) :
  x <> "" -> contains_char ","%char x = false -> strip_set latin1_whitespace x = x ->
  ip_filter_dispatch allow0 deny0 (("x-forwarded-for", x) :: headers) client method path
    = is_whitelisted_endpoint method path || check_ip_allowed x allow0 deny0.
Proof.
  intros Hx Hc Hs. unfold ip_filter_dispatch, get_client_ip.
  cbn [header_get]. rewrite (proj2 (String.eqb_eq _ _) eq_refl).
  unfold truthy. destruct (String.eqb x "") eqn:E; [apply String.eqb_eq in E; contradiction|].
  rewrite split_on_no_sep by exact Hc. cbn [hd]. rewrite Hs.
  destruct (is_whitelisted_endpoint method path); reflexivity.
Qed.

Lemma ip_filter_uses_forwarded_for_witness :
  ip_filter_dispatch ["10.0.0.0/8"] [] [("x-forwarded-for", "10.0.0.7")] (Some "203.0.113.9")
    "POST" "/api/upload" = true.
Proof.
  rewrite (ip_filter_uses_forwarded_for ["10.0.0.0/8"] [] "10.0.0.7" [] (Some "203.0.113.9")
             "POST" "/api/upload"); [vm_compute; reflexivity | discriminate | reflexivity |].
  vm_compute. reflexivity.
Defined.

End ClientIpFacts.

(* ===================================================================== *)
(** ** Accessible roots *)
(* ===================================================================== *)

Module RulesMoreFacts.
Import Py IpFilter Rules RulesMore RulesFacts.

(** A rule applies to user [u] from [ip]. *)
Definition applies (u : UserInfo) (ip : string) (r : RuleInfo) : Prop :=
  (who r = name u \/ who r = "*") /\ check_ip_allowed ip (ip_allow r) (ip_deny r) = true.

Lemma who_matches (r : RuleInfo) (u : UserInfo) :
  (String.eqb (who r) (name u) || String.eqb (who r) "*") = true <->
  who r = name u \/ who r = "*".
Proof. rewrite orb_true_iff, !String.eqb_eq. reflexivity. Qed.

Lemma accessible_loop_spec (u : UserInfo) (ip : string) (rules : list RuleInfo) :
  forall acc,
  match accessible_loop rules u ip acc with
  | None => exists r, In r rules /\ applies u ip r /\ In "*" (roots r)
  | Some acc' =>
      (forall x, In x acc' <->
                 In x acc \/ exists r, In r rules /\ applies u ip r /\ In x (roots r)) /\
      ~ (exists r, In r rules /\ applies u ip r /\ In "*" (roots r))
  end.
Proof.
  induction rules as [|r rs IH]; intros acc; cbn [accessible_loop].
  - split; [|intros (r & [] & _)].
    intros x. split; [intros H; left; exact H|].
    intros [H|(r & [] & _)]. exact H.
  - destruct (String.eqb (who r) (name u) || String.eqb (who r) "*") eqn:Ew;
      [destruct (check_ip_allowed ip (ip_allow r) (ip_deny r)) eqn:Ei;
       [destruct (str_in "*" (roots r)) eqn:Es|]|].
    + exists r. split; [left; reflexivity|]. apply str_in_In in Es.
      split; [split; [apply who_matches; exact Ew | exact Ei] | exact Es].
    + specialize (IH (acc ++ roots r)%list).
      destruct (accessible_loop rs u ip (acc ++ roots r)%list) as [acc'|].
      * destruct IH as [IH1 IH2]. split.
        -- intros x. rewrite IH1, in_app_iff. split.
           ++ intros [[H|H]|(r' & H1 & H2)]; [left; exact H| |].
              ** right. exists r. split; [left; reflexivity|].
                 split; [split; [apply who_matches; exact Ew | exact Ei] | exact H].
              ** right. exists r'. split; [right; exact H1 | exact H2].
           ++ intros [H|(r' & [<-|H1] & H2)]; [left; left; exact H| |].
              ** left; right. exact (proj2 H2).
              ** right. exists r'. split; [exact H1 | exact H2].
        -- intros (r' & [<-|H1] & H2).
           ++ destruct H2 as [_ H2]. apply (proj2 (str_in_In _ _)) in H2. congruence.
           ++ apply IH2. exists r'. split; [exact H1 | exact H2].
      * destruct IH as (r' & H1 & H2). exists r'. split; [right; exact H1 | exact H2].
    + specialize (IH acc). destruct (accessible_loop rs u ip acc) as [acc'|].
      * destruct IH as [IH1 IH2]. split.
        -- intros x. rewrite IH1. split.
           ++ intros [H|(r' & H1 & H2)]; [left; exact H|].
              right. exists r'. split; [right; exact H1 | exact H2].
           ++ intros [H|(r' & [<-|H1] & H2)]; [left; exact H| |].
              ** destruct H2 as [[_ Hi] _]. congruence.
              ** right. exists r'. split; [exact H1 | exact H2].
        -- intros (r' & [<-|H1] & H2).
           ++ destruct H2 as [[_ Hi] _]. congruence.
           ++ apply IH2. exists r'. split; [exact H1 | exact H2].
      * destruct IH as (r' & H1 & H2). exists r'. split; [right; exact H1 | exact H2].
    + specialize (IH acc). destruct (accessible_loop rs u ip acc) as [acc'|].
      * destruct IH as [IH1 IH2]. split.
        -- intros x. rewrite IH1. split.
           ++ intros [H|(r' & H1 & H2)]; [left; exact H|].
              right. exists r'. split; [right; exact H1 | exact H2].
           ++ intros [H|(r' & [<-|H1] & H2)]; [left; exact H| |].
              ** destruct H2 as [[Hw _] _]. apply who_matches in Hw. congruence.
              ** right. exists r'. split; [exact H1 | exact H2].
        -- intros (r' & [<-|H1] & H2).
           ++ destruct H2 as [[Hw _] _]. apply who_matches in Hw. congruence.
           ++ apply IH2. exists r'. split; [exact H1 | exact H2].
      * destruct IH as (r' & H1 & H2). exists r'. split; [right; exact H1 | exact H2].
Qed.

Lemma get_accessible_roots_In (rules : list RuleInfo) (shares : list string)
  (u : UserInfo) (ip x : string) :
  In x (get_accessible_roots rules shares (Some u) ip) <->
  In x shares /\
  exists r, In r rules /\ applies u ip r /\ (In x (roots r) \/ In "*" (roots r)).
Proof.
  unfold get_accessible_roots.
  pose proof (accessible_loop_spec u ip rules []) as H.
  destruct (accessible_loop rules u ip []) as [acc|].
  - destruct H as [H1 H2].
    rewrite nodup_In, filter_In, str_in_In, H1. split.
    + intros [[[]|(r & Hr & Ha & Hx)] Hs]. split; [exact Hs|].
      exists r. split; [exact Hr|]. split; [exact Ha | left; exact Hx].
    + intros [Hs (r & Hr & Ha & [Hx|Hx])]; [|exfalso; apply H2; exists r; tauto].
      split; [right; exists r; tauto | exact Hs].
  - destruct H as (r & Hr & Ha & Hx). split.
    + intros Hs. split; [exact Hs|]. exists r. tauto.
    + intros [Hs _]. exact Hs.
Qed.

(** [get_accessible_roots] returns nothing without a user; for a user
    it lists exactly the configured shares [x] for which some rule
    applies to the user ([who] is the name or [*]) and to the client
    address (the rule's IP filter accepts it) and names [x] or [*] among
    its roots. The first applicable rule naming [*] ends the loop and
    every configured share is returned. *)
Theorem get_accessible_roots_spec (rules : list RuleInfo) (shares : list string)
  (ip : string) :
  get_accessible_roots rules shares None ip = [] /\
  forall u x,
  In x (get_accessible_roots rules shares (Some u) ip) <->
  In x shares /\
  exists r, In r rules /\ (who r = name u \/ who r = "*") /\
            check_ip_allowed ip (ip_allow r) (ip_deny r) = true /\
            (In x (roots r) \/ In "*" (roots r)).
Proof.
  split; [reflexivity|]. intros u x. rewrite get_accessible_roots_In.
  unfold applies. split.
  - intros [Hs (r & Hr & [Hw Hi] & Hx)]. split; [exact Hs|]. exists r. tauto.
  - intros [Hs (r & Hr & Hw & Hi & Hx)]. split; [exact Hs|]. exists r. tauto.
Qed.

(** [get_accessible_roots] lists every configured share on which
    [evaluate] grants the user some operation on some path from the same
    client address. *)
Theorem evaluate_grant_accessible (rules : list RuleInfo) (shares : list string)
  (u : UserInfo) (op : Permission) (root p ip : string) :
  fst (evaluate rules (Some u) op root p ip) = true -> In root shares ->
  In root (get_accessible_roots rules shares (Some u) ip).
Proof.
  intros He Hs. apply get_accessible_roots_In. split; [exact Hs|].
  unfold evaluate in He.
  destruct (filter (fun r => String.eqb (who r) (name u) || String.eqb (who r) "*") rules)
    as [|r0 rs] eqn:Ef; [discriminate He|].
  rewrite <- Ef in He. apply first_granting_true in He as (r & Hr & Hev).
  apply filter_In in Hr as [Hr Hw]. apply evaluate_rule_true in Hev as (_ & Hroot & _ & Hip).
  exists r. split; [exact Hr|]. split; [split; [apply who_matches; exact Hw | exact Hip]|].
  exact Hroot.
Qed.

Definition demo_rules : list RuleInfo :=
  [mk_rule "alice" [READ] ["pub"] ["/*"]; mk_rule "*" [READ] ["docs"] ["/readme"]].

Definition demo_alice : UserInfo := {| name := "alice"; pass_hash := ""; is_bcrypt := false |}.

Lemma evaluate_grant_accessible_witness :
  fst (evaluate demo_rules (Some demo_alice) READ "docs" "readme" "10.0.0.1") = true /\
  In "docs" ["pub"; "docs"; "tmp"] /\
  In "docs" (get_accessible_roots demo_rules ["pub"; "docs"; "tmp"] (Some demo_alice) "10.0.0.1").
Proof.
  assert (He : fst (evaluate demo_rules (Some demo_alice) READ "docs" "readme" "10.0.0.1")
               = true) by (vm_compute; reflexivity).
  assert (Hs : In "docs" ["pub"; "docs"; "tmp"]) by (right; left; reflexivity).
  split; [exact He|]. split; [exact Hs|].
  exact (evaluate_grant_accessible demo_rules ["pub"; "docs"; "tmp"] demo_alice READ
           "docs" "readme" "10.0.0.1" He Hs).
Defined.

End RulesMoreFacts.

(* ===================================================================== *)
(** ** Direct transfers: deletion, upload, listing and restart *)
(* ===================================================================== *)

Module DirectTransferMoreFacts.
Import Py DirectTransfer DirectTransferFacts.

Lemma dict_get_pop (d : list (string * DirectTransferEntry)) (k : string) :
  dict_get (dict_pop d k) k = None.
Proof.
  apply dict_get_None. intros k' v H. apply dict_pop_In in H. exact (proj2 H).
Qed.



Lemma file_exists_delete (st : Store) (name : string) :
  file_exists (delete_file st name) name = false.
Proof.
  unfold file_exists, delete_file. cbn [files].
  apply UtilsFacts.existsb_false_forall. intros f Hf.
  apply filter_In in Hf as [_ Hf]. apply negb_true_iff in Hf.
  rewrite String.eqb_sym. exact Hf.
Qed.


(** [delete_transfer]: it succeeds only for the sender or the recipient
    of the (unexpired) transfer; it then removes the id from memory,
    rewrites [transfers.json] from the remaining entries and deletes the
    stored payload file. When it fails (404 for an unknown id, 403 for
    anyone else), the store is only pruned of expired or orphaned
    entries, and a transfer still present under the id belongs to
    neither party being the caller. *)
Theorem delete_transfer_spec (st : Store) (now : Q) (tid u : string) :
  match delete_transfer st now tid u with
  | (DOk e, st') =>
      dict_get (entries (prune_locked now st)) tid = Some e /\
      (u = sender e \/ u = recipient e) /\
      dict_get (entries st') tid = None /\
      file_exists st' (stored_filename e) = false /\
      meta st' = Some (map snd (entries st'))
  | (DErr c, st') =>
      st' = prune_locked now st /\
      (forall e, dict_get (entries st') tid = Some e -> u <> sender e /\ u <> recipient e)
  end.
Proof.
  unfold delete_transfer. cbv zeta.
  destruct (dict_get (entries (prune_locked now st)) tid) as [e|] eqn:Eg.
  - destruct (negb (String.eqb u (sender e)) && negb (String.eqb u (recipient e))) eqn:Ea.
    + split; [reflexivity|]. intros e' He'. rewrite Eg in He'. injection He' as <-.
      apply andb_true_iff in Ea as [E1 E2]. apply negb_true_iff, String.eqb_neq in E1, E2.
      split; assumption.
    + split; [reflexivity|].
      split.
      { apply andb_false_iff in Ea as [Ea|Ea]; apply negb_false_iff, String.eqb_eq in Ea;
          [left|right]; exact Ea. }
      split; [apply dict_get_pop|].
      split; [apply file_exists_delete | reflexivity].
  - split; [reflexivity|]. intros e He. rewrite Eg in He. discriminate He.
Qed.


(** An entry that has not expired at [now]. *)
Definition not_expired (now : Q) (e : DirectTransferEntry) : Prop :=
  forall x, expires_at e = Some x -> (now <= x)%Q.

Lemma should_remove_false (st : Store) (now : Q) (e : DirectTransferEntry) :
  should_remove st now e = false -> not_expired now e.
Proof.
  unfold should_remove, not_expired. intros H x Hx. rewrite Hx in H.
  destruct (Qltb x now) eqn:E; [discriminate H|].
  unfold Qltb in E. apply negb_false_iff, Qle_bool_iff in E. exact E.
Qed.

Lemma prune_loop_not_expired (now : Q) (items : list (string * DirectTransferEntry)) :
  forall st removed,
  (forall k e, In (k, e) (entries st) -> not_expired now e \/ In (k, e) items) ->
  forall k e, In (k, e) (entries (fst (prune_loop now items st removed))) -> not_expired now e.
Proof.
  induction items as [|[k0 e0] items IH]; intros st removed H; cbn [prune_loop fst].
  - intros k e Hin. destruct (H k e Hin) as [He|[]]. exact He.
  - destruct (should_remove st now e0) eqn:Es.
    + apply IH. intros k e Hin. cbn [delete_file set_entries entries] in Hin.
      apply dict_pop_In in Hin as [Hin Hk]. cbn [fst] in Hk.
      destruct (H k e Hin) as [He|[Heq|Hi]]; [left; exact He| |right; exact Hi].
      injection Heq as -> ->. contradiction.
    + apply IH. intros k e Hin.
      destruct (H k e Hin) as [He|[Heq|Hi]]; [left; exact He| |right; exact Hi].
      injection Heq as <- <-. left. apply (should_remove_false st). exact Es.
Qed.

Lemma prune_locked_not_expired (now : Q) (st : Store) :
  forall k e, In (k, e) (entries (prune_locked now st)) -> not_expired now e.
Proof.
  unfold prune_locked.
  pose proof (prune_loop_not_expired now (entries st) st false) as H.
  destruct (prune_loop now (entries st) st false) as [st' removed] eqn:Ep.
  cbn [fst] in H.
  assert (H' : forall k e, In (k, e) (entries st') -> not_expired now e)
    by (apply H; intros k e Hin; right; exact Hin).
  destruct removed; exact H'.
Qed.

(** Newest first: [y] was not created after [x]. *)
Definition newer_first (x y : DirectTransferEntry) : Prop := (created_at y <= created_at x)%Q.

Lemma insert_by_created_desc_perm (e : DirectTransferEntry) (l : list DirectTransferEntry) :
  Permutation (insert_by_created_desc e l) (e :: l).
Proof.
  induction l as [|x l IH]; cbn; [reflexivity|].
  destruct (Qltb (created_at x) (created_at e)); [reflexivity|].
  rewrite IH. apply perm_swap.
Qed.

Lemma sort_by_created_desc_perm (l : list DirectTransferEntry) :
  Permutation (sort_by_created_desc l) l.
Proof.
  unfold sort_by_created_desc.
  assert (H : forall acc, Permutation (fold_left (fun acc e => insert_by_created_desc e acc) l acc)
                                      (l ++ acc)%list).
  { induction l as [|e l IH]; intros acc; cbn [fold_left]; [reflexivity|].
    rewrite IH, insert_by_created_desc_perm. symmetry. apply Permutation_middle. }
  rewrite H, app_nil_r. reflexivity.
Qed.

Lemma insert_by_created_desc_hd (a e : DirectTransferEntry) (l : list DirectTransferEntry) :
  HdRel newer_first a l -> newer_first a e -> HdRel newer_first a (insert_by_created_desc e l).
Proof.
  intros H He. destruct l as [|y l]; cbn; [constructor; exact He|].
  destruct (Qltb (created_at y) (created_at e)); constructor; [exact He|].
  inversion H; assumption.
Qed.

Lemma insert_by_created_desc_sorted (e : DirectTransferEntry) (l : list DirectTransferEntry) :
  Sorted newer_first l -> Sorted newer_first (insert_by_created_desc e l).
Proof.
  induction l as [|x l IH]; intros Hs; cbn; [repeat constructor|].
  destruct (Qltb (created_at x) (created_at e)) eqn:E.
  - constructor; [exact Hs|]. constructor. unfold newer_first.
    unfold Qltb in E. apply negb_true_iff in E.
    apply Qlt_le_weak, Qnot_le_lt. intros Hle. apply Qle_bool_iff in Hle. congruence.
  - inversion Hs as [|? ? Hs' Hhd]; subst.
    constructor; [exact (IH Hs')|]. apply insert_by_created_desc_hd; [exact Hhd|].
    unfold newer_first. unfold Qltb in E. apply negb_false_iff, Qle_bool_iff in E. exact E.
Qed.

Lemma sort_by_created_desc_sorted (l : list DirectTransferEntry) :
  Sorted newer_first (sort_by_created_desc l).
Proof.
  unfold sort_by_created_desc.
  assert (H : forall acc, Sorted newer_first acc ->
              Sorted newer_first (fold_left (fun acc e => insert_by_created_desc e acc) l acc)).
  { induction l as [|e l IH]; intros acc Hacc; cbn [fold_left]; [exact Hacc|].
    apply IH, insert_by_created_desc_sorted, Hacc. }
  apply H. constructor.
Qed.

(** [list_transfers]: [direction] is compared after [lower()]; the
    listing holds exactly the transfers left after pruning that are
    addressed to the caller ([incoming]) or sent by the caller
    ([outgoing]), newest first. None of them has expired, and each was
    in the store before the call. (The source returns the entries'
    public dicts.) *)
Theorem list_transfers_spec (st : Store) (now : Q) (u d : string)
  (l : list DirectTransferEntry) :
  fst (list_transfers st now u d) = DOk l ->
  (forall e, In e l <->
     In e (map snd (entries (prune_locked now st))) /\
     (if String.eqb (py_lower d) "incoming" then recipient e = u else sender e = u)) /\
  (forall e, In e l -> not_expired now e /\ In e (map snd (entries st))) /\
  Sorted newer_first l.
Proof.
  unfold list_transfers. cbv zeta.
  destruct (negb (String.eqb (py_lower d) "incoming") && negb (String.eqb (py_lower d) "outgoing"))
    eqn:Ed; cbn [fst]; [discriminate|].
  intros [= <-].
  assert (Hmem : forall e, In e (sort_by_created_desc
                   (filter (fun e => if String.eqb (py_lower d) "incoming"
                                     then String.eqb (recipient e) u
                                     else String.eqb (sender e) u)
                           (map snd (entries (prune_locked now st))))) <->
                 In e (map snd (entries (prune_locked now st))) /\
                 (if String.eqb (py_lower d) "incoming" then recipient e = u else sender e = u)).
  { intros e. split.
    - intros He. apply (Permutation_in _ (sort_by_created_desc_perm _)) in He.
      apply filter_In in He as [He Hsel]. split; [exact He|].
      destruct (String.eqb (py_lower d) "incoming"); apply String.eqb_eq; exact Hsel.
    - intros [He Hsel]. apply (Permutation_in _ (Permutation_sym (sort_by_created_desc_perm _))).
      apply filter_In. split; [exact He|].
      destruct (String.eqb (py_lower d) "incoming"); apply String.eqb_eq; exact Hsel. }
  split; [exact Hmem|]. split; [|apply sort_by_created_desc_sorted].
  intros e He. apply Hmem in He as [He _].
  apply in_map_iff in He as ([k e'] & Hkv & Hin). cbn [snd] in Hkv. subst e'.
  split; [exact (prune_locked_not_expired now st k e Hin)|].
  apply in_map_iff. exists (k, e). split; [reflexivity|].
  exact (proj1 (prune_locked_shrinks now st) _ Hin).
Qed.

(** Two transfers to [bob], the later one created at time 5. *)
Definition demo_entry_later : DirectTransferEntry :=
  {| id := "def456"; sender := "carol"; recipient := "bob"; filename := "b.txt";
     stored_filename := "def456.txt"; size := 1%Z;
     content_type := "application/octet-stream"; created_at := 5%Q; expires_at := Some 100%Q |}.

Definition demo_store_listing : Store :=
  {| entries := [("abc123", demo_entry); ("def456", demo_entry_later)]; meta := None;
     files := ["abc123.txt"; "def456.txt"] |}.

Lemma list_transfers_spec_witness :
  fst (list_transfers demo_store_listing 1%Q "bob" "Incoming")
    = DOk [demo_entry_later; demo_entry] /\
  Sorted newer_first [demo_entry_later; demo_entry] /\
  not_expired 1%Q demo_entry_later.
Proof.
  assert (H : fst (list_transfers demo_store_listing 1%Q "bob" "Incoming")
              = DOk [demo_entry_later; demo_entry])
    by (vm_compute; reflexivity).
  destruct (list_transfers_spec demo_store_listing 1%Q "bob" "Incoming"
              [demo_entry_later; demo_entry] H) as (_ & H2 & H3).
  split; [exact H|]. split; [exact H3|].
  exact (proj1 (H2 demo_entry_later (or_introl eq_refl))).
Defined.

Lemma load_entry_same (e : DirectTransferEntry) :
  (forall x, expires_at e = Some x -> ~ (x == 0)%Q) -> load_entry e = e.
Proof.
  intros H. destruct e as [i s r f sf sz ct ca ea]. unfold load_entry. cbn.
  destruct ea as [x|]; [|reflexivity].
  destruct (Qeq_bool x 0) eqn:E; [|reflexivity].
  apply Qeq_bool_iff in E. exfalso. exact (H x eq_refl E).
Qed.

Lemma dict_set_fresh (d : list (string * DirectTransferEntry)) (k : string)
  (v : DirectTransferEntry) : ~ In k (map fst d) -> dict_set d k v = (d ++ [(k, v)])%list.
Proof.
  induction d as [|[k' v'] d IH]; intros H; [reflexivity|].
  cbn. destruct (String.eqb k' k) eqn:E.
  - apply String.eqb_eq in E. subst. exfalso. apply H. left. reflexivity.
  - rewrite IH; [reflexivity|]. intros Hk. apply H. right. exact Hk.
Qed.

Lemma load_fold_same (fls : list string) (E : list (string * DirectTransferEntry)) :
  forall acc,
  (forall k e, In (k, e) E ->
     k = id e /\ existsb (String.eqb (stored_filename e)) fls = true /\
     load_entry e = e) ->
  NoDup (map fst (acc ++ E)) ->
  fold_left (fun acc e =>
               if existsb (String.eqb (stored_filename e)) fls
               then dict_set acc (id e) (load_entry e) else acc) (map snd E) acc
    = (acc ++ E)%list.
Proof.
  induction E as [|[k e] E IH]; intros acc H Hnd; cbn [map fold_left snd].
  - rewrite app_nil_r. reflexivity.
  - destruct (H k e (or_introl eq_refl)) as (Hk & Hf & Hl).
    rewrite Hf, Hl, <- Hk.
    rewrite map_app in Hnd. cbn [map fst] in Hnd.
    rewrite dict_set_fresh.
    + rewrite IH.
      * rewrite <- app_assoc. reflexivity.
      * intros k' e' Hin. apply H. right. exact Hin.
      * rewrite map_app, map_app, <- app_assoc. exact Hnd.
    + intros Hin. apply NoDup_remove_2 in Hnd. apply Hnd. apply in_or_app. left. exact Hin.
Qed.

(** A restart right after [transfers.json] is written reads back every
    transfer with its key and fields, in the same order, for a store
    keyed by ids (as every reachable store is) with distinct keys, whose
    payload files exist and whose expiry times are not zero (a zero
    [expires_at] reads back as no expiry). *)
Theorem restart_after_save (st : Store) :
  keyed_by_id st -> NoDup (map fst (entries st)) ->
  (forall k e, In (k, e) (entries st) ->
     file_exists st (stored_filename e) = true /\
     forall x, expires_at e = Some x -> ~ (x == 0)%Q) ->
  entries (step (save_locked st) OpRestart) = entries st /\
  files (step (save_locked st) OpRestart) = files st.
Proof.
  intros [Hk _] Hnd Hf. cbn [step save_locked meta files load].
  split; [|reflexivity].
  cbn [set_entries entries].
  apply (load_fold_same (files st) (entries st) []); [|exact Hnd].
  intros k e Hin. destruct (Hf k e Hin) as [Hx Hz].
  split; [exact (proj1 (Hk k e Hin))|].
  split; [exact Hx | apply load_entry_same; exact Hz].
Qed.

(** Two transfers, one without expiry and one expiring at time 100. *)
Definition demo_store : Store :=
  {| entries := [("abc123", demo_entry); ("def456", demo_entry_later)]; meta := None;
     files := ["abc123.txt"; "def456.txt"; "orphan.bin"] |}.

Lemma restart_after_save_witness :
  keyed_by_id demo_store /\ NoDup (map fst (entries demo_store)) /\
  entries (step (save_locked demo_store) OpRestart)
    = [("abc123", demo_entry); ("def456", demo_entry_later)].
Proof.
  assert (Hk : keyed_by_id demo_store).
  { split; [|intros items e H; discriminate H].
    intros k e [H|[H|[]]]; injection H as <- <-; split; reflexivity. }
  assert (Hnd : NoDup (map fst (entries demo_store))).
  { constructor; [cbn; intros [H|[]]; discriminate H|].
    constructor; [intros [] | constructor]. }
  split; [exact Hk|]. split; [exact Hnd|].
  refine (proj1 (restart_after_save demo_store Hk Hnd _)).
  intros k e [H|[H|[]]]; injection H as <- <-.
  - split; [reflexivity | intros x Hx; discriminate Hx].
  - split; [reflexivity|]. intros x Hx. injection Hx as <-. discriminate.
Defined.

End DirectTransferMoreFacts.

(* ===================================================================== *)
(** ** Directory creation and deletion *)
(* ===================================================================== *)

Module FsOpsFacts.
Import Py Fs FsOps FsFacts.

Lemma fs_set_other (fs : FS) (p q : path) (v : option node) :
  q <> p -> fs_set fs p v q = fs q.
Proof.
  intros H. unfold fs_set. destruct (path_eqb q p) eqn:E; [|reflexivity].
  apply path_eqb_eq in E. contradiction.
Qed.

Lemma option_node_eq_dec (a b : option node) : {a = b} + {a <> b}.
Proof.
  decide equality. decide equality. apply list_eq_dec. exact Byte.byte_eq_dec.
Qed.

Lemma path_prefixb_refl (p : path) : path_prefixb p p = true.
Proof. induction p as [|x p IH]; [reflexivity|]. cbn. rewrite String.eqb_refl. exact IH. Qed.

Lemma path_prefixb_app_r (p sfx : path) : path_prefixb p (p ++ sfx)%list = true.
Proof. induction p as [|x p IH]; [reflexivity|]. cbn. rewrite String.eqb_refl. exact IH. Qed.

Lemma path_prefixb_trans (a b c : path) :
  path_prefixb a b = true -> path_prefixb b c = true -> path_prefixb a c = true.
Proof.
  intros H1 H2. apply path_prefixb_app in H1 as [s1 ->]. apply path_prefixb_app in H2 as [s2 ->].
  rewrite <- app_assoc. apply path_prefixb_app_r.
Qed.

Lemma path_prefixb_length (a b : path) :
  path_prefixb a b = true -> (List.length a <= List.length b)%nat.
Proof. intros H. apply path_prefixb_app in H as [sfx ->]. rewrite length_app. lia. Qed.

(** A path strictly above [rev rh ++ [t]] is not that path. *)
Lemma prefix_of_parent_neq (q : path) (rh : list string) (t : string) :
  path_prefixb q (rev rh) = true -> q <> (rev rh ++ [t])%list.
Proof.
  intros H ->. apply path_prefixb_length in H. rewrite length_app in H. cbn in H. lia.
Qed.

(** [makedirs_leaf] creates at most [name], as a directory, and returns
    normally only when [name] then exists. *)
Lemma makedirs_leaf_spec (me : path -> bool) (eo : bool) (fs : FS) (name : path) :
  (forall q, fs q <> None -> snd (makedirs_leaf me eo fs name) q = fs q) /\
  (forall q, snd (makedirs_leaf me eo fs name) q <> fs q ->
     snd (makedirs_leaf me eo fs name) q = Some Dir /\ q = name) /\
  (fst (makedirs_leaf me eo fs name) = false -> snd (makedirs_leaf me eo fs name) = fs) /\
  (fst (makedirs_leaf me eo fs name) = true -> snd (makedirs_leaf me eo fs name) name <> None).
Proof.
  unfold makedirs_leaf, mkdir.
  destruct (fs_exists fs name || negb (parent_is_dir fs name) || me name) eqn:E.
  - cbn [fst snd]. split; [reflexivity|]. split; [intros q H; contradiction H; reflexivity|].
    split; [reflexivity|].
    intros Hd. apply andb_true_iff in Hd as [_ Hd]. unfold fs_is_dir in Hd.
    destruct (fs name) as [[|]|]; discriminate.
  - cbn [fst snd]. apply orb_false_iff in E as [E _]. apply orb_false_iff in E as [E _].
    assert (Hn : fs name = None) by (unfold fs_exists in E; destruct (fs name); [discriminate | reflexivity]).
    split; [|split; [|split]].
    + intros q Hq. apply fs_set_other. intros ->. contradiction.
    + intros q Hq. destruct (list_eq_dec string_dec q name) as [->|Hne].
      * split; [apply fs_set_same | reflexivity].
      * rewrite fs_set_other in Hq by exact Hne. contradiction Hq; reflexivity.
    + discriminate.
    + intros _. rewrite fs_set_same. discriminate.
Qed.

(** [os.makedirs(name)] keeps every existing path, creates only [name]
    and its ancestors, as directories, leaves [name] alone when it
    raises, and returns normally only when [name] then exists. *)
Lemma makedirs_rev_spec (me : path -> bool) (eo : bool) (rp : list string) :
  forall fs,
  (forall q, fs q <> None -> snd (makedirs_rev me eo fs rp) q = fs q) /\
  (forall q, snd (makedirs_rev me eo fs rp) q <> fs q ->
     snd (makedirs_rev me eo fs rp) q = Some Dir /\ path_prefixb q (rev rp) = true) /\
  (fst (makedirs_rev me eo fs rp) = false ->
     snd (makedirs_rev me eo fs rp) (rev rp) = fs (rev rp)) /\
  (fst (makedirs_rev me eo fs rp) = true -> snd (makedirs_rev me eo fs rp) (rev rp) <> None).
Proof.
  assert (Leaf : forall fs name,
    (forall q, fs q <> None -> snd (makedirs_leaf me eo fs name) q = fs q) /\
    (forall q, snd (makedirs_leaf me eo fs name) q <> fs q ->
       snd (makedirs_leaf me eo fs name) q = Some Dir /\ path_prefixb q name = true) /\
    (fst (makedirs_leaf me eo fs name) = false ->
       snd (makedirs_leaf me eo fs name) name = fs name) /\
    (fst (makedirs_leaf me eo fs name) = true -> snd (makedirs_leaf me eo fs name) name <> None)).
  { intros fs name. destruct (makedirs_leaf_spec me eo fs name) as (L1 & L2 & L3 & L4).
    split; [exact L1|]. split; [|split; [intros H; rewrite (L3 H); reflexivity | exact L4]].
    intros q Hq. destruct (L2 q Hq) as [Hd ->]. split; [exact Hd | apply path_prefixb_refl]. }
  induction rp as [|t rh IH]; intros fs; cbn [makedirs_rev]; [apply Leaf|].
  destruct rh as [|t' rh'] eqn:Erh; [apply Leaf|]. rewrite <- Erh in *.
  destruct (fs_exists fs (rev rh)) eqn:Ex; [apply Leaf|].
  destruct (IH fs) as (I1 & I2 & I3 & _).
  assert (Hpre : path_prefixb (rev rh) (rev (t :: rh)) = true)
    by (cbn [rev]; apply path_prefixb_app_r).
  assert (Hfar : forall q, path_prefixb q (rev rh) = true -> q <> rev (t :: rh))
    by (intros q Hq; cbn [rev]; apply prefix_of_parent_neq, Hq).
  destruct (makedirs_rev me eo fs rh) as [ok1 fs1] eqn:Er. cbn [fst snd] in I1, I2, I3.
  assert (Htgt : fs1 (rev (t :: rh)) = fs (rev (t :: rh))).
  { destruct (option_node_eq_dec (fs1 (rev (t :: rh))) (fs (rev (t :: rh)))) as [E|E]; [exact E|].
    exfalso. exact (Hfar _ (proj2 (I2 _ E)) eq_refl). }
  destruct ok1.
  - destruct (Leaf fs1 (rev (t :: rh))) as (L1 & L2 & L3 & L4).
    split; [|split; [|split]].
    + intros q Hq. rewrite L1; [apply I1, Hq|]. rewrite I1 by exact Hq. exact Hq.
    + intros q Hq.
      destruct (option_node_eq_dec (snd (makedirs_leaf me eo fs1 (rev (t :: rh))) q) (fs1 q)) as [E|E].
      * rewrite E in Hq |- *. destruct (I2 q Hq) as [Hd Hp].
        split; [exact Hd | exact (path_prefixb_trans _ _ _ Hp Hpre)].
      * exact (L2 q E).
    + intros Hf. rewrite (L3 Hf). exact Htgt.
    + exact L4.
  - cbn [fst snd]. split; [exact I1|]. split; [|split; [intros _; exact Htgt | discriminate]].
    intros q Hq. destruct (I2 q Hq) as [Hd Hp].
    split; [exact Hd | exact (path_prefixb_trans _ _ _ Hp Hpre)].
Qed.

Lemma makedirs_spec (me : path -> bool) (eo : bool) (fs : FS) (p : path) :
  (forall q, fs q <> None -> snd (makedirs me eo fs p) q = fs q) /\
  (forall q, snd (makedirs me eo fs p) q <> fs q ->
     snd (makedirs me eo fs p) q = Some Dir /\ path_prefixb q p = true) /\
  (fst (makedirs me eo fs p) = false -> snd (makedirs me eo fs p) p = fs p) /\
  (fst (makedirs me eo fs p) = true -> snd (makedirs me eo fs p) p <> None).
Proof.
  unfold makedirs. pose proof (makedirs_rev_spec me eo (rev p) fs) as H.
  rewrite rev_involutive in H. exact H.
Qed.

(** [create_directory]: nothing that exists is changed, and the only
    paths that change are the target and its ancestors, which become
    directories. On success the target did not exist before and is now a
    directory. On failure nothing changes, or [os.makedirs] raised after
    creating some missing ancestors (for instance on a final component
    longer than the file system allows): the target itself was not
    created. *)
Theorem create_directory_spec (mkdir_error : path -> bool) (resolve : path -> resolution)
  (get_share_by_name : string -> option path) (fs : FS) (root_name rel_path : string) :
  match create_directory mkdir_error resolve get_share_by_name fs root_name rel_path with
  | (Err _, fs') =>
      fs' = fs \/
      exists share_path dir_path,
      get_share_by_name root_name = Some share_path /\
      join_in_share resolve share_path rel_path = Ok dir_path /\
      fs dir_path = None /\ fs' dir_path = None /\
      (forall q, fs q <> None -> fs' q = fs q) /\
      (forall q, fs' q <> fs q -> fs' q = Some Dir /\ path_prefixb q dir_path = true)
  | (Ok _, fs') =>
      exists share_path dir_path,
      get_share_by_name root_name = Some share_path /\
      join_in_share resolve share_path rel_path = Ok dir_path /\
      fs dir_path = None /\ fs' dir_path = Some Dir /\
      (forall q, fs q <> None -> fs' q = fs q) /\
      (forall q, fs' q <> fs q -> fs' q = Some Dir /\ path_prefixb q dir_path = true)
  end.
Proof.
  unfold create_directory.
  destruct (get_share_by_name root_name) as [sp|] eqn:Eg; [|left; reflexivity].
  destruct (join_in_share resolve sp rel_path) as [dp|e] eqn:Ej; [|left; reflexivity].
  destruct (fs_exists fs dp) eqn:Ee; [left; reflexivity|].
  assert (Hn : fs dp = None) by (unfold fs_exists in Ee; destruct (fs dp); [discriminate | reflexivity]).
  destruct (makedirs_spec mkdir_error false fs dp) as (M1 & M2 & M3 & M4).
  destruct (makedirs mkdir_error false fs dp) as [[|] fs1]; cbn [fst snd] in M1, M2, M3, M4.
  - exists sp, dp. split; [reflexivity|]. split; [exact Ej|]. split; [exact Hn|].
    split; [|split; [exact M1 | exact M2]].
    assert (Hd : fs1 dp <> fs dp) by (rewrite Hn; exact (M4 eq_refl)).
    exact (proj1 (M2 dp Hd)).
  - right. exists sp, dp. split; [reflexivity|]. split; [exact Ej|]. split; [exact Hn|].
    split; [rewrite (M3 eq_refl); exact Hn|]. split; [exact M1 | exact M2].
Qed.


Lemma safe_join_share_root (resolve : path -> resolution) (share_path : path) (rel : string) :
  resolve share_path = Resolved share_path -> In rel [""; "."; "/"; "./"] ->
  join_in_share resolve share_path rel = Ok share_path.
Proof.
  intros Hr Hin. unfold join_in_share, safe_join.
  assert (Hpre : path_prefixb share_path share_path = true).
  { clear. induction share_path as [|x p IH]; [reflexivity|]. cbn. rewrite String.eqb_refl. exact IH. }
  destruct Hin as [<-|[<-|[<-|[<-|[]]]]];
    [ change (normalized_rel "") with ""
    | change (normalized_rel ".") with "."
    | change (normalized_rel "/") with "/"
    | change (normalized_rel "./") with "./" ];
    cbn [String.eqb Ascii.eqb Bool.eqb orb andb]; rewrite ?Hr; try reflexivity.
  change (rel_segments "/") with [""]. cbn [collect_parts String.eqb orb].
  rewrite app_nil_r, Hr, Hpre. reflexivity.
Qed.

(** Deleting the empty path (or [.], [/], [./]) of a share removes the
    share's own directory and everything in it: [safe_join] maps these
    paths to the share root, which [delete_file_or_directory] then
    deletes as a directory. (It is given that the share directory is its
    own canonical path.) *)
Theorem delete_share_root (resolve : path -> resolution)
  (get_share_by_name : string -> option path) (fs : FS) (root_name rel : string)
  (share_path : path) :
  get_share_by_name root_name = Some share_path ->
  resolve share_path = Resolved share_path -> fs share_path = Some Dir ->
  In rel [""; "."; "/"; "./"] ->
  fst (delete_file_or_directory resolve get_share_by_name fs root_name rel) = Ok tt /\
  forall sfx, snd (delete_file_or_directory resolve get_share_by_name fs root_name rel)
                (share_path ++ sfx)%list = None.
Proof.
  intros Hg Hr Hd Hin. unfold delete_file_or_directory.
  rewrite Hg, (safe_join_share_root resolve share_path rel Hr Hin).
  unfold fs_exists, fs_is_dir. rewrite Hd. cbn [negb fst snd].
  split; [reflexivity|]. intros sfx. unfold remove_tree.
  replace (path_prefixb share_path (share_path ++ sfx)%list) with true; [reflexivity|].
  clear. induction share_path as [|x p IH]; [reflexivity|]. cbn. rewrite String.eqb_refl. exact IH.
Qed.

Definition demo_shares (n : string) : option path :=
  if String.eqb n "pub" then Some ["srv"; "pub"] else None.

Definition demo_tree : FS :=
  fun p => if path_eqb p ["srv"; "pub"] then Some Dir
           else if path_eqb p ["srv"; "pub"; "a.txt"] then Some (File [Byte.x61])
           else if path_eqb p ["srv"] then Some Dir else None.

Lemma delete_share_root_witness :
  fst (delete_file_or_directory lexical_resolve demo_shares demo_tree "pub" "") = Ok tt /\
  snd (delete_file_or_directory lexical_resolve demo_shares demo_tree "pub" "")
    ["srv"; "pub"; "a.txt"] = None.
Proof.
  destruct (delete_share_root lexical_resolve demo_shares demo_tree "pub" "" ["srv"; "pub"]
              eq_refl eq_refl eq_refl (or_introl eq_refl)) as [H1 H2].
  split; [exact H1 | exact (H2 ["a.txt"])].
Defined.

(** [create_directory] of [new/] followed by a 300-character name, where
    the file system refuses names over 255 characters: the call fails,
    [new] has been created and stays. *)
Definition name_too_long (p : path) : bool :=
  existsb (fun c => (255 <? String.length c)%nat) p.

Definition long_component : string := string_of_list_ascii (repeat "A"%char 300).

Lemma create_directory_keeps_parents :
  fst (create_directory name_too_long lexical_resolve demo_shares demo_tree "pub"
         ("new/" ++ long_component)) = Err FileSystemError /\
  snd (create_directory name_too_long lexical_resolve demo_shares demo_tree "pub"
         ("new/" ++ long_component)) ["srv"; "pub"; "new"] = Some Dir /\
  demo_tree ["srv"; "pub"; "new"] = None.
Proof. vm_compute. split; [reflexivity | split; reflexivity]. Qed.

End FsOpsFacts.
